(** * Batch provisioning of disposable addresses: the task routes

    A shallow embedding of the four route handlers of the asynchronous
    batch path,

      - [Create.POST]    POST /api/emails/batch/create
      - [Process.POST]   POST /api/emails/batch/process?taskId=ID
      - [Status.GET]     GET  /api/emails/batch/status/[taskId]
      - [Download.GET]   GET  /api/emails/batch/download/[taskId]

    of the routes and components around them,

      - [Sync.POST]        POST /api/emails/generate (batches up to 50)
      - [HistoryList.GET]  the caller's batch history, page by page
      - [ProcessKV.POST]   the process route before the permanent record
      - [DownloadKV.GET]   the download route before its database fall-back
      - [ByAddress.GET]    a mailbox by its address
      - [Client], [Panel]  the decisions of the create dialog and of the
                           history panel

    over an explicit world: the key-value namespace [SITE_CONFIG]
    (ephemeral tasks), the [emails] table, the [batch_task] table and the
    console.  Every [await] on a store may reject; the rejection is chosen
    by the environment record handed to a handler, and it travels through
    the handler's own [try]/[catch] blocks as in the source.  Requests run
    one after the other: two requests that overlap in time are not
    modelled.

    Conventions.  JavaScript numbers that hold counts and millisecond
    timestamps are integers ([Z]): the routes do not check that a
    requested count is a whole number, and a request with a fractional
    count is outside the embedding.  Strings are byte strings and
    [toLowerCase] folds the ASCII letters only, as SQLite's [LOWER] does;
    JavaScript's [toLowerCase] agrees with it on ASCII text (the local
    part of an address comes from nanoid's ASCII alphabet), and a
    statement about requested text that may be anything says so.  A task
    held under a [batch_task:<id>] key is kept as the record itself:
    JSON.stringify followed by JSON.parse is the identity on it, and the
    24 h expiry of a key is not modelled (a key that has expired is a key
    that is absent). *)

From Stdlib Require Import ZArith Lia Ascii String.
From stdpp Require Import base gmap strings list pretty.

Local Open Scope Z_scope.

(** ** Strings *)

Definition lower_ascii (c : ascii) : ascii :=
  let n := nat_of_ascii c in
  if ((65 <=? n)%nat && (n <=? 90)%nat)%bool then ascii_of_nat (n + 32) else c.

(** SQLite's [LOWER]: the letters A-Z are folded and every other byte is
    kept.  JavaScript's [toLowerCase] does the same on a string of ASCII
    characters, which is what an address with a drawn local part and an
    ASCII domain is. *)
Fixpoint toLowerCase (s : string) : string :=
  match s with
  | EmptyString => EmptyString
  | String c r => String (lower_ascii c) (toLowerCase r)
  end.

(** [s.endsWith(suffix)] *)
Fixpoint endsWith (s suffix : string) : bool :=
  if String.eqb s suffix then true
  else match s with
       | EmptyString => false
       | String _ r => endsWith r suffix
       end.

Definition newline : string := String (ascii_of_nat 10) EmptyString.

(** [list.join("\n")] *)
Definition join_lines (l : list string) : string := String.concat newline l.

(** [s.split(',')] *)
Fixpoint split_comma_aux (cur : string) (s : string) : list string :=
  match s with
  | EmptyString => [cur]
  | String c r =>
      if Ascii.eqb c ","%char then cur :: split_comma_aux EmptyString r
      else split_comma_aux (cur +:+ String c EmptyString) r
  end.

Definition split_comma (s : string) : list string := split_comma_aux EmptyString s.

(** ** Data model *)

Inductive Status := pending | processing | completed | failed.

#[global] Instance Status_eq_dec : EqDecision Status.
Proof. solve_decision. Defined.

(** [interface BatchTask] of the process and download routes; [emailList]
    and [error] are the two optional members. *)
Record BatchTask := mkBatchTask {
  taskId : string;
  userId : string;
  domain : string;
  expiryTime : Z;
  totalCount : Z;
  processedCount : Z;
  createdCount : Z;
  status : Status;
  error : option string;
  createdAt : Z;
  updatedAt : Z;
  emailList : option (list string)
}.

(** A row of the [emails] table, as the batch routes write and read it
    (the generated primary key is left out: no route here looks at it). *)
Module Email.
Record row := mk {
  address : string;
  createdAt : Z;
  expiresAt : Z;
  userId : string
}.
End Email.

(** A row of [batch_task] (drizzle/0017): [id] is the primary key, so the
    table is a finite map from [id]. *)
Module History.
Record row := mk {
  userId : string;
  domain : string;
  totalCount : Z;
  createdCount : Z;
  status : Status;
  error : option string;
  createdAt : Z;
  completedAt : option Z
}.
End History.

(** The world the handlers run in.  [kv_puts] is a ghost trace: every
    successful [SITE_CONFIG.put] of a task is appended to it, oldest
    first, so that the sequence of persisted states of a task can be read
    off after a call. *)
Record World := mkWorld {
  kv : gmap string BatchTask;
  emails : list Email.row;
  batchTasks : gmap string History.row;
  console : list string;
  kv_puts : list (string * BatchTask)
}.

Definition set_kv (w : World) (k : gmap string BatchTask)
    (tr : list (string * BatchTask)) : World :=
  mkWorld k (emails w) (batchTasks w) (console w) tr.

Definition set_emails (w : World) (l : list Email.row) : World :=
  mkWorld (kv w) l (batchTasks w) (console w) (kv_puts w).

Definition set_batchTasks (w : World) (m : gmap string History.row) : World :=
  mkWorld (kv w) (emails w) m (console w) (kv_puts w).

Definition set_console (w : World) (l : list string) : World :=
  mkWorld (kv w) (emails w) (batchTasks w) l (kv_puts w).

(** ** Exceptions and state *)

(** What a [catch (error)] clause receives: an [Error] with its message,
    or some other value. *)
Inductive Thrown := ErrorObj (message : string) | NonError.

Inductive Result (A : Type) :=
  | Ok (a : A) (w : World)
  | Throw (e : Thrown) (w : World).
Arguments Ok {A} a w.
Arguments Throw {A} e w.

Definition M (A : Type) : Type := World -> Result A.

Definition ret {A} (a : A) : M A := fun w => Ok a w.

Definition bind {A B} (c : M A) (k : A -> M B) : M B :=
  fun w => match c w with
           | Ok a w' => k a w'
           | Throw e w' => Throw e w'
           end.

Definition throw {A} (e : Thrown) : M A := fun w => Throw e w.

(** [try { c } catch (e) { h e }] *)
Definition try_catch {A} (c : M A) (h : Thrown -> M A) : M A :=
  fun w => match c w with
           | Ok a w' => Ok a w'
           | Throw e w' => h e w'
           end.

Notation "'let*' x ':=' c 'in' k" := (bind c (fun x => k))
  (at level 10, x pattern, c at level 200, k at level 200, only parsing).

(** An awaited store call: it rejects with [e] when the environment says
    so, and otherwise runs. *)
Definition await {A} (fault : option Thrown) (c : M A) : M A :=
  match fault with
  | Some e => throw e
  | None => c
  end.

(** [console.warn] / [console.error] *)
Definition console_log (line : string) : M unit :=
  fun w => Ok tt (set_console w (console w ++ [line])).

(** [env.SITE_CONFIG.get(`batch_task:${id}`)] followed by JSON.parse *)
Definition SITE_CONFIG_get (fault : option Thrown) (id : string)
    : M (option BatchTask) :=
  await fault (fun w => Ok (kv w !! id) w).

(** [env.SITE_CONFIG.put(`batch_task:${id}`, JSON.stringify(task), ...)] *)
Definition SITE_CONFIG_put (fault : option Thrown) (id : string)
    (task : BatchTask) : M unit :=
  await fault
    (fun w => Ok tt (set_kv w (<[id := task]> (kv w)) (kv_puts w ++ [(id, task)]))).

(** [db.query.emails.findFirst({ where: eq(LOWER(address), addressLower) })] *)
Definition emails_findFirst (fault : option Thrown) (addressLower : string)
    : M (option Email.row) :=
  await fault
    (fun w => Ok (List.find
                    (fun r => String.eqb (toLowerCase (Email.address r)) addressLower)
                    (emails w)) w).

(** Modelled from the spec: the uniqueness constraint of the address table
    (its schema is not part of the sources at hand).  The spec has the
    table "unique on normalized address string": a batch is refused when
    one of its addresses, lower-cased, is already stored or occurs twice
    in the batch. *)
Fixpoint unique_ok (stored : list string) (batch : list Email.row) : bool :=
  match batch with
  | [] => true
  | r :: rest =>
      let a := toLowerCase (Email.address r) in
      if bool_decide (a ∈ stored) then false else unique_ok (a :: stored) rest
  end.

(** [db.insert(emails).values(batch).returning({ id, address })]: one
    statement, all rows or none. *)
Definition emails_insert (fault : option Thrown) (batch : list Email.row)
    : M (list Email.row) :=
  await fault
    (fun w =>
       if unique_ok (map (fun r => toLowerCase (Email.address r)) (emails w)) batch
       then Ok batch (set_emails w (emails w ++ batch))
       else Throw (ErrorObj "UNIQUE constraint failed: email.address") w).

(** [db.query.batchTasks.findFirst({ where: eq(batchTasks.id, id) })] *)
Definition batchTasks_findFirst (fault : option Thrown) (id : string)
    : M (option History.row) :=
  await fault (fun w => Ok (batchTasks w !! id) w).

(** [db.update(batchTasks).set(...).where(eq(batchTasks.id, id))] *)
Definition batchTasks_update (fault : option Thrown) (id : string)
    (f : History.row -> History.row) : M unit :=
  await fault (fun w => Ok tt (set_batchTasks w (alter f id (batchTasks w)))).

(** [db.insert(batchTasks).values(row)]; the primary key refuses a
    second row with the same id. *)
Definition batchTasks_insert (fault : option Thrown) (id : string)
    (r : History.row) : M unit :=
  await fault
    (fun w => match batchTasks w !! id with
              | Some _ => Throw (ErrorObj "UNIQUE constraint failed: batch_task.id") w
              | None => Ok tt (set_batchTasks w (<[id := r]> (batchTasks w)))
              end).

(** ** Responses *)

(** The [progress] member.  [Math.round((processed / total) * 100)] is
    double-precision arithmetic, kept as the expression over its two
    integer operands. *)
Inductive Progress :=
  | Percent (n : Z)
  | RoundPercent (processed total : Z).

Module Json.
(** Body of a 200 answer of the process route. *)
Record process := mkProcess {
  status : Status;
  processed : Z;
  total : Z;
  created : Z;
  progress : Progress;
  error : option string;
  message : option string;
  hasMore : option bool
}.

(** Body of a 200 answer of the status route. *)
Record task_status := mkStatus {
  s_taskId : string;
  s_status : Status;
  s_totalCount : Z;
  s_processedCount : Z;
  s_createdCount : Z;
  s_progress : Progress;
  s_error : option string;
  s_createdAt : Z;
  s_updatedAt : Z
}.
End Json.

Inductive Response :=
  | ErrorJson (http : Z) (error : string)
  | ProcessJson (body : Json.process)
  | StatusJson (body : Json.task_status)
  | CreatedJson (taskId : string) (status : Status) (message : string)
  | TextFile (content : string) (filename : string).

Definition http_status (r : Response) : Z :=
  match r with
  | ErrorJson http _ => http
  | _ => 200
  end.

(** A handler's outcome: its response and the world it leaves. *)
Definition Outcome : Type := Response * World.

(** The outermost [try]/[catch] of a handler always answers. *)
Definition run (c : M Response) (h : Thrown -> M Response) (w : World) : Outcome :=
  match c w with
  | Ok r w' => (r, w')
  | Throw e w' =>
      match h e w' with
      | Ok r w'' => (r, w'')
      | Throw _ w'' => (ErrorJson 500 "unhandled", w'')
      end
  end.

(** ** Field updates on a task ([task.f = v]) *)

Definition set_status (v : Status) (t : BatchTask) : BatchTask :=
  mkBatchTask (taskId t) (userId t) (domain t) (expiryTime t) (totalCount t)
    (processedCount t) (createdCount t) v (error t) (createdAt t) (updatedAt t)
    (emailList t).

Definition set_updatedAt (v : Z) (t : BatchTask) : BatchTask :=
  mkBatchTask (taskId t) (userId t) (domain t) (expiryTime t) (totalCount t)
    (processedCount t) (createdCount t) (status t) (error t) (createdAt t) v
    (emailList t).

Definition set_processedCount (v : Z) (t : BatchTask) : BatchTask :=
  mkBatchTask (taskId t) (userId t) (domain t) (expiryTime t) (totalCount t)
    v (createdCount t) (status t) (error t) (createdAt t) (updatedAt t)
    (emailList t).

Definition set_createdCount (v : Z) (t : BatchTask) : BatchTask :=
  mkBatchTask (taskId t) (userId t) (domain t) (expiryTime t) (totalCount t)
    (processedCount t) v (status t) (error t) (createdAt t) (updatedAt t)
    (emailList t).

Definition set_error (v : option string) (t : BatchTask) : BatchTask :=
  mkBatchTask (taskId t) (userId t) (domain t) (expiryTime t) (totalCount t)
    (processedCount t) (createdCount t) (status t) v (createdAt t) (updatedAt t)
    (emailList t).

Definition set_emailList (v : option (list string)) (t : BatchTask) : BatchTask :=
  mkBatchTask (taskId t) (userId t) (domain t) (expiryTime t) (totalCount t)
    (processedCount t) (createdCount t) (status t) (error t) (createdAt t)
    (updatedAt t) v.

(** [searchParams.get("taskId")] is a string or null, and [!taskId] also
    holds for the empty string. *)
Definition truthy (s : option string) : option string :=
  match s with
  | Some EmptyString => None
  | other => other
  end.

(** [error instanceof Error ? error.message : fallback] *)
Definition message_of (e : Thrown) (fallback : string) : string :=
  match e with
  | ErrorObj m => m
  | NonError => fallback
  end.

(** ** The process route: POST /api/emails/batch/process?taskId=ID *)

Module Process.

(** What the surroundings decide during one request: the values drawn
    from nanoid, the clock readings at the six places that read it, the
    outcome of the size check before the last put, and which awaited
    store call rejects. *)
Record Env := mkEnv {
  nanoid : nat -> string;
  now_processing : Z;
  now_generate : Z;
  now_update : Z;
  now_completed : Z;
  now_failed : Z;
  now_failed_record : Z;
  size_over_20MB : bool;
  get_rejects : option Thrown;
  put_processing_rejects : option Thrown;
  findFirst_rejects : nat -> option Thrown;
  insert_rejects : nat -> option Thrown;
  history_find_rejects : option Thrown;
  history_write_rejects : option Thrown;
  put_rejects : option Thrown;
  handler_get_rejects : option Thrown;
  handler_put_rejects : option Thrown;
  handler_history_find_rejects : option Thrown;
  handler_history_write_rejects : option Thrown
}.

Definition PROCESS_BATCH_SIZE : Z := 100.
Definition INSERT_BATCH_SIZE : nat := 20.

(** [new Date('9999-01-01T00:00:00.000Z').getTime()] *)
Definition never_expires : Z := 253370764800000.

(** The [while] loop of lines 118-142.  [budget] is what is left of
    [maxAttempts], so [attempts < maxAttempts] reads [budget <> 0];
    [attempts] counts up beside it and numbers the nanoid draws. *)
Fixpoint generate (env : Env) (task : BatchTask) (toProcess now expires : Z)
    (budget attempts : nat) (emailDataList : list Email.row)
    (addressSet : gset string) : M (list Email.row * nat) :=
  match budget with
  | O => ret (emailDataList, attempts)
  | S budget' =>
      if Z.of_nat (length emailDataList) <? toProcess then
        let address := nanoid env attempts +:+ "@" +:+ domain task in
        let addressLower := toLowerCase address in
        if bool_decide (addressLower ∈ addressSet) then
          generate env task toProcess now expires budget' (S attempts)
            emailDataList addressSet
        else
          let addressSet' := {[addressLower]} ∪ addressSet in
          let* existingEmail :=
            emails_findFirst (findFirst_rejects env attempts) addressLower in
          match existingEmail with
          | Some _ =>
              generate env task toProcess now expires budget' (S attempts)
                emailDataList addressSet'
          | None =>
              generate env task toProcess now expires budget' (S attempts)
                (emailDataList ++ [Email.mk address now expires (userId task)])
                addressSet'
          end
      else ret (emailDataList, attempts)
  end.

(** The [for] loop of lines 159-167.  [rest] is
    [emailDataList.slice(i)] and [k] is [i / INSERT_BATCH_SIZE]; the loop
    goes on while [i < emailDataList.length], that is while [rest] is
    not empty, and [fuel] (the length of the list) bounds its rounds. *)
Fixpoint insert_batches (env : Env) (fuel k : nat) (rest : list Email.row)
    (created : Z) (createdAddresses : list string) : M (Z * list string) :=
  match fuel with
  | O => ret (created, createdAddresses)
  | S fuel' =>
      match rest with
      | [] => ret (created, createdAddresses)
      | _ :: _ =>
          let* batchResults :=
            emails_insert (insert_rejects env k) (take INSERT_BATCH_SIZE rest) in
          insert_batches env fuel' (S k) (drop INSERT_BATCH_SIZE rest)
            (created + Z.of_nat (length batchResults))
            (createdAddresses ++ map Email.address batchResults)
      end
  end.

(** Lines 201-231: the upsert of the permanent record of a completed
    task, inside its own [try]/[catch]. *)
Definition save_completed (env : Env) (id : string) (task : BatchTask) : M unit :=
  try_catch
    (let* existing := batchTasks_findFirst (history_find_rejects env) id in
     match existing with
     | Some _ =>
         batchTasks_update (history_write_rejects env) id
           (fun r => History.mk (History.userId r) (History.domain r)
                       (History.totalCount r) (createdCount task) completed
                       (History.error r) (History.createdAt r)
                       (Some (now_completed env)))
     | None =>
         batchTasks_insert (history_write_rejects env) id
           (History.mk (userId task) (domain task) (totalCount task)
              (createdCount task) completed None (createdAt task)
              (Some (now_completed env)))
     end)
    (fun dbError => console_log "Failed to save batch task to database:").

(** Lines 284-315: the same for a failed task. *)
Definition save_failed (env : Env) (id : string) (task : BatchTask) : M unit :=
  try_catch
    (let* existing := batchTasks_findFirst (handler_history_find_rejects env) id in
     match existing with
     | Some _ =>
         batchTasks_update (handler_history_write_rejects env) id
           (fun r => History.mk (History.userId r) (History.domain r)
                       (History.totalCount r) (createdCount task) failed
                       (error task) (History.createdAt r)
                       (Some (now_failed_record env)))
     | None =>
         batchTasks_insert (handler_history_write_rejects env) id
           (History.mk (userId task) (domain task) (totalCount task)
              (createdCount task) failed (error task) (createdAt task)
              (Some (now_failed_record env)))
     end)
    (fun dbError => console_log "Failed to save failed batch task to database:").

(** Lines 103-261: one chunk, for a task whose status is [processing] by
    now. *)
Definition process_chunk (env : Env) (id : string) (task : BatchTask) : M Response :=
  let remaining := totalCount task - processedCount task in
  let toProcess := Z.min PROCESS_BATCH_SIZE remaining in
  let maxAttempts := toProcess * 5 in
  let now := now_generate env in
  let expires := if expiryTime task =? 0 then never_expires
                 else now + expiryTime task in
  let* (emailDataList, attempts) :=
    generate env task toProcess now expires (Z.to_nat maxAttempts) 0 [] ∅ in
  let* _ :=
    (if ((Z.of_nat (length emailDataList) =? 0)
         && (maxAttempts <=? Z.of_nat attempts))%bool
     then console_log "Failed to generate any unique email addresses"
     else ret tt) in
  let* (created, createdAddresses) :=
    (if 0 <? Z.of_nat (length emailDataList) then
       try_catch
         (insert_batches env (length emailDataList) 0 emailDataList 0 [])
         (fun insertError =>
            let* _ := console_log "Failed to insert emails:" in
            throw (ErrorObj ("邮箱插入失败: " +:+ message_of insertError "未知错误")))
     else ret (0, [])) in
  let actualProcessed := Z.of_nat (length emailDataList) in
  let task := set_processedCount (processedCount task + actualProcessed) task in
  let task := set_createdCount (createdCount task + created) task in
  let task := set_updatedAt (now_update env) task in
  let task :=
    if 0 <? Z.of_nat (length createdAddresses) then
      set_emailList (Some (default [] (emailList task) ++ createdAddresses)) task
    else task in
  let task :=
    if totalCount task <? processedCount task then
      set_processedCount (totalCount task) task
    else task in
  let* task :=
    (if totalCount task <=? processedCount task then
       let task := set_status completed (set_processedCount (totalCount task) task) in
       let* _ := save_completed env id task in
       ret task
     else ret task) in
  let* _ :=
    (if size_over_20MB env
     then console_log "Task size is close to KV limit (25MB)"
     else ret tt) in
  let* _ := SITE_CONFIG_put (put_rejects env) id task in
  ret (ProcessJson
         (Json.mkProcess (status task) (processedCount task) (totalCount task)
            (createdCount task)
            (RoundPercent (processedCount task) (totalCount task))
            None None
            (Some (processedCount task <? totalCount task)))).

(** Lines 32-261: the body of the outer [try]. *)
Definition body (env : Env) (taskId : option string) : M Response :=
  match truthy taskId with
  | None => ret (ErrorJson 400 "任务ID不能为空")
  | Some id =>
      let* taskData := SITE_CONFIG_get (get_rejects env) id in
      match taskData with
      | None => ret (ErrorJson 404 "任务不存在或已过期")
      | Some task =>
          if decide (status task = completed) then
            ret (ProcessJson
                   (Json.mkProcess completed (processedCount task) (totalCount task)
                      (createdCount task) (Percent 100) None
                      (Some "任务已完成") None))
          else if decide (status task = failed) then
            ret (ProcessJson
                   (Json.mkProcess failed (processedCount task) (totalCount task)
                      (createdCount task)
                      (RoundPercent (processedCount task) (totalCount task))
                      (error task) None None))
          else if (bool_decide (status task = processing)
                   && (processedCount task <? totalCount task))%bool then
            process_chunk env id task
          else if decide (status task = pending) then
            let task := set_updatedAt (now_processing env)
                          (set_status processing task) in
            let* _ := SITE_CONFIG_put (put_processing_rejects env) id task in
            process_chunk env id task
          else
            ret (ProcessJson
                   (Json.mkProcess (status task) (processedCount task)
                      (totalCount task) (createdCount task)
                      (RoundPercent (processedCount task) (totalCount task))
                      None
                      (Some (if decide (status task = completed)
                             then "任务已完成" else "任务已失败"))
                      None))
      end
  end.

(** Lines 262-326: the outer [catch]. *)
Definition on_error (env : Env) (taskId : option string) (error : Thrown)
    : M Response :=
  let* _ := console_log "Failed to process batch task:" in
  let* _ :=
    try_catch
      (match truthy taskId with
       | Some id =>
           let* taskData := SITE_CONFIG_get (handler_get_rejects env) id in
           match taskData with
           | Some task =>
               let task := set_status failed task in
               let task := set_error (Some (message_of error "处理失败")) task in
               let task := set_updatedAt (now_failed env) task in
               let* _ := SITE_CONFIG_put (handler_put_rejects env) id task in
               save_failed env id task
           | None => ret tt
           end
       | None => ret tt
       end)
      (fun updateError => console_log "Failed to update task status:") in
  ret (ErrorJson 500 "处理批量任务失败").

Definition POST (env : Env) (taskId : option string) (w : World) : Outcome :=
  run (body env taskId) (on_error env taskId) w.

End Process.

(** ** The status route: GET /api/emails/batch/status/[taskId] *)

Module Status.

Record Env := mkEnv {
  get_rejects : option Thrown
}.

(** Lines 28-66; [session] is what [getUserId()] resolved to. *)

Definition body (env : Env) (session : option string) (id : string)
    : M Response :=
  match truthy session with
  | None => ret (ErrorJson 401 "未授权")
  | Some userId' =>
      let* taskData := SITE_CONFIG_get (get_rejects env) id in
      match taskData with
      | None => ret (ErrorJson 404 "任务不存在或已过期")
      | Some task =>
          if negb (String.eqb (userId task) userId') then
            ret (ErrorJson 403 "无权访问此任务")
          else
            ret (StatusJson
                   (Json.mkStatus (taskId task) (status task)
                      (totalCount task) (processedCount task) (createdCount task)
                      (RoundPercent (processedCount task) (totalCount task))
                      (error task) (createdAt task) (updatedAt task)))
      end
  end.

Definition on_error (error : Thrown) : M Response :=
  let* _ := console_log "Failed to get batch task status:" in
  ret (ErrorJson 500 "获取任务状态失败").

Definition GET (env : Env) (session : option string) (id : string)
    (w : World) : Outcome :=
  run (body env session id) on_error w.

End Status.

(** ** The download route: GET /api/emails/batch/download/[taskId] *)

Module Download.

Record Env := mkEnv {
  get_rejects : option Thrown;
  history_find_rejects : option Thrown;
  emails_find_rejects : option Thrown
}.

(** [ORDER BY created_at ASC], as a stable insertion sort: rows with the
    same [createdAt] (a whole chunk shares one) stay in table order, which
    SQL itself leaves open. *)
Fixpoint insert_by_createdAt (r : Email.row) (l : list Email.row) : list Email.row :=
  match l with
  | [] => [r]
  | x :: rest =>
      if Email.createdAt r <=? Email.createdAt x then r :: l
      else x :: insert_by_createdAt r rest
  end.

Definition order_by_createdAt (l : list Email.row) : list Email.row :=
  foldr insert_by_createdAt [] l.

(** [LIMIT n]: SQLite reads a negative limit as no limit. *)
Definition sql_limit (n : Z) (l : list Email.row) : list Email.row :=
  if n <? 0 then l else take (Z.to_nat n) l.

(** [l.slice(0, n)]: a negative end counts from the end of the list. *)
Definition slice0 (n : Z) (l : list Email.row) : list Email.row :=
  if n <? 0 then take (length l - Z.to_nat (- n))%nat l else take (Z.to_nat n) l.

(** Lines 369-376: [db.query.emails.findMany] with its where, orderBy
    and limit. *)
Definition emails_findMany (fault : option Thrown) (userId' : string)
    (since limit : Z) : M (list Email.row) :=
  await fault
    (fun w =>
       Ok (sql_limit limit
             (order_by_createdAt
                (List.filter
                   (fun r => (String.eqb (Email.userId r) userId'
                              && (since <=? Email.createdAt r))%bool)
                   (emails w)))) w).

(** Lines 379-382 of the download route *)
Definition matchingEmails (taskEmails : list Email.row) (domain' : string)
    (createdCount' : Z) : list string :=
  map Email.address
    (slice0 createdCount'
       (List.filter (fun r => endsWith (Email.address r) ("@" +:+ domain'))
          taskEmails)).

(** The body of the [try]: the task is taken from the ephemeral store
    when it is still there, and otherwise rebuilt from the permanent
    tables.  [found] is either the early answer of a branch or the list
    of addresses it arrived at. *)
Definition body (env : Env) (session : option string) (id : string)
    : M Response :=
  match truthy session with
  | None => ret (ErrorJson 401 "未授权")
  | Some userId' =>
      let* taskData := SITE_CONFIG_get (get_rejects env) id in
      let* found :=
        match taskData with
        | Some task =>
            if negb (String.eqb (userId task) userId') then
              ret (inl (ErrorJson 403 "无权访问此任务"))
            else if negb (bool_decide (status task = completed)) then
              ret (inl (ErrorJson 400 "任务尚未完成"))
            else ret (inr (default [] (emailList task)))
        | None =>
            let* dbTask := batchTasks_findFirst (history_find_rejects env) id in
            match dbTask with
            | None => ret (inl (ErrorJson 404 "任务不存在"))
            | Some dbTask =>
                if negb (String.eqb (History.userId dbTask) userId') then
                  ret (inl (ErrorJson 403 "无权访问此任务"))
                else if negb (bool_decide (History.status dbTask = completed)) then
                  ret (inl (ErrorJson 400 "任务尚未完成"))
                else
                  let* taskEmails :=
                    emails_findMany (emails_find_rejects env) userId'
                      (History.createdAt dbTask) (History.totalCount dbTask * 2) in
                  let emailList :=
                    matchingEmails taskEmails (History.domain dbTask)
                      (History.createdCount dbTask) in
                  let* _ :=
                    (if Z.of_nat (length emailList) <? History.createdCount dbTask
                     then console_log "Found fewer emails than expected"
                     else ret tt) in
                  ret (inr emailList)
            end
        end in
      match found with
      | inl early => ret early
      | inr emailList =>
          if (length emailList =? 0)%nat then
            ret (ErrorJson 400 "没有可下载的邮箱地址")
          else
            ret (TextFile (join_lines emailList) ("emails-" +:+ id +:+ ".txt"))
      end
  end.

Definition on_error (error : Thrown) : M Response :=
  let* _ := console_log "Failed to download batch emails:" in
  ret (ErrorJson 500 "下载失败").

Definition GET (env : Env) (session : option string) (id : string)
    (w : World) : Outcome :=
  run (body env session id) on_error w.

End Download.

(** ** The create route: POST /api/emails/batch/create *)

Module Create.

(** [ROLES.EMPEROR] against every other role. *)
Inductive Role := EMPEROR | other_role (name : string).

(** The request body; [name] plays no part in a batch. *)
Record Body := mkBody {
  expiryTime : Z;
  domain : string;
  batch : option Z
}.

(** The configuration the handler reads ([EXPIRY_OPTIONS], the
    [EMAIL_DOMAINS] entry, and [Number] of the [MAX_EMAILS] entry or of
    [EMAIL_CONFIG.MAX_ACTIVE_EMAILS], [None] when that is NaN), the id it
    draws, its clock readings, and which awaited call rejects. *)
Record Env := mkEnv {
  EXPIRY_OPTIONS : list Z;
  EMAIL_DOMAINS : option string;
  maxCount : option Z;
  nanoid16 : string;
  now_quota : Z;
  now : Z;
  json_rejects : option Thrown;
  domains_rejects : option Thrown;
  max_rejects : option Thrown;
  count_rejects : option Thrown;
  put_rejects : option Thrown
}.

Definition ASYNC_THRESHOLD : Z := 50.

(** [batch || 1] *)
Definition batchCount_of (b : option Z) : Z :=
  match b with
  | None => 1
  | Some n => if n =? 0 then 1 else n
  end.

(** The count of the rows of [emails] with [userId = ?] and [expiresAt > now] *)
Definition activeEmailsCount (fault : option Thrown) (userId' : string) (now' : Z)
    : M Z :=
  await fault
    (fun w =>
       Ok (Z.of_nat
             (length
                (List.filter
                   (fun r => (String.eqb (Email.userId r) userId'
                              && (now' <? Email.expiresAt r))%bool)
                   (emails w)))) w).

(** [currentCount + batchCount > maxCount], false when [maxCount] is NaN *)
Definition over_quota (currentCount batchCount : Z) (maxCount' : option Z) : bool :=
  match maxCount' with
  | Some m => m <? currentCount + batchCount
  | None => false
  end.

Definition domains_of (domainString : option string) : list string :=
  match truthy domainString with
  | Some s => split_comma s
  | None => ["moemail.app"]
  end.

(** The message of the quota rejection (line 92); a ceiling that is NaN
    would print as such. *)
Definition quota_message (currentCount : Z) (maxCount' : option Z) (batchCount : Z)
    : string :=
  "批量创建后邮箱数量将超过最大限制。当前: " +:+ pretty currentCount +:+ "/"
  +:+ match maxCount' with Some m => pretty m | None => "NaN" end
  +:+ "，尝试创建: " +:+ pretty batchCount.

(** Lines 73-96: the quota check, skipped for [ROLES.EMPEROR]; it yields
    the 403 message when the request is over quota. *)
Definition quota_rejected (env : Env) (userId' : string) (userRole : Role)
    (batchCount : Z) : M (option string) :=
  match userRole with
  | EMPEROR => ret None
  | other_role _ =>
      let* maxCount' := await (max_rejects env) (ret (maxCount env)) in
      let* currentCount :=
        activeEmailsCount (count_rejects env) userId' (now_quota env) in
      if over_quota currentCount batchCount maxCount'
      then ret (Some (quota_message currentCount maxCount' batchCount))
      else ret None
  end.

(** Lines 98-153: above the threshold a task is stored, at or below it
    the caller is sent to the synchronous route.  The fire-and-forget
    [fetch] of the process route (lines 125-140) is a request of its own,
    run by [Process.POST]; the handler neither waits for it nor sees its
    failure. *)
Definition dispatch (env : Env) (userId' : string) (req : Body) (batchCount : Z)
    : M Response :=
  if ASYNC_THRESHOLD <? batchCount then
    let taskId' := nanoid16 env in
    let task :=
      mkBatchTask taskId' userId' (domain req) (expiryTime req) batchCount
        0 0 pending None (now env) (now env) None in
    let* _ := SITE_CONFIG_put (put_rejects env) taskId' task in
    ret (CreatedJson taskId' pending "批量创建任务已启动，请使用任务ID查询进度")
  else
    ret (ErrorJson 400 "请使用 /api/emails/generate 接口进行小批量创建（≤50）").

(** Lines 45-153 *)
Definition body (env : Env) (userId' : string) (userRole : Role) (req : Body)
    : M Response :=
  let* _ := await (json_rejects env) (ret tt) in
  let batchCount := batchCount_of (batch req) in
  if negb (existsb (fun option => option =? expiryTime req) (EXPIRY_OPTIONS env)) then
    ret (ErrorJson 400 "无效的过期时间")
  else
    let* domainString := await (domains_rejects env) (ret (EMAIL_DOMAINS env)) in
    let domains := domains_of domainString in
    if negb (existsb (String.eqb (domain req)) domains) then
      ret (ErrorJson 400 "无效的域名")
    else
      let* rejected := quota_rejected env userId' userRole batchCount in
      match rejected with
      | Some message => ret (ErrorJson 403 message)
      | None => dispatch env userId' req batchCount
      end.

Definition on_error (error : Thrown) : M Response :=
  let* _ := console_log "Failed to create batch task:" in
  ret (ErrorJson 500 "创建批量任务失败").

(** Lines 32-161; [getUserId] and [getUserRole] run before the [try]. *)
Definition POST (env : Env) (session : option string) (userRole : Role)
    (req : Body) (w : World) : Outcome :=
  match truthy session with
  | None => (ErrorJson 401 "未授权", w)
  | Some userId' => run (body env userId' userRole req) on_error w
  end.

End Create.


(** ** The synchronous route: POST /api/emails/generate

    The route the create route sends small batches to (the second
    document of components/emails/email-list.tsx).  It asserts a user id
    without testing it ([userId!]); the model takes the id of a signed-in
    user.  The quota check, the expiry and domain checks and the
    generation loop are, line for line, those of the create route and of
    the process route. *)

Module Sync.

Record Body := mkBody {
  name : option string;
  expiryTime : Z;
  domain : string;
  batch : option Z
}.

(** The configuration the handler reads, the values it draws ([nanoid]
    numbers the draws of [nanoid(8)], [nanoid16] is the id of the batch,
    [row_id] the key the table gives a single new row), its clock readings
    and which awaited call rejects. *)
Record Env := mkEnv {
  EXPIRY_OPTIONS : list Z;
  EMAIL_DOMAINS : option string;
  maxCount : option Z;
  nanoid : nat -> string;
  nanoid16 : string;
  row_id : string;
  now_quota : Z;
  now : Z;
  now_completed : Z;
  json_rejects : option Thrown;
  max_rejects : option Thrown;
  count_rejects : option Thrown;
  domains_rejects : option Thrown;
  findFirst_rejects : nat -> option Thrown;
  insert_rejects : nat -> option Thrown;
  history_insert_rejects : option Thrown
}.

Inductive Answer :=
  | Rejected (http : Z) (error : string)
  | BatchCreated (count : Z) (addresses : list string) (id : string) (st : Status)
  | Created (id : string) (email : string).

Definition MAX_BATCH_SIZE : Z := 50.
Definition INSERT_BATCH_SIZE : nat := 20.

(** Lines 626-647: the quota check, skipped for [ROLES.EMPEROR]. *)
Definition quota_rejected (env : Env) (userId' : string) (userRole : Create.Role)
    (batchCount : Z) : M (option string) :=
  match userRole with
  | Create.EMPEROR => ret None
  | Create.other_role _ =>
      let* maxCount' := await (max_rejects env) (ret (maxCount env)) in
      let* currentCount :=
        Create.activeEmailsCount (count_rejects env) userId' (now_quota env) in
      if Create.over_quota currentCount batchCount maxCount'
      then ret (Some (Create.quota_message currentCount maxCount' batchCount))
      else ret None
  end.

(** The [while] loop of lines 689-714; [budget] and [attempts] as in the
    loop of the process route. *)
Fixpoint generate (env : Env) (userId' domain' : string) (batchCount now' expires : Z)
    (budget attempts : nat) (emailDataList : list Email.row)
    (addressSet : gset string) : M (list Email.row * nat) :=
  match budget with
  | O => ret (emailDataList, attempts)
  | S budget' =>
      if Z.of_nat (length emailDataList) <? batchCount then
        let address := nanoid env attempts +:+ "@" +:+ domain' in
        let addressLower := toLowerCase address in
        if bool_decide (addressLower ∈ addressSet) then
          generate env userId' domain' batchCount now' expires budget' (S attempts)
            emailDataList addressSet
        else
          let addressSet' := {[addressLower]} ∪ addressSet in
          let* existingEmail :=
            emails_findFirst (findFirst_rejects env attempts) addressLower in
          match existingEmail with
          | Some _ =>
              generate env userId' domain' batchCount now' expires budget' (S attempts)
                emailDataList addressSet'
          | None =>
              generate env userId' domain' batchCount now' expires budget' (S attempts)
                (emailDataList ++ [Email.mk address now' expires userId'])
                addressSet'
          end
      else ret (emailDataList, attempts)
  end.

(** The [for] loop of lines 729-735. *)
Fixpoint insert_batches (env : Env) (fuel k : nat) (rest : list Email.row)
    (allResults : list Email.row) : M (list Email.row) :=
  match fuel with
  | O => ret allResults
  | S fuel' =>
      match rest with
      | [] => ret allResults
      | _ :: _ =>
          let* batchResults :=
            emails_insert (insert_rejects env k) (take INSERT_BATCH_SIZE rest) in
          insert_batches env fuel' (S k) (drop INSERT_BATCH_SIZE rest)
            (allResults ++ batchResults)
      end
  end.

(** Lines 681-756: a batch of two or more. *)
Definition create_batch (env : Env) (userId' : string) (req : Body)
    (batchCount now' expires : Z) : M Answer :=
  let maxAttempts := batchCount * 5 in
  let* (emailDataList, attempts) :=
    generate env userId' (domain req) batchCount now' expires
      (Z.to_nat maxAttempts) 0 [] ∅ in
  if (length emailDataList =? 0)%nat then
    ret (Rejected 500 "无法生成唯一的邮箱地址，请稍后重试")
  else
    let* allResults :=
      insert_batches env (length emailDataList) 0 emailDataList [] in
    let taskId' := nanoid16 env in
    let* _ :=
      batchTasks_insert (history_insert_rejects env) taskId'
        (History.mk userId' (domain req) (Z.of_nat (length allResults))
           (Z.of_nat (length allResults)) completed None now'
           (Some (now_completed env))) in
    ret (BatchCreated (Z.of_nat (length allResults)) (map Email.address allResults)
           taskId' completed).

(** Lines 758-785: a single address, named by the caller or drawn. *)
Definition create_single (env : Env) (userId' : string) (req : Body)
    (now' expires : Z) : M Answer :=
  let address :=
    match truthy (name req) with
    | Some n => n
    | None => nanoid env 0
    end +:+ "@" +:+ domain req in
  let* existingEmail :=
    emails_findFirst (findFirst_rejects env 0) (toLowerCase address) in
  match existingEmail with
  | Some _ => ret (Rejected 409 "该邮箱地址已被使用")
  | None =>
      let* result :=
        emails_insert (insert_rejects env 0) [Email.mk address now' expires userId'] in
      match result with
      | r :: _ => ret (Created (row_id env) (Email.address r))
      | [] => throw (ErrorObj "Cannot read properties of undefined")
      end
  end.

(** Lines 617-785: the body of the [try]. *)
Definition body (env : Env) (userId' : string) (userRole : Create.Role) (req : Body)
    : M Answer :=
  let* _ := await (json_rejects env) (ret tt) in
  let batchCount := Create.batchCount_of (batch req) in
  let* rejected := quota_rejected env userId' userRole batchCount in
  match rejected with
  | Some message => ret (Rejected 403 message)
  | None =>
      if ((batchCount <? 1) || (MAX_BATCH_SIZE <? batchCount))%bool then
        ret (Rejected 400 "批量创建数量必须在 1-50 之间")
      else if negb (existsb (fun option => option =? expiryTime req)
                      (EXPIRY_OPTIONS env)) then
        ret (Rejected 400 "无效的过期时间")
      else
        let* domainString := await (domains_rejects env) (ret (EMAIL_DOMAINS env)) in
        let domains := Create.domains_of domainString in
        if negb (existsb (String.eqb (domain req)) domains) then
          ret (Rejected 400 "无效的域名")
        else
          let now' := now env in
          let expires := if expiryTime req =? 0 then Process.never_expires
                         else now' + expiryTime req in
          if 1 <? batchCount
          then create_batch env userId' req batchCount now' expires
          else create_single env userId' req now' expires
  end.

(** Lines 609-792: the [catch] logs and answers 500. *)
Definition POST (env : Env) (userId' : string) (userRole : Create.Role) (req : Body)
    (w : World) : Answer * World :=
  match body env userId' userRole req w with
  | Ok r w' => (r, w')
  | Throw _ w' =>
      (Rejected 500 "创建邮箱失败",
       set_console w' (console w' ++ ["Failed to generate email:"]))
  end.

End Sync.

(** ** The history route: GET /api/emails/batch/history

    The third document of components/profile/batch-history-panel.tsx.
    Its two query parameters are taken as what [parseInt] reads from them:
    [None] for a parameter that is absent or empty (the default applies),
    [Some n] for one that reads as the integer [n]; a parameter that reads
    as no number is not modelled. *)

Module HistoryList.

Record Env := mkEnv {
  findMany_rejects : option Thrown;
  count_rejects : option Thrown
}.

(** An entry of the [history] member: the row's id and its columns but
    the owner. *)
Record item := mkItem {
  id : string;
  domain : string;
  totalCount : Z;
  createdCount : Z;
  status : Status;
  error : option string;
  createdAt : Z;
  completedAt : option Z
}.

Inductive Answer :=
  | Rejected (http : Z) (error : string)
  | Page (history : list item) (total limit offset : Z).

(** [ORDER BY created_at DESC], as a stable insertion sort: rows with the
    same [createdAt] stay in table order, which SQL leaves open. *)
Fixpoint insert_newest_first (r : string * History.row)
    (l : list (string * History.row)) : list (string * History.row) :=
  match l with
  | [] => [r]
  | x :: rest =>
      if History.createdAt (snd x) <=? History.createdAt (snd r) then r :: l
      else x :: insert_newest_first r rest
  end.

Definition order_newest_first (l : list (string * History.row))
    : list (string * History.row) :=
  foldr insert_newest_first [] l.

(** [LIMIT limit OFFSET offset]: SQLite reads a negative limit as no
    limit and a negative offset as zero. *)
Definition limit_offset {A} (limit offset : Z) (l : list A) : list A :=
  let rest := drop (Z.to_nat offset) l in
  if limit <? 0 then rest else take (Z.to_nat limit) rest.

(** The rows of [batch_task] with [userId = ?] *)
Definition rows_of (userId' : string) (w : World) : list (string * History.row) :=
  List.filter (fun p => String.eqb (History.userId (snd p)) userId')
    (map_to_list (batchTasks w)).

(** Lines 445-450: [db.query.batchTasks.findMany] with its where, orderBy,
    limit and offset. *)
Definition findMany (fault : option Thrown) (userId' : string) (limit offset : Z)
    : M (list (string * History.row)) :=
  await fault
    (fun w => Ok (limit_offset limit offset (order_newest_first (rows_of userId' w))) w).

(** Lines 453-457: the count of the rows with [userId = ?] *)
Definition count (fault : option Thrown) (userId' : string) : M Z :=
  await fault (fun w => Ok (Z.of_nat (length (rows_of userId' w))) w).

(** Lines 460-469 *)
Definition to_item (p : string * History.row) : item :=
  mkItem (fst p) (History.domain (snd p)) (History.totalCount (snd p))
    (History.createdCount (snd p)) (History.status (snd p)) (History.error (snd p))
    (History.createdAt (snd p)) (History.completedAt (snd p)).

(** Lines 431-474: the body of the [try]. *)
Definition body (env : Env) (session : option string) (limit' offset' : option Z)
    : M Answer :=
  match truthy session with
  | None => ret (Rejected 401 "未授权")
  | Some userId' =>
      let limit := default 20 limit' in
      let offset := default 0 offset' in
      let* history :=
        findMany (findMany_rejects env) userId' (Z.min limit 100) offset in
      let* total := count (count_rejects env) userId' in
      ret (Page (map to_item history) total limit offset)
  end.

(** Lines 429-482 *)
Definition GET (env : Env) (session : option string) (limit' offset' : option Z)
    (w : World) : Answer * World :=
  match body env session limit' offset' w with
  | Ok r w' => (r, w')
  | Throw _ w' =>
      (Rejected 500 "获取批次历史失败",
       set_console w' (console w' ++ ["Failed to fetch batch history:"]))
  end.

End HistoryList.

(** ** The download route before it fell back on the permanent tables

    The first document of unnamed/part_001: the same route, answering
    from the ephemeral store only. *)

Module DownloadKV.

(** Lines 29-84 *)
Definition body (get_rejects : option Thrown) (session : option string) (id : string)
    : M Response :=
  match truthy session with
  | None => ret (ErrorJson 401 "未授权")
  | Some userId' =>
      let* taskData := SITE_CONFIG_get get_rejects id in
      match taskData with
      | None => ret (ErrorJson 404 "任务不存在或已过期")
      | Some task =>
          if negb (String.eqb (userId task) userId') then
            ret (ErrorJson 403 "无权访问此任务")
          else if negb (bool_decide (status task = completed)) then
            ret (ErrorJson 400 "任务尚未完成")
          else
            let emailList := default [] (emailList task) in
            if (length emailList =? 0)%nat then
              ret (ErrorJson 400 "没有可下载的邮箱地址")
            else
              ret (TextFile (join_lines emailList) ("emails-" +:+ id +:+ ".txt"))
      end
  end.

Definition on_error (error : Thrown) : M Response :=
  let* _ := console_log "Failed to download batch emails:" in
  ret (ErrorJson 500 "下载失败").

Definition GET (get_rejects : option Thrown) (session : option string) (id : string)
    (w : World) : Outcome :=
  run (body get_rejects session id) on_error w.

End DownloadKV.

(** ** The dialog that asks for addresses: components/emails/create-dialog.tsx

    The two decisions of the dialog that meet the routes: where it sends
    a request, and what it does with an answer of the status route.
    Toasts, timers and React state are not modelled. *)

Module Client.

(** Line 65: in batch mode nothing is sent when [batchCount < 1]. *)
Definition batchCountInvalid (batchCount : Z) : bool := batchCount <? 1.

(** Line 81 *)
Definition useAsync (batchMode : bool) (batchCount : Z) : bool :=
  batchMode && (50 <? batchCount).

Inductive Endpoint := batch_create | generate.

(** Line 82 *)
Definition apiEndpoint (batchMode : bool) (batchCount : Z) : Endpoint :=
  if useAsync batchMode batchCount then batch_create else generate.

(** Line 91: the [batch] member of the request body *)
Definition batch_member (batchMode : bool) (batchCount : Z) : option Z :=
  if batchMode then Some batchCount else None.

(** What [checkStatus] does with a 200 answer of the status route. *)
Inductive Next :=
  | close_with_success (count : Z)
  | show_failure (description : string)
  | poll_again (trigger : bool).

(** Lines 238-240 *)
Definition needsTrigger (s : Json.task_status) : bool :=
  (bool_decide (Json.s_status s = pending) && (Json.s_processedCount s =? 0))
  || (bool_decide (Json.s_status s = processing)
      && (Json.s_processedCount s <? Json.s_totalCount s)).

(** Lines 207-260 *)
Definition checkStatus (s : Json.task_status) : Next :=
  if decide (Json.s_status s = completed) then
    close_with_success (Json.s_createdCount s)
  else if decide (Json.s_status s = failed) then
    show_failure (match truthy (Json.s_error s) with
                  | Some e => e
                  | None => "批量创建失败"
                  end)
  else poll_again (needsTrigger s).

End Client.

(** ** The panel that lists the batches: components/profile/batch-history-panel.tsx

    The state that [fetchHistory] keeps (lines 40-44 and 71-110): the
    entries loaded so far, whether a "load more" button is offered, and
    the offset of the next page.  Entries are kept as the route sends
    them (the panel turns their two time stamps into Date objects).
    Loading flags and toasts are not modelled. *)

Module Panel.

Record State := mkState {
  history : list HistoryList.item;
  hasMore : bool;
  offset : Z
}.

(** Lines 40-44: the initial values of [useState] *)
Definition initial : State := mkState [] false 0.

(** Lines 80-98: what [fetchHistory(currentOffset)] does with the answer
    of the route.  An answer that is not [ok] throws, and the [catch]
    keeps the state. *)
Definition received (currentOffset : Z) (answer : HistoryList.Answer) (s : State)
    : State :=
  match answer with
  | HistoryList.Page items total _ _ =>
      mkState (if currentOffset =? 0 then items else history s ++ items)
        ((Z.of_nat (length items) =? 20)
         && (currentOffset + Z.of_nat (length items) <? total))
        (currentOffset + Z.of_nat (length items))
  | HistoryList.Rejected _ _ => s
  end.

(** Line 79: [fetchHistory(currentOffset)] asks for [limit=20] and
    [offset=currentOffset]. *)
Definition fetchHistory (env : HistoryList.Env) (session : option string) (w : World)
    (currentOffset : Z) (s : State) : State :=
  received currentOffset
    (fst (HistoryList.GET env session (Some 20) (Some currentOffset) w)) s.

(** Lines 112-115: the load on mount. *)
Definition first_load (env : HistoryList.Env) (session : option string) (w : World)
    : State :=
  fetchHistory env session w 0 initial.

(** Lines 248-254: the button that is shown while [hasMore] loads from
    [offset]. *)
Definition load_more (env : HistoryList.Env) (session : option string) (w : World)
    (s : State) : State :=
  if hasMore s then fetchHistory env session w (offset s) s else s.

End Panel.

(** ** A mailbox by its address

    The route that answers a mailbox for an address (the second document
    of api/emails/latest/route.ts) and the library function it calls
    ([getSharedEmailByAddress], in unnamed/part_007).  Anyone may ask: the
    route identifies nobody.  The answer carries the key of the row, which
    the rows of this development do not have; it is left out. *)

Module ByAddress.

(** [interface SharedEmail], without the key. *)
Record SharedEmail := mkShared {
  address : string;
  createdAt : Z;
  expiresAt : Z
}.

(** The clock reading of the request and whether the lookup rejects. *)
Record Env := mkEnv {
  now : Z;
  findFirst_rejects : option Thrown
}.

(** unnamed/part_007, lines 65-96: the function answers null for an
    address that is not stored, for one that has expired, and when the
    lookup rejects. *)
Definition getSharedEmailByAddress (env : Env) (emailAddress : string)
    : M (option SharedEmail) :=
  try_catch
    (let* email :=
       emails_findFirst (findFirst_rejects env) (toLowerCase emailAddress) in
     match email with
     | None =>
         let* _ := console_log "Email not found:" in
         ret None
     | Some email =>
         if Email.expiresAt email <? now env then
           let* _ := console_log "Email expired:" in
           ret None
         else
           ret (Some (mkShared (Email.address email) (Email.createdAt email)
                        (Email.expiresAt email)))
     end)
    (fun error =>
       let* _ := console_log "Failed to fetch shared email by address:" in
       ret None).

Inductive Answer :=
  | Rejected (http : Z) (error : string)
  | Found (email : SharedEmail).

(** api/emails/latest/route.ts, lines 83-119 *)
Definition GET (env : Env) (emailAddress : option string) (w : World)
    : Answer * World :=
  match truthy emailAddress with
  | None => (Rejected 400 "Email parameter is required", w)
  | Some a =>
      match getSharedEmailByAddress env a w with
      | Ok None w' => (Rejected 404 "Email not found or not accessible", w')
      | Ok (Some email) w' => (Found email, w')
      | Throw _ w' =>
          (Rejected 500 "Failed to fetch shared email",
           set_console w' (console w' ++ ["Failed to fetch shared email by address:"]))
      end
  end.

End ByAddress.

(** ** The process route before the permanent record: unnamed/part_005

    The earlier version of the process route.  It dispatches on the
    status of the task and generates candidates as the current version
    does (its [while] loop, lines 117-141, is the loop of
    [Process.generate] word for word), counts what it inserts without
    keeping the addresses, and on a failure marks the ephemeral task only.
    It reads the surroundings of [Process.Env], less the permanent table
    and the size check. *)

Module ProcessKV.

(** The [for] loop of lines 147-153, with [rest], [k] and [fuel] as in
    [Process.insert_batches]. *)
Fixpoint insert_batches (env : Process.Env) (fuel k : nat) (rest : list Email.row)
    (created : Z) : M Z :=
  match fuel with
  | O => ret created
  | S fuel' =>
      match rest with
      | [] => ret created
      | _ :: _ =>
          let* batchResults :=
            emails_insert (Process.insert_rejects env k)
              (take Process.INSERT_BATCH_SIZE rest) in
          insert_batches env fuel' (S k) (drop Process.INSERT_BATCH_SIZE rest)
            (created + Z.of_nat (length batchResults))
      end
  end.

(** Lines 102-191: one chunk, for a task whose status is [processing] by
    now. *)
Definition process_chunk (env : Process.Env) (id : string) (task : BatchTask)
    : M Response :=
  let remaining := totalCount task - processedCount task in
  let toProcess := Z.min Process.PROCESS_BATCH_SIZE remaining in
  let maxAttempts := toProcess * 5 in
  let now := Process.now_generate env in
  let expires := if expiryTime task =? 0 then Process.never_expires
                 else now + expiryTime task in
  let* (emailDataList, attempts) :=
    Process.generate env task toProcess now expires (Z.to_nat maxAttempts) 0 [] ∅ in
  let* created :=
    insert_batches env (length emailDataList) 0 emailDataList 0 in
  let actualProcessed := Z.of_nat (length emailDataList) in
  let task := set_processedCount (processedCount task + actualProcessed) task in
  let task := set_createdCount (createdCount task + created) task in
  let task := set_updatedAt (Process.now_update env) task in
  let task :=
    if totalCount task <? processedCount task then
      set_processedCount (totalCount task) task
    else task in
  let task :=
    if totalCount task <=? processedCount task then
      set_status completed (set_processedCount (totalCount task) task)
    else task in
  let* _ := SITE_CONFIG_put (Process.put_rejects env) id task in
  ret (ProcessJson
         (Json.mkProcess (status task) (processedCount task) (totalCount task)
            (createdCount task)
            (RoundPercent (processedCount task) (totalCount task))
            None None
            (Some (processedCount task <? totalCount task)))).

(** Lines 32-191: the body of the outer [try]. *)
Definition body (env : Process.Env) (taskId : option string) : M Response :=
  match truthy taskId with
  | None => ret (ErrorJson 400 "任务ID不能为空")
  | Some id =>
      let* taskData := SITE_CONFIG_get (Process.get_rejects env) id in
      match taskData with
      | None => ret (ErrorJson 404 "任务不存在或已过期")
      | Some task =>
          if decide (status task = completed) then
            ret (ProcessJson
                   (Json.mkProcess completed (processedCount task) (totalCount task)
                      (createdCount task) (Percent 100) None
                      (Some "任务已完成") None))
          else if decide (status task = failed) then
            ret (ProcessJson
                   (Json.mkProcess failed (processedCount task) (totalCount task)
                      (createdCount task)
                      (RoundPercent (processedCount task) (totalCount task))
                      (error task) None None))
          else if (bool_decide (status task = processing)
                   && (processedCount task <? totalCount task))%bool then
            process_chunk env id task
          else if decide (status task = pending) then
            let task := set_updatedAt (Process.now_processing env)
                          (set_status processing task) in
            let* _ := SITE_CONFIG_put (Process.put_processing_rejects env) id task in
            process_chunk env id task
          else
            ret (ProcessJson
                   (Json.mkProcess (status task) (processedCount task)
                      (totalCount task) (createdCount task)
                      (RoundPercent (processedCount task) (totalCount task))
                      None
                      (Some (if decide (status task = completed)
                             then "任务已完成" else "任务已失败"))
                      None))
      end
  end.

(** Lines 192-221: the outer [catch]. *)
Definition on_error (env : Process.Env) (taskId : option string) (error : Thrown)
    : M Response :=
  let* _ := console_log "Failed to process batch task:" in
  let* _ :=
    try_catch
      (match truthy taskId with
       | Some id =>
           let* taskData := SITE_CONFIG_get (Process.handler_get_rejects env) id in
           match taskData with
           | Some task =>
               let task := set_status failed task in
               let task := set_error (Some (message_of error "处理失败")) task in
               let task := set_updatedAt (Process.now_failed env) task in
               SITE_CONFIG_put (Process.handler_put_rejects env) id task
           | None => ret tt
           end
       | None => ret tt
       end)
      (fun updateError => console_log "Failed to update task status:") in
  ret (ErrorJson 500 "处理批量任务失败").

Definition POST (env : Process.Env) (taskId : option string) (w : World) : Outcome :=
  run (body env taskId) (on_error env taskId) w.

End ProcessKV.

(** * Vocabulary of the properties *)

(** The lower-cased address of a row: the key of every collision check. *)
Definition lower_address (r : Email.row) : string := toLowerCase (Email.address r).

(** The row built from the [k]-th nanoid draw of a request (lines 120 and
    135-140). *)
Definition candidate (env : Process.Env) (task : BatchTask) (k : nat) : Email.row :=
  Email.mk (Process.nanoid env k +:+ "@" +:+ domain task)
    (Process.now_generate env)
    (if expiryTime task =? 0 then Process.never_expires
     else Process.now_generate env + expiryTime task)
    (userId task).

(** "At check time" an address is absent from the store when the
    case-insensitive lookup finds no row. *)
Definition absent_from_store (w : World) (addressLower : string) : Prop :=
  List.find (fun r => String.eqb (toLowerCase (Email.address r)) addressLower)
    (emails w) = None.

(** No generation collisions: the first [n] draws give addresses that are
    pairwise distinct and absent from the store, compared in lower case. *)
Definition no_collisions (env : Process.Env) (task : BatchTask) (n : nat)
    (w : World) : bool :=
  let drawn := map (fun k => lower_address (candidate env task k)) (seq 0 n) in
  bool_decide (NoDup drawn)
  && forallb (fun a => negb (bool_decide (a ∈ map lower_address (emails w)))) drawn.

(** What holds of the rows a call accepts: their lower-cased addresses are
    pairwise distinct, each was absent from the store when it was checked,
    and each row is the candidate of some draw. *)
Definition accepted_ok (env : Process.Env) (task : BatchTask) (w : World)
    (l : list Email.row) : Prop :=
  NoDup (map lower_address l) /\
  Forall (fun r => absent_from_store w (lower_address r) /\
                   exists k, r = candidate env task k) l.

(** No awaited store call of the request rejects. *)
Definition no_rejects (env : Process.Env) : Prop :=
  Process.get_rejects env = None /\
  Process.put_processing_rejects env = None /\
  (forall k, Process.findFirst_rejects env k = None) /\
  (forall k, Process.insert_rejects env k = None) /\
  Process.put_rejects env = None.

(** The chunk size of a call on [task] (lines 104-105). *)
Definition chunk_size (task : BatchTask) : Z :=
  Z.min Process.PROCESS_BATCH_SIZE (totalCount task - processedCount task).

(** The generation step of a call on [task], as [process_chunk] starts
    it. *)
Definition generation (env : Process.Env) (task : BatchTask)
    : M (list Email.row * nat) :=
  Process.generate env task (chunk_size task) (Process.now_generate env)
    (if expiryTime task =? 0 then Process.never_expires
     else Process.now_generate env + expiryTime task)
    (Z.to_nat (chunk_size task * 5)) 0 [] ∅.

(** The task a chunk leaves when the rows [accepted] were generated and
    inserted (lines 175-199). *)
Definition after_chunk (env : Process.Env) (task : BatchTask)
    (accepted : list Email.row) : BatchTask :=
  let n := Z.of_nat (length accepted) in
  let task1 :=
    set_updatedAt (Process.now_update env)
      (set_createdCount (createdCount task + n)
         (set_processedCount (processedCount task + n) task)) in
  let task2 :=
    if 0 <? n then
      set_emailList (Some (default [] (emailList task) ++ map Email.address accepted))
        task1
    else task1 in
  let task3 :=
    if totalCount task2 <? processedCount task2
    then set_processedCount (totalCount task2) task2 else task2 in
  if totalCount task3 <=? processedCount task3
  then set_status completed (set_processedCount (totalCount task3) task3)
  else task3.

(** The task the failure handler writes over the stored [task] (lines
    275-277). *)
Definition marked_failed (env : Process.Env) (e : Thrown) (task : BatchTask)
    : BatchTask :=
  set_updatedAt (Process.now_failed env)
    (set_error (Some (message_of e "处理失败")) (set_status failed task)).

(** The task written when a pending task is picked up (lines 82-83). *)
Definition marked_processing (env : Process.Env) (task : BatchTask) : BatchTask :=
  set_updatedAt (Process.now_processing env) (set_status processing task).

(** The 200 answer of a call that leaves [task] (lines 254-261). *)
Definition chunk_answer (task : BatchTask) : Response :=
  ProcessJson
    (Json.mkProcess (status task) (processedCount task) (totalCount task)
       (createdCount task)
       (RoundPercent (processedCount task) (totalCount task))
       None None (Some (processedCount task <? totalCount task))).

(** A chunk on [task] ran to its end from world [w]: it generated and
    inserted some rows, put the advanced task and answered with it. *)
Definition chunk_done (env : Process.Env) (id : string) (task : BatchTask)
    (w : World) (r : Response) (w' : World) : Prop :=
  exists l attempts,
    generation env task w = Ok (l, attempts) w /\
    r = chunk_answer (after_chunk env task l) /\
    kv w' = <[id := after_chunk env task l]> (kv w) /\
    kv_puts w' = kv_puts w ++ [(id, after_chunk env task l)] /\
    emails w' = emails w ++ l /\
    (status (after_chunk env task l) <> completed -> batchTasks w' = batchTasks w).

(** The world after the put of lines 86-90. *)
Definition picked_up (env : Process.Env) (id : string) (task : BatchTask)
    (w : World) : World :=
  set_kv w (<[id := marked_processing env task]> (kv w))
    (kv_puts w ++ [(id, marked_processing env task)]).

(** The generation, the insertion and the last put of a request go
    through. *)
Definition chunk_no_rejects (env : Process.Env) : Prop :=
  (forall k, Process.findFirst_rejects env k = None) /\
  (forall k, Process.insert_rejects env k = None) /\
  Process.put_rejects env = None.

(** The puts a call can make under the id of a stored [task]: none; the
    advanced task; the task marked failed; or the task marked processing,
    alone or followed by one of the two. *)
Inductive call_puts (env : Process.Env) (w : World) (task : BatchTask)
    : list BatchTask -> Prop :=
  | puts_none : call_puts env w task []
  | puts_chunk l :
      status task = processing ->
      accepted_ok env task w l ->
      Z.of_nat (length l) <= Z.max (chunk_size task) 0 ->
      call_puts env w task [after_chunk env task l]
  | puts_failed e :
      (Process.get_rejects env = None ->
       status task = processing \/ status task = pending) ->
      call_puts env w task [marked_failed env e task]
  | puts_picked :
      status task = pending ->
      call_puts env w task [marked_processing env task]
  | puts_picked_chunk l :
      status task = pending ->
      accepted_ok env task w l ->
      Z.of_nat (length l) <= Z.max (chunk_size task) 0 ->
      call_puts env w task
        [marked_processing env task;
         after_chunk env (marked_processing env task) l]
  | puts_picked_failed e :
      status task = pending ->
      call_puts env w task
        [marked_processing env task;
         marked_failed env e (marked_processing env task)].

(** The snapshot of the counters that every 200 answer of the process
    route carries. *)
Definition shows (r : Response) (task : BatchTask) : Prop :=
  exists b, r = ProcessJson b /\
    Json.status b = status task /\
    Json.processed b = processedCount task /\
    Json.total b = totalCount task /\
    Json.created b = createdCount task.

(** The counter invariant of section 8 of the specification. *)
Definition counters_ok (task : BatchTask) : Prop :=
  0 <= processedCount task <= totalCount task /\
  createdCount task <= processedCount task.

(** The address list of a task agrees with its [createdCount] and holds
    only addresses of the task's domain. *)
Definition list_ok (task : BatchTask) : Prop :=
  Z.of_nat (length (default [] (emailList task))) = createdCount task /\
  Forall (fun a => endsWith a ("@" +:+ domain task) = true)
    (default [] (emailList task)).

(** The tasks that a call put under [id], oldest first: what the call
    added to the trace of puts. *)
Definition puts_of_call (id : string) (before after : World) : list BatchTask :=
  map snd
    (List.filter (fun p => String.eqb (fst p) id)
       (drop (length (kv_puts before)) (kv_puts after))).

(** The status transitions the specification allows. *)
Inductive spec_transition : Status -> Status -> Prop :=
  | stay s : spec_transition s s
  | pick_up : spec_transition pending processing
  | finish : spec_transition processing completed
  | fail : spec_transition processing failed.

(** The transitions the handler makes when the task could be loaded: the
    ones above, and [pending] to [failed]. *)
Inductive code_transition : Status -> Status -> Prop :=
  | by_spec s s' : spec_transition s s' -> code_transition s s'
  | fail_before_pick_up : code_transition pending failed.

(** Every step of a sequence of statuses is in [R]. *)
Fixpoint chain (R : Status -> Status -> Prop) (s : Status) (l : list Status) : Prop :=
  match l with
  | [] => True
  | s' :: rest => R s s' /\ chain R s' rest
  end.

(** The three operations on a task that take a task id, with the
    environment each one runs in.  The process route never calls
    [getUserId]: the requester is not among the arguments of
    [Process.POST]. *)
Inductive Operation :=
  | status_read (env : Status.Env)
  | download (env : Download.Env)
  | advance (env : Process.Env).

Definition perform (op : Operation) (requester : option string) (id : string)
    (w : World) : Outcome :=
  match op with
  | status_read env => Status.GET env requester id w
  | download env => Download.GET env requester id w
  | advance env => Process.POST env (Some id) w
  end.

(** A request to the create route that passes the checks on expiry time,
    domain and quota (lines 56-96). *)
Definition passes_checks (env : Create.Env) (userId' : string)
    (userRole : Create.Role) (req : Create.Body) (w : World) : bool :=
  existsb (fun option => option =? Create.expiryTime req) (Create.EXPIRY_OPTIONS env)
  && existsb (String.eqb (Create.domain req))
       (Create.domains_of (Create.EMAIL_DOMAINS env))
  && match userRole with
     | Create.EMPEROR => true
     | Create.other_role _ =>
         negb (Create.over_quota
                 (Z.of_nat
                    (length
                       (List.filter
                          (fun r => (String.eqb (Email.userId r) userId'
                                     && (Create.now_quota env <? Email.expiresAt r))%bool)
                          (emails w))))
                 (Create.batchCount_of (Create.batch req)) (Create.maxCount env))
     end.

(** No awaited call of the create request rejects. *)
Definition create_no_rejects (env : Create.Env) : Prop :=
  Create.json_rejects env = None /\
  Create.domains_rejects env = None /\
  Create.max_rejects env = None /\
  Create.count_rejects env = None /\
  Create.put_rejects env = None.


(** A sequence of calls on the same task id, one environment per call. *)
Definition advance_many (envs : list Process.Env) (id : string) (w : World) : World :=
  foldl (fun w env => snd (Process.POST env (Some id) w)) w envs.

(** The answers of a sequence of calls on the same task id. *)
Fixpoint answers_many (envs : list Process.Env) (id : string) (w : World)
    : list Response :=
  match envs with
  | [] => []
  | env :: rest =>
      fst (Process.POST env (Some id) w)
      :: answers_many rest id (snd (Process.POST env (Some id) w))
  end.

(** The task and the world a call generates for: a pending task has been
    marked processing and put back by then (lines 80-90). *)
Definition generation_task (env : Process.Env) (task : BatchTask) : BatchTask :=
  if decide (status task = pending) then marked_processing env task else task.

Definition generation_world (env : Process.Env) (id : string) (task : BatchTask)
    (w : World) : World :=
  if decide (status task = pending) then picked_up env id task w else w.

(** A task the process route works on: pending, or processing with
    addresses left to make (lines 78-80). *)
Definition workable (task : BatchTask) : Prop :=
  status task = pending \/
  (status task = processing /\ processedCount task < totalCount task).

(** A call on [task] in world [w] would accept no candidate: every
    attempt of its budget collides. *)
Definition accepts_none (env : Process.Env) (task : BatchTask) (w : World) : bool :=
  match generation env task w with
  | Ok ([], _) _ => true
  | _ => false
  end.

(** The rows the fallback of the download route reads for a permanent
    record and a requester (lines 369-376). *)
Definition fallback_rows (w : World) (requester : string) (record : History.row)
    : list Email.row :=
  Download.sql_limit (History.totalCount record * 2)
    (Download.order_by_createdAt
       (List.filter
          (fun r => (String.eqb (Email.userId r) requester
                     && (History.createdAt record <=? Email.createdAt r))%bool)
          (emails w))).

(** No awaited store call of a download rejects. *)
Definition download_no_rejects (env : Download.Env) : Prop :=
  Download.get_rejects env = None /\
  Download.history_find_rejects env = None /\
  Download.emails_find_rejects env = None.

(** ** The three claims that the code does not meet, in the words of the
    specification *)

(** "All reads/writes MUST be scoped to [ownerId]", at one request: a
    requester who is not the owner is answered 403 and the stored tasks
    are left alone. *)
Definition owner_scoped (op : Operation) (requester : option string) (id : string)
    (w : World) : Prop :=
  forall t u,
    kv w !! id = Some t -> truthy requester = Some u -> u <> userId t ->
    http_status (fst (perform op requester id w)) = 403 /\
    kv (snd (perform op requester id w)) = kv w.

(** "Status transitions only follow pending -> processing -> {completed,
    failed}", at one call. *)
Definition follows_spec_transitions (env : Process.Env) (id : string) (w : World)
    : Prop :=
  forall t,
    kv w !! id = Some t ->
    chain spec_transition (status t)
      (map status (puts_of_call id w (snd (Process.POST env (Some id) w)))).

(** "Rejects exactly when totalCount is below the threshold of 50, and
    creates a pending task for every valid request at or above it", at
    one request. *)
Definition rejects_below_threshold (env : Create.Env) (session : option string)
    (userRole : Create.Role) (req : Create.Body) (w : World) : Prop :=
  forall u,
    truthy session = Some u -> create_no_rejects env ->
    passes_checks env u userRole req w = true ->
    (http_status (fst (Create.POST env session userRole req w)) = 400 <->
     Create.batchCount_of (Create.batch req) < 50) /\
    (50 <= Create.batchCount_of (Create.batch req) ->
     exists id message t,
       fst (Create.POST env session userRole req w) = CreatedJson id pending message /\
       kv (snd (Create.POST env session userRole req w)) !! id = Some t /\
       status t = pending).

(** ** What a handler leaves alone *)

(** The world a computation stops in, whether it returns or throws. *)
Definition final_world {A} (r : Result A) : World :=
  match r with
  | Ok _ w => w
  | Throw _ w => w
  end.

(** [c] keeps the relation [R] between the world it starts in and the
    world it stops in, and a value it returns satisfies [Post]. *)
Definition keeps (R : World -> World -> Prop) {A} (c : M A) (Post : A -> Prop)
    : Prop :=
  forall w, R w (final_world (c w)) /\ forall a w', c w = Ok a w' -> Post a.

(** The writes of the process route on task [id]: console lines, puts
    under [id], inserts of rows that satisfy [Q], and an insert or an
    update of the permanent row [id].  A relation between worlds that is
    closed under these, reflexive and transitive, holds between the world
    before a call and the world after it ([POST_footprint] below). *)
Record footprint (id : string) (Q : Email.row -> Prop)
    (R : World -> World -> Prop) : Prop := mkFootprint {
  fp_refl : forall w, R w w;
  fp_trans : forall a b c, R a b -> R b c -> R a c;
  fp_console : forall w l, R w (set_console w l);
  fp_put : forall w t tr, R w (set_kv w (<[id := t]> (kv w)) tr);
  fp_insert : forall w batch, Forall Q batch -> R w (set_emails w (emails w ++ batch));
  fp_record_insert : forall w r, R w (set_batchTasks w (<[id := r]> (batchTasks w)));
  fp_record_update : forall w f, R w (set_batchTasks w (alter f id (batchTasks w)))
}.

(** Tasks and permanent rows under every other id are as they were, and
    the address table has only grown at its end. *)
Definition elsewhere_unchanged (id : string) (w w' : World) : Prop :=
  (forall id', id' <> id ->
     kv w' !! id' = kv w !! id' /\ batchTasks w' !! id' = batchTasks w !! id') /\
  exists l, emails w' = emails w ++ l.

(** The address table has grown at its end by rows that satisfy [Q]. *)
Definition appended (Q : Email.row -> Prop) (w w' : World) : Prop :=
  exists l, emails w' = emails w ++ l /\ Forall Q l.

(** A row as a request of the process route makes it for [task] (lines
    113-116 and 135-140): the task's owner, an address of the task's
    domain, created at the request's clock reading, expiring never or
    [expiryTime] later. *)
Definition task_row (env : Process.Env) (task : BatchTask) (r : Email.row) : Prop :=
  Email.userId r = userId task /\
  endsWith (Email.address r) ("@" +:+ domain task) = true /\
  Email.createdAt r = Process.now_generate env /\
  Email.expiresAt r = (if expiryTime task =? 0 then Process.never_expires
                       else Process.now_generate env + expiryTime task).

(** The permanent row of a task that a call has completed (lines
    204-227): a row that is there is updated in three columns, a missing
    one is inserted. *)
Definition completed_record (env : Process.Env) (task : BatchTask)
    (old : option History.row) : History.row :=
  match old with
  | Some r =>
      History.mk (History.userId r) (History.domain r) (History.totalCount r)
        (createdCount task) completed (History.error r) (History.createdAt r)
        (Some (Process.now_completed env))
  | None =>
      History.mk (userId task) (domain task) (totalCount task)
        (createdCount task) completed None (createdAt task)
        (Some (Process.now_completed env))
  end.

(** The error that the [catch] around the insertion loop throws on
    (lines 168-172). *)
Definition insert_failure (e : Thrown) : Thrown :=
  ErrorObj ("邮箱插入失败: " +:+ message_of e "未知错误").

(** ** The create route and the dialog *)

(** The rows of [userId'] that have not expired at [now']: what the quota
    check counts (lines 77-87 of the create route). *)
Definition active_count (w : World) (userId' : string) (now' : Z) : Z :=
  Z.of_nat
    (length
       (List.filter
          (fun r => (String.eqb (Email.userId r) userId'
                     && (now' <? Email.expiresAt r))%bool)
          (emails w))).

(** The task the create route stores (lines 103-114). *)
Definition new_task (env : Create.Env) (userId' : string) (req : Create.Body)
    : BatchTask :=
  mkBatchTask (Create.nanoid16 env) userId' (Create.domain req)
    (Create.expiryTime req) (Create.batchCount_of (Create.batch req))
    0 0 pending None (Create.now env) (Create.now env) None.

(** The answers of the create route other than the new task. *)
Definition is_refusal (r : Response) : Prop :=
  http_status r = 400 \/ http_status r = 401 \/ http_status r = 403 \/
  http_status r = 500.

(** A task as the create route stores it and the process route keeps it:
    a positive total, nothing processed while pending, and work left
    while processing. *)
Definition in_protocol (t : BatchTask) : Prop :=
  0 < totalCount t /\
  (status t = pending -> processedCount t = 0) /\
  (status t = processing -> processedCount t < totalCount t).

(** The answer of the status route for [t] (lines 56-66). *)
Definition status_answer (t : BatchTask) : Json.task_status :=
  Json.mkStatus (taskId t) (status t) (totalCount t) (processedCount t)
    (createdCount t) (RoundPercent (processedCount t) (totalCount t))
    (error t) (createdAt t) (updatedAt t).

(** ** The synchronous route *)

(** The generation loop of the synchronous route is the loop of the
    process route, run for the request instead of a stored task: the
    environment and the task under which the two coincide
    ([Sync_generate_eq] below).  Only the draws, the clock reading of the
    rows and the rejections of the lookups and inserts matter. *)
Definition as_process_env (env : Sync.Env) : Process.Env :=
  {| Process.nanoid := Sync.nanoid env;
     Process.now_processing := Sync.now env;
     Process.now_generate := Sync.now env;
     Process.now_update := Sync.now env;
     Process.now_completed := Sync.now_completed env;
     Process.now_failed := Sync.now env;
     Process.now_failed_record := Sync.now env;
     Process.size_over_20MB := false;
     Process.get_rejects := None;
     Process.put_processing_rejects := None;
     Process.findFirst_rejects := Sync.findFirst_rejects env;
     Process.insert_rejects := Sync.insert_rejects env;
     Process.history_find_rejects := None;
     Process.history_write_rejects := Sync.history_insert_rejects env;
     Process.put_rejects := None;
     Process.handler_get_rejects := None;
     Process.handler_put_rejects := None;
     Process.handler_history_find_rejects := None;
     Process.handler_history_write_rejects := None |}.

Definition as_task (env : Sync.Env) (userId' : string) (req : Sync.Body) : BatchTask :=
  {| taskId := Sync.nanoid16 env; userId := userId'; domain := Sync.domain req;
     expiryTime := Sync.expiryTime req;
     totalCount := Create.batchCount_of (Sync.batch req);
     processedCount := 0; createdCount := 0; status := processing; error := None;
     createdAt := Sync.now env; updatedAt := Sync.now env; emailList := None |}.

(** The body of a request as the create route reads it. *)
Definition as_create_body (req : Sync.Body) : Create.Body :=
  {| Create.expiryTime := Sync.expiryTime req; Create.domain := Sync.domain req;
     Create.batch := Sync.batch req |}.

(** A row as the synchronous route makes it for [userId'] (lines 675-678
    and 707-712). *)
Definition sync_row (env : Sync.Env) (userId' : string) (req : Sync.Body)
    (r : Email.row) : Prop :=
  Email.userId r = userId' /\
  endsWith (Email.address r) ("@" +:+ Sync.domain req) = true /\
  Email.createdAt r = Sync.now env /\
  Email.expiresAt r = (if Sync.expiryTime req =? 0 then Process.never_expires
                       else Sync.now env + Sync.expiryTime req).

(** The permanent row of a synchronous batch of [n] addresses (lines
    739-748). *)
Definition sync_record (env : Sync.Env) (userId' : string) (req : Sync.Body) (n : Z)
    : History.row :=
  History.mk userId' (Sync.domain req) n n completed None (Sync.now env)
    (Some (Sync.now_completed env)).

(** The awaited calls before the branch on the batch size go through. *)
Definition sync_checks_run (env : Sync.Env) : Prop :=
  Sync.json_rejects env = None /\
  Sync.max_rejects env = None /\
  Sync.count_rejects env = None /\
  Sync.domains_rejects env = None.

(** A request to the synchronous route that is within quota. *)
Definition sync_within_quota (env : Sync.Env) (userId' : string)
    (userRole : Create.Role) (req : Sync.Body) (w : World) : bool :=
  match userRole with
  | Create.EMPEROR => true
  | Create.other_role _ =>
      negb (Create.over_quota (active_count w userId' (Sync.now_quota env))
              (Create.batchCount_of (Sync.batch req)) (Sync.maxCount env))
  end.

(** A request to the synchronous route with an allowed expiry time and
    an allowed domain. *)
Definition sync_valid (env : Sync.Env) (req : Sync.Body) : bool :=
  existsb (fun option => option =? Sync.expiryTime req) (Sync.EXPIRY_OPTIONS env)
  && existsb (String.eqb (Sync.domain req))
       (Create.domains_of (Sync.EMAIL_DOMAINS env)).

(** The two refusals for the size of a batch. *)
Definition size_refusal : Sync.Answer :=
  Sync.Rejected 400 "批量创建数量必须在 1-50 之间".

Definition redirect : Response :=
  ErrorJson 400 "请使用 /api/emails/generate 接口进行小批量创建（≤50）".

(** The address a single creation asks for (line 759). *)
Definition single_address (env : Sync.Env) (req : Sync.Body) : string :=
  match truthy (Sync.name req) with
  | Some n => n
  | None => Sync.nanoid env 0
  end +:+ "@" +:+ Sync.domain req.

(** ** The history of batches *)

(** Time stamps in which each is at least as late as all that follow. *)
Fixpoint newest_first (l : list Z) : Prop :=
  match l with
  | [] => True
  | x :: rest => Forall (fun y => y <= x) rest /\ newest_first rest
  end.

(** All the batches of [userId'], newest first, as the history route
    lists them. *)
Definition history_of (userId' : string) (w : World) : list HistoryList.item :=
  map HistoryList.to_item (HistoryList.order_newest_first (HistoryList.rows_of userId' w)).

(** No awaited call of a history request rejects. *)
Definition history_no_rejects (env : HistoryList.Env) : Prop :=
  HistoryList.findMany_rejects env = None /\ HistoryList.count_rejects env = None.

(** ** Configured domains *)

(** [!s.includes(",")] *)
Fixpoint comma_free (s : string) : bool :=
  match s with
  | EmptyString => true
  | String c r => negb (Ascii.eqb c ","%char) && comma_free r
  end.

(** [l.join(",")] *)
Definition join_commas (l : list string) : string := String.concat "," l.

(** Two tasks agree in everything but the address list and the error
    text. *)
Definition same_progress (a b : BatchTask) : Prop :=
  set_error None (set_emailList None a) = set_error None (set_emailList None b).

(** Two stores hold tasks under the same keys, and the tasks under a key
    agree in everything but the address list and the error text. *)
Definition same_progress_everywhere (m1 m2 : gmap string BatchTask) : Prop :=
  forall k, option_Forall2 same_progress (m1 !! k) (m2 !! k).

(** Every task of [after] has the address list the task under its key had
    in [before]. *)
Definition address_lists_untouched (before after : gmap string BatchTask) : Prop :=
  forall k t, after !! k = Some t ->
    exists t0, before !! k = Some t0 /\ emailList t = emailList t0.

(** The outcomes of one chunk under the earlier and under the current
    version of the process route, started on [task] in the worlds [wo] and
    [wn]: they end the same way, with the same answer and the same address
    rows, and the tasks they put agree in everything but the address
    list, which the earlier version leaves as it was. *)
Definition chunk_agrees (id : string) (task : BatchTask) (wo wn : World)
    (earlier current : Result Response) : Prop :=
  match earlier, current with
  | Ok ro wo', Ok rn wn' =>
      ro = rn /\ emails wo' = emails wn' /\ batchTasks wo' = batchTasks wo /\
      exists to tn, same_progress to tn /\ emailList to = emailList task /\
        kv wo' = <[id := to]> (kv wo) /\ kv wn' = <[id := tn]> (kv wn)
  | Throw _ wo', Throw _ wn' =>
      emails wo' = emails wn' /\ batchTasks wo' = batchTasks wo /\
      kv wo' = kv wo /\ kv wn' = kv wn
  | _, _ => False
  end.

(** The counters of a task after a chunk that generated [n] rows and
    inserted [created] of them (lines 178-181). *)
Definition counted (env : Process.Env) (task : BatchTask) (n created : Z)
    : BatchTask :=
  let task := set_processedCount (processedCount task + n) task in
  let task := set_createdCount (createdCount task + created) task in
  set_updatedAt (Process.now_update env) task.

(** Lines 183-189: the inserted addresses join the list of the task. *)
Definition listed (createdAddresses : list string) (task : BatchTask) : BatchTask :=
  if 0 <? Z.of_nat (length createdAddresses) then
    set_emailList (Some (default [] (emailList task) ++ createdAddresses)) task
  else task.

(** Lines 191-194: [processedCount] never exceeds [totalCount]. *)
Definition clamped (task : BatchTask) : BatchTask :=
  if totalCount task <? processedCount task then
    set_processedCount (totalCount task) task
  else task.

(** Lines 198-199 *)
Definition completed_task (task : BatchTask) : BatchTask :=
  set_status completed (set_processedCount (totalCount task) task).

(** What the earlier version of the process route does after its
    insertion loop (unnamed/part_005, lines 158-191), for the rows
    [emailDataList] it generated and the number [created] it inserted. *)
Definition earlier_chunk_end (env : Process.Env) (id : string) (task : BatchTask)
    (emailDataList : list Email.row) (created : Z) : M Response :=
  let task := clamped (counted env task (Z.of_nat (length emailDataList)) created) in
  let task :=
    if totalCount task <=? processedCount task then completed_task task else task in
  let* _ := SITE_CONFIG_put (Process.put_rejects env) id task in
  ret (chunk_answer task).

(** What the current version does after its insertion loop (lines
    175-261 of the process route). *)
Definition chunk_end (env : Process.Env) (id : string) (task : BatchTask)
    (emailDataList : list Email.row) (created : Z) (createdAddresses : list string)
    : M Response :=
  let task :=
    clamped (listed createdAddresses
               (counted env task (Z.of_nat (length emailDataList)) created)) in
  let* task :=
    (if totalCount task <=? processedCount task then
       let* _ := Process.save_completed env id (completed_task task) in
       ret (completed_task task)
     else ret task) in
  let* _ :=
    (if Process.size_over_20MB env
     then console_log "Task size is close to KV limit (25MB)"
     else ret tt) in
  let* _ := SITE_CONFIG_put (Process.put_rejects env) id task in
  ret (chunk_answer task).

(** The insertion step of the current version (lines 159-173). *)
Definition insertion (env : Process.Env) (emailDataList : list Email.row)
    : M (Z * list string) :=
  if 0 <? Z.of_nat (length emailDataList) then
    try_catch
      (Process.insert_batches env (length emailDataList) 0 emailDataList 0 [])
      (fun insertError =>
         let* _ := console_log "Failed to insert emails:" in
         throw (ErrorObj ("邮箱插入失败: " +:+ message_of insertError "未知错误")))
  else ret (0, []).

(** The warning of the current version when no candidate was accepted
    within the budget (lines 145-149). *)
Definition warning (task : BatchTask) (emailDataList : list Email.row)
    (attempts : nat) : M unit :=
  if ((Z.of_nat (length emailDataList) =? 0)
      && (chunk_size task * 5 <=? Z.of_nat attempts))%bool
  then console_log "Failed to generate any unique email addresses"
  else ret tt.

(** The outcomes of the bodies of the two versions of the process route,
    both started in [w]. *)
Definition body_agrees (w : World) (earlier current : Result Response) : Prop :=
  match earlier, current with
  | Ok ro wo, Ok rn wn =>
      ro = rn /\ emails wo = emails wn /\ batchTasks wo = batchTasks w /\
      same_progress_everywhere (kv wo) (kv wn) /\
      address_lists_untouched (kv w) (kv wo)
  | Throw _ wo, Throw _ wn =>
      emails wo = emails wn /\ batchTasks wo = batchTasks w /\
      kv wo = kv wn /\ address_lists_untouched (kv w) (kv wo)
  | _, _ => False
  end.

(** The world after a series of calls of the earlier version of the
    process route, each with its surroundings and its [taskId]. *)
Definition earlier_calls (calls : list (Process.Env * option string)) (w : World)
    : World :=
  foldl (fun w c => snd (ProcessKV.POST (fst c) (snd c) w)) w calls.

(** The characters of [s] are all ASCII.  On such a string JavaScript's
    [toLowerCase] folds the letters A-Z and nothing else, as SQLite's
    [LOWER] does on every string; on other strings the two differ, and
    [toLowerCase] above is SQLite's. *)
Fixpoint is_ascii (s : string) : bool :=
  match s with
  | EmptyString => true
  | String c r => (nat_of_ascii c <? 128)%nat && is_ascii r
  end.




(** [content] is the entries of [l] joined by newlines: nothing for no
    entry, the entry itself for one, and otherwise the first entry, a
    newline and the rest joined. *)
Inductive newline_joined : list string -> string -> Prop :=
  | joined_none : newline_joined [] EmptyString
  | joined_one a : newline_joined [a] a
  | joined_more a b l rest :
      newline_joined (b :: l) rest ->
      newline_joined (a :: b :: l) (a +:+ newline +:+ rest).

(** Time stamps in which each is at most as late as all that follow. *)
Fixpoint oldest_first (l : list Z) : Prop :=
  match l with
  | [] => True
  | x :: rest => Forall (fun y => x <= y) rest /\ oldest_first rest
  end.

(** * Concrete scenarios *)

(** Draws for the examples: ["u0"], ["u1"], ... from [off] on. *)
Definition sample_ids (off i : nat) : string := "u" +:+ pretty (off + i)%nat.

(** An environment in which no store call rejects. *)
Definition quiet_env (off : nat) : Process.Env :=
  {| Process.nanoid := sample_ids off;
     Process.now_processing := 10;
     Process.now_generate := 11;
     Process.now_update := 12;
     Process.now_completed := 13;
     Process.now_failed := 14;
     Process.now_failed_record := 15;
     Process.size_over_20MB := false;
     Process.get_rejects := None;
     Process.put_processing_rejects := None;
     Process.findFirst_rejects := fun _ => None;
     Process.insert_rejects := fun _ => None;
     Process.history_find_rejects := None;
     Process.history_write_rejects := None;
     Process.put_rejects := None;
     Process.handler_get_rejects := None;
     Process.handler_put_rejects := None;
     Process.handler_history_find_rejects := None;
     Process.handler_history_write_rejects := None |}.

(** A task as the create route stores it, for 250 addresses. *)
Definition sample_task : BatchTask :=
  {| taskId := "T"; userId := "alice"; domain := "moemail.app"; expiryTime := 0;
     totalCount := 250; processedCount := 0; createdCount := 0;
     status := pending; error := None; createdAt := 1; updatedAt := 1;
     emailList := None |}.

Definition sample_world : World :=
  {| kv := {[ "T" := sample_task ]}; emails := []; batchTasks := ∅;
     console := []; kv_puts := [] |}.

(** A completed task the way three calls leave [sample_task], with two of
    its addresses shown. *)
Definition done_task : BatchTask :=
  {| taskId := "D"; userId := "alice"; domain := "moemail.app"; expiryTime := 0;
     totalCount := 60; processedCount := 60; createdCount := 60;
     status := completed; error := None; createdAt := 1; updatedAt := 12;
     emailList := Some ["u0@moemail.app"; "u1@moemail.app"] |}.

Definition done_world : World :=
  {| kv := {[ "D" := done_task ]}; emails := []; batchTasks := ∅;
     console := []; kv_puts := [] |}.

(** A processing task with a chunk of 3 left, in a store that already
    holds the one address the environment [echo_env] keeps drawing. *)
Definition stuck_task : BatchTask :=
  {| taskId := "S"; userId := "alice"; domain := "moemail.app"; expiryTime := 0;
     totalCount := 60; processedCount := 57; createdCount := 57;
     status := processing; error := None; createdAt := 1; updatedAt := 12;
     emailList := None |}.

Definition stuck_world : World :=
  {| kv := {[ "S" := stuck_task ]};
     emails := [Email.mk "Dup@moemail.app" 5 9 "bob"];
     batchTasks := ∅; console := []; kv_puts := [] |}.

Definition echo_env (now' : Z) : Process.Env :=
  {| Process.nanoid := fun _ => "dup";
     Process.now_processing := 10;
     Process.now_generate := 11;
     Process.now_update := now';
     Process.now_completed := 13;
     Process.now_failed := 14;
     Process.now_failed_record := 15;
     Process.size_over_20MB := false;
     Process.get_rejects := None;
     Process.put_processing_rejects := None;
     Process.findFirst_rejects := fun _ => None;
     Process.insert_rejects := fun _ => None;
     Process.history_find_rejects := None;
     Process.history_write_rejects := None;
     Process.put_rejects := None;
     Process.handler_get_rejects := None;
     Process.handler_put_rejects := None;
     Process.handler_history_find_rejects := None;
     Process.handler_history_write_rejects := None |}.

(** Draws that collide: ["a"], then ["A"] (the same address in lower
    case), then ["dup"] for ever (stored already in [stuck_world]). *)
Definition colliding_env : Process.Env :=
  {| Process.nanoid := fun k => match k with O => "a" | S O => "A" | _ => "dup" end;
     Process.now_processing := 10;
     Process.now_generate := 11;
     Process.now_update := 12;
     Process.now_completed := 13;
     Process.now_failed := 14;
     Process.now_failed_record := 15;
     Process.size_over_20MB := false;
     Process.get_rejects := None;
     Process.put_processing_rejects := None;
     Process.findFirst_rejects := fun _ => None;
     Process.insert_rejects := fun _ => None;
     Process.history_find_rejects := None;
     Process.history_write_rejects := None;
     Process.put_rejects := None;
     Process.handler_get_rejects := None;
     Process.handler_put_rejects := None;
     Process.handler_history_find_rejects := None;
     Process.handler_history_write_rejects := None |}.

(** An environment whose inserts into the address table reject. *)
Definition insert_failing_env : Process.Env :=
  {| Process.nanoid := sample_ids 0;
     Process.now_processing := 10;
     Process.now_generate := 11;
     Process.now_update := 12;
     Process.now_completed := 13;
     Process.now_failed := 14;
     Process.now_failed_record := 15;
     Process.size_over_20MB := false;
     Process.get_rejects := None;
     Process.put_processing_rejects := None;
     Process.findFirst_rejects := fun _ => None;
     Process.insert_rejects := fun _ => Some (ErrorObj "D1_ERROR");
     Process.history_find_rejects := None;
     Process.history_write_rejects := None;
     Process.put_rejects := None;
     Process.handler_get_rejects := None;
     Process.handler_put_rejects := None;
     Process.handler_history_find_rejects := None;
     Process.handler_history_write_rejects := None |}.


(** An environment in which the put of the processing mark rejects. *)
Definition put_failing_env : Process.Env :=
  {| Process.nanoid := sample_ids 0;
     Process.now_processing := 10;
     Process.now_generate := 11;
     Process.now_update := 12;
     Process.now_completed := 13;
     Process.now_failed := 14;
     Process.now_failed_record := 15;
     Process.size_over_20MB := false;
     Process.get_rejects := None;
     Process.put_processing_rejects := Some (ErrorObj "KV put failed");
     Process.findFirst_rejects := fun _ => None;
     Process.insert_rejects := fun _ => None;
     Process.history_find_rejects := None;
     Process.history_write_rejects := None;
     Process.put_rejects := None;
     Process.handler_get_rejects := None;
     Process.handler_put_rejects := None;
     Process.handler_history_find_rejects := None;
     Process.handler_history_write_rejects := None |}.

(** An environment in which the first read of the task rejects. *)
Definition read_failing_env : Process.Env :=
  {| Process.nanoid := sample_ids 0;
     Process.now_processing := 10;
     Process.now_generate := 11;
     Process.now_update := 12;
     Process.now_completed := 13;
     Process.now_failed := 14;
     Process.now_failed_record := 15;
     Process.size_over_20MB := false;
     Process.get_rejects := Some (ErrorObj "KV get failed");
     Process.put_processing_rejects := None;
     Process.findFirst_rejects := fun _ => None;
     Process.insert_rejects := fun _ => None;
     Process.history_find_rejects := None;
     Process.history_write_rejects := None;
     Process.put_rejects := None;
     Process.handler_get_rejects := None;
     Process.handler_put_rejects := None;
     Process.handler_history_find_rejects := None;
     Process.handler_history_write_rejects := None |}.

(** A create request for exactly 50 addresses by the privileged role, in
    a configuration that allows its expiry time and its domain. *)
Definition create_env : Create.Env :=
  {| Create.EXPIRY_OPTIONS := [0; 3600000];
     Create.EMAIL_DOMAINS := None;
     Create.maxCount := Some 20;
     Create.nanoid16 := "T";
     Create.now_quota := 5;
     Create.now := 7;
     Create.json_rejects := None;
     Create.domains_rejects := None;
     Create.max_rejects := None;
     Create.count_rejects := None;
     Create.put_rejects := None |}.

Definition request_50 : Create.Body :=
  {| Create.expiryTime := 0; Create.domain := "moemail.app"; Create.batch := Some 50 |}.

Definition request_51 : Create.Body :=
  {| Create.expiryTime := 0; Create.domain := "moemail.app"; Create.batch := Some 51 |}.

Definition empty_world : World :=
  {| kv := ∅; emails := []; batchTasks := ∅; console := []; kv_puts := [] |}.

(** A completed task with three created addresses, still in the
    ephemeral store. *)
Definition three_task : BatchTask :=
  {| taskId := "D3"; userId := "alice"; domain := "moemail.app"; expiryTime := 0;
     totalCount := 3; processedCount := 3; createdCount := 3;
     status := completed; error := None; createdAt := 1; updatedAt := 12;
     emailList := Some ["u0@moemail.app"; "u1@moemail.app"; "u2@moemail.app"] |}.

Definition three_world : World :=
  {| kv := {[ "D3" := three_task ]}; emails := []; batchTasks := ∅;
     console := []; kv_puts := [] |}.

(** Two tasks side by side: [sample_task] under "T" and [stuck_task]
    under "S". *)
Definition two_task_world : World :=
  {| kv := {[ "T" := sample_task; "S" := stuck_task ]};
     emails := [Email.mk "Dup@moemail.app" 5 9 "bob"];
     batchTasks := ∅; console := []; kv_puts := [] |}.

(** An environment whose second insert into the address table rejects. *)
Definition second_insert_failing_env : Process.Env :=
  {| Process.nanoid := sample_ids 0;
     Process.now_processing := 10;
     Process.now_generate := 11;
     Process.now_update := 12;
     Process.now_completed := 13;
     Process.now_failed := 14;
     Process.now_failed_record := 15;
     Process.size_over_20MB := false;
     Process.get_rejects := None;
     Process.put_processing_rejects := None;
     Process.findFirst_rejects := fun _ => None;
     Process.insert_rejects :=
       fun k => match k with 1%nat => Some (ErrorObj "D1_ERROR") | _ => None end;
     Process.history_find_rejects := None;
     Process.history_write_rejects := None;
     Process.put_rejects := None;
     Process.handler_get_rejects := None;
     Process.handler_put_rejects := None;
     Process.handler_history_find_rejects := None;
     Process.handler_history_write_rejects := None |}.

(** The quota scenario: alice holds 48 live addresses, the ceiling is 50. *)
Definition crowded_world : World :=
  {| kv := ∅;
     emails := map (fun k => Email.mk (sample_ids 0 k +:+ "@moemail.app") 1
                               Process.never_expires "alice") (seq 0 48);
     batchTasks := ∅; console := []; kv_puts := [] |}.

Definition quota_env : Create.Env :=
  {| Create.EXPIRY_OPTIONS := [0; 3600000];
     Create.EMAIL_DOMAINS := None;
     Create.maxCount := Some 50;
     Create.nanoid16 := "T";
     Create.now_quota := 5;
     Create.now := 7;
     Create.json_rejects := None;
     Create.domains_rejects := None;
     Create.max_rejects := None;
     Create.count_rejects := None;
     Create.put_rejects := None |}.

Definition request_5 : Create.Body :=
  {| Create.expiryTime := 0; Create.domain := "moemail.app"; Create.batch := Some 5 |}.

(** A request of three addresses to the synchronous route, and one for a
    single named address. *)
Definition sync_env : Sync.Env :=
  {| Sync.EXPIRY_OPTIONS := [0; 3600000];
     Sync.EMAIL_DOMAINS := None;
     Sync.maxCount := Some 20;
     Sync.nanoid := sample_ids 0;
     Sync.nanoid16 := "B";
     Sync.row_id := "row-1";
     Sync.now_quota := 20;
     Sync.now := 21;
     Sync.now_completed := 22;
     Sync.json_rejects := None;
     Sync.max_rejects := None;
     Sync.count_rejects := None;
     Sync.domains_rejects := None;
     Sync.findFirst_rejects := fun _ => None;
     Sync.insert_rejects := fun _ => None;
     Sync.history_insert_rejects := None |}.

Definition sync_request_3 : Sync.Body :=
  {| Sync.name := None; Sync.expiryTime := 3600000; Sync.domain := "moemail.app";
     Sync.batch := Some 3 |}.

Definition sync_request_dup : Sync.Body :=
  {| Sync.name := Some "dup"; Sync.expiryTime := 0; Sync.domain := "moemail.app";
     Sync.batch := None |}.

Definition sync_request_60 : Sync.Body :=
  {| Sync.name := None; Sync.expiryTime := 0; Sync.domain := "moemail.app";
     Sync.batch := Some 60 |}.

(** A batch_task table with three rows of alice and one of bob. *)
Definition history_world : World :=
  {| kv := ∅; emails := [];
     batchTasks :=
       {[ "b1" := History.mk "alice" "moemail.app" 60 60 completed None 100 (Some 130);
          "b2" := History.mk "alice" "moemail.app" 80 20 failed (Some "D1_ERROR") 300
                    (Some 310);
          "b3" := History.mk "bob" "moemail.app" 70 70 completed None 200 (Some 260);
          "b4" := History.mk "alice" "moemail.app" 3 3 completed None 200 (Some 201) ]};
     console := []; kv_puts := [] |}.

(** The world after the ephemeral copy of [three_task] has expired: its
    permanent record is left, and the address table holds its three rows
    among an older row of alice, two later rows of hers (one in another
    domain) and a row of bob. *)
Definition expired_world : World :=
  {| kv := ∅;
     emails := [Email.mk "old@moemail.app" 0 99 "alice";
                Email.mk "u0@moemail.app" 11 99 "alice";
                Email.mk "b0@moemail.app" 11 99 "bob";
                Email.mk "u1@moemail.app" 11 99 "alice";
                Email.mk "later@other.org" 12 99 "alice";
                Email.mk "extra@moemail.app" 12 99 "alice";
                Email.mk "u2@moemail.app" 11 99 "alice"];
     batchTasks := {[ "D3" := History.mk "alice" "moemail.app" 3 3 completed None 1
                                (Some 13) ]};
     console := []; kv_puts := [] |}.

(** * Strings and lists *)

Lemma endsWith_refl s : endsWith s s = true.
Proof. destruct s; cbn [endsWith]; rewrite String.eqb_refl; reflexivity. Qed.

Lemma endsWith_append p s : endsWith (p +:+ s) s = true.
Proof.
  induction p as [|c p IH].
  - apply endsWith_refl.
  - change (String c p +:+ s) with (String c (p +:+ s)). cbn [endsWith].
    destruct (String.eqb (String c (p +:+ s)) s); [reflexivity | exact IH].
Qed.

Lemma absent_from_store_iff w a :
  absent_from_store w a <-> a ∉ map lower_address (emails w).
Proof.
  unfold absent_from_store. induction (emails w) as [|r l IH]; simpl.
  - split; [intros _; apply not_elem_of_nil | reflexivity].
  - unfold lower_address at 1. destruct (String.eqb_spec (toLowerCase (Email.address r)) a) as [E|E].
    + split; [discriminate | intros H; exfalso; apply H; rewrite E; apply list_elem_of_here].
    + rewrite IH. rewrite not_elem_of_cons. unfold lower_address at 2. intuition congruence.
Qed.

(** * The generation loop *)

Section Generate.
Context (env : Process.Env) (task : BatchTask) (n : Z).

Let NOW := Process.now_generate env.
Let EXP := if expiryTime task =? 0 then Process.never_expires
           else Process.now_generate env + expiryTime task.

Lemma generate_spec budget : forall attempts l (set : gset string) w,
  accepted_ok env task w l ->
  (forall r, r ∈ l -> lower_address r ∈ set) ->
  match Process.generate env task n NOW EXP budget attempts l set w with
  | Ok (l', attempts') w' =>
      w' = w /\ accepted_ok env task w l' /\
      (attempts' <= attempts + budget)%nat /\
      (Z.of_nat (length l) <= Z.max n 0 -> Z.of_nat (length l') <= Z.max n 0) /\
      (length l <= length l')%nat
  | Throw _ w' => w' = w
  end.
Proof.
  induction budget as [|b IH]; intros attempts l set w Hl Hset; simpl.
  - unfold ret. split_and!; auto; lia.
  - destruct (Z.of_nat (length l) <? n) eqn:Hlt.
    2:{ unfold ret. split_and!; auto; lia. }
    apply Z.ltb_lt in Hlt.
    case_bool_decide as Hin.
    + specialize (IH (S attempts) l set w Hl Hset).
      destruct (Process.generate _ _ _ _ _ b _ _ _ _) as [[l' a'] w'|e w']; auto.
      destruct IH as (-> & ? & ? & ? & ?). split_and!; auto; lia.
    + unfold bind, emails_findFirst.
      destruct (Process.findFirst_rejects env attempts) as [e|]; simpl; [reflexivity|].
      destruct (List.find _ (emails w)) as [r|] eqn:Hfind.
      * assert (Hset' : forall r, r ∈ l ->
                  lower_address r ∈ ({[toLowerCase (Process.nanoid env attempts +:+ "@" +:+ domain task)]} ∪ set : gset string))
          by (intros; apply elem_of_union_r; auto).
        specialize (IH (S attempts) l _ w Hl Hset').
        destruct (Process.generate _ _ _ _ _ b _ _ _ _) as [[l' a'] w'|e w']; auto.
        destruct IH as (-> & ? & ? & ? & ?). split_and!; auto; lia.
      * set (c := Email.mk (Process.nanoid env attempts +:+ "@" +:+ domain task) NOW EXP (userId task)).
        assert (Hc : accepted_ok env task w (l ++ [c])).
        { destruct Hl as [Hnd Hall]. split.
          - rewrite map_app. simpl. apply NoDup_app. split; [exact Hnd|]. split.
            + intros x Hx Hx'. apply list_elem_of_singleton in Hx'. subst x.
              apply list_elem_of_fmap in Hx as (r & Hr & Hrl).
              apply Hin. unfold lower_address at 1 in Hr. simpl in Hr. rewrite Hr.
              apply Hset, Hrl.
            + apply NoDup_singleton.
          - apply Forall_app. split; [exact Hall|]. constructor; [|constructor].
            split; [exact Hfind | exists attempts; reflexivity]. }
        assert (Hset' : forall r, r ∈ l ++ [c] ->
                  lower_address r ∈ ({[toLowerCase (Process.nanoid env attempts +:+ "@" +:+ domain task)]} ∪ set : gset string)).
        { intros r Hr. apply elem_of_app in Hr as [Hr|Hr].
          - apply elem_of_union_r; auto.
          - apply list_elem_of_singleton in Hr. subst r. apply elem_of_union_l.
            apply elem_of_singleton. reflexivity. }
        specialize (IH (S attempts) _ _ w Hc Hset').
        destruct (Process.generate _ _ _ _ _ b _ _ _ _) as [[l' a'] w'|e w']; auto.
        destruct IH as (-> & ? & ? & Hlen & Hle). rewrite length_app in *. simpl in *.
        split_and!; auto; lia.
Qed.

End Generate.

Lemma generate_fresh env task n m : forall budget attempts l (set : gset string) w,
  Z.of_nat (length l) + Z.of_nat m = n ->
  (m <= budget)%nat ->
  (forall k, Process.findFirst_rejects env k = None) ->
  NoDup (map (fun k => lower_address (candidate env task k)) (seq attempts m)) ->
  (forall k, k ∈ seq attempts m ->
     (lower_address (candidate env task k) ∉ set) /\
     absent_from_store w (lower_address (candidate env task k))) ->
  Process.generate env task n (Process.now_generate env)
    (if expiryTime task =? 0 then Process.never_expires
     else Process.now_generate env + expiryTime task)
    budget attempts l set w
  = Ok (l ++ map (candidate env task) (seq attempts m), (attempts + m)%nat) w.
Proof.
  induction m as [|m IH]; intros budget attempts l set w Hlen Hb Hno Hnd Hfresh.
  - simpl. rewrite app_nil_r, Nat.add_0_r.
    destruct budget; simpl; [reflexivity|].
    replace (Z.of_nat (length l) <? n) with false; [reflexivity|].
    symmetry. apply Z.ltb_ge. lia.
  - destruct budget as [|b]; [lia|]. simpl.
    replace (Z.of_nat (length l) <? n) with true
      by (symmetry; apply Z.ltb_lt; lia).
    destruct (Hfresh attempts) as [Hset Habs]; [simpl; apply list_elem_of_here|].
    unfold lower_address, candidate in Hset. simpl in Hset.
    rewrite bool_decide_eq_false_2 by exact Hset.
    unfold bind, emails_findFirst. rewrite Hno. simpl.
    unfold absent_from_store, lower_address, candidate in Habs. simpl in Habs.
    rewrite Habs.
    simpl in Hnd. apply NoDup_cons in Hnd as [Hhd Hnd].
    rewrite (IH b (S attempts)); try assumption; try lia.
    + rewrite <- app_assoc. simpl. do 2 f_equal. lia.
    + rewrite length_app. simpl. lia.
    + intros k Hk. destruct (Hfresh k) as [Hk1 Hk2]; [simpl; apply list_elem_of_further, Hk|].
      split; [|exact Hk2].
      rewrite not_elem_of_union. split; [|exact Hk1].
      rewrite not_elem_of_singleton. intros Heq. apply Hhd.
      apply list_elem_of_fmap. exists k. split; [|exact Hk].
      symmetry. exact Heq.
Qed.

Lemma no_collisions_generation env task w n :
  chunk_size task = Z.of_nat n ->
  (forall k, Process.findFirst_rejects env k = None) ->
  no_collisions env task n w = true ->
  generation env task w = Ok (map (candidate env task) (seq 0 n), n) w.
Proof.
  intros Hn Hno Hnc. unfold no_collisions in Hnc.
  apply andb_true_iff in Hnc as [Hnd Hall].
  apply bool_decide_eq_true in Hnd. rewrite forallb_forall in Hall.
  unfold generation.
  rewrite (generate_fresh env task (chunk_size task) n); try assumption.
  - reflexivity.
  - simpl. lia.
  - lia.
  - intros k Hk. split; [apply not_elem_of_empty|].
    apply absent_from_store_iff.
    assert (Hin : In (lower_address (candidate env task k))
                    (map (fun k => lower_address (candidate env task k)) (seq 0 n))).
    { apply in_map_iff. exists k. split; [reflexivity|]. apply list_elem_of_In, Hk. }
    apply Hall in Hin. apply negb_true_iff, bool_decide_eq_false in Hin. exact Hin.
Qed.

(** * The insertion loop *)

Lemma unique_ok_iff batch : forall stored,
  unique_ok stored batch = true <->
  NoDup (map lower_address batch) /\
  (forall r, r ∈ batch -> lower_address r ∉ stored).
Proof.
  induction batch as [|r rest IH]; intros stored; simpl.
  - split; [intros _|reflexivity]. split; [constructor|]. intros r Hr.
    apply elem_of_nil in Hr. contradiction.
  - fold (lower_address r). case_bool_decide as Hin.
    + split; [discriminate|]. intros [_ H]. exfalso.
      apply (H r); [apply list_elem_of_here | exact Hin].
    + rewrite IH. rewrite NoDup_cons. split.
      * intros [Hnd Hall]. split; [split; [|exact Hnd]|].
        -- intros Hr. apply list_elem_of_fmap in Hr as (r' & Heq & Hr').
           apply (Hall r' Hr'). rewrite <- Heq. apply list_elem_of_here.
        -- intros r' Hr'. apply elem_of_cons in Hr' as [->|Hr']; [exact Hin|].
           intros Hs. apply (Hall r' Hr'). apply list_elem_of_further, Hs.
      * intros [[Hhd Hnd] Hall]. split; [exact Hnd|]. intros r' Hr' Hs.
        apply elem_of_cons in Hs as [Heq|Hs].
        -- apply Hhd. rewrite <- Heq. apply list_elem_of_fmap. exists r'. auto.
        -- apply (Hall r'); [apply list_elem_of_further, Hr' | exact Hs].
Qed.

Lemma world_eta w : set_emails w (emails w) = w.
Proof. destruct w; reflexivity. Qed.

Lemma insert_batches_spec env fuel : forall k rest created addrs w,
  (length rest <= fuel)%nat ->
  match Process.insert_batches env fuel k rest created addrs w with
  | Ok (c, a) w' =>
      c = created + Z.of_nat (length rest) /\
      a = addrs ++ map Email.address rest /\
      w' = set_emails w (emails w ++ rest)
  | Throw _ w' =>
      kv w' = kv w /\ batchTasks w' = batchTasks w /\
      kv_puts w' = kv_puts w /\ console w' = console w
  end.
Proof.
  induction fuel as [|f IH]; intros k rest created addrs w Hlen.
  - destruct rest; [|simpl in Hlen; lia]. simpl. unfold ret.
    rewrite !app_nil_r, world_eta. split_and!; auto; lia.
  - destruct rest as [|r rest].
    { simpl. unfold ret. rewrite !app_nil_r, world_eta. split_and!; auto; lia. }
    cbn [Process.insert_batches]. unfold bind, emails_insert, await.
    destruct (Process.insert_rejects env k) as [e|]; [unfold throw; auto|].
    destruct (unique_ok _ _); [|auto].
    set (rest0 := r :: rest) in *.
    assert (Hd : (length (drop Process.INSERT_BATCH_SIZE rest0) <= f)%nat).
    { rewrite length_drop. unfold Process.INSERT_BATCH_SIZE. subst rest0.
      simpl in *. lia. }
    specialize (IH (S k) (drop Process.INSERT_BATCH_SIZE rest0)
                  (created + Z.of_nat (length (take Process.INSERT_BATCH_SIZE rest0)))
                  (addrs ++ map Email.address (take Process.INSERT_BATCH_SIZE rest0))
                  (set_emails w (emails w ++ take Process.INSERT_BATCH_SIZE rest0)) Hd).
    destruct (Process.insert_batches _ _ _ _ _ _ _) as [[c a] w'|e w'].
    + destruct IH as (-> & -> & ->). split_and!.
      * rewrite <- Z.add_assoc, <- Nat2Z.inj_add, <- length_app, take_drop. reflexivity.
      * rewrite <- app_assoc, <- map_app, take_drop. reflexivity.
      * unfold set_emails. cbn [emails kv batchTasks console kv_puts].
        rewrite <- app_assoc, take_drop. reflexivity.
    + simpl in IH. exact IH.
Qed.

Lemma insert_batches_ok env fuel : forall k rest created addrs w,
  (forall j, Process.insert_rejects env j = None) ->
  unique_ok (map lower_address (emails w)) rest = true ->
  exists r w', Process.insert_batches env fuel k rest created addrs w = Ok r w'.
Proof.
  induction fuel as [|f IH]; intros k rest created addrs w Hno Hu.
  - simpl. unfold ret. eauto.
  - destruct rest as [|r rest].
    { simpl. unfold ret. eauto. }
    cbn [Process.insert_batches]. unfold bind, emails_insert, await. rewrite Hno.
    set (rest0 := r :: rest) in *.
    apply unique_ok_iff in Hu as [Hnd Hall].
    rewrite <- (take_drop Process.INSERT_BATCH_SIZE rest0) in Hnd, Hall.
    rewrite map_app in Hnd. apply NoDup_app in Hnd as (Hnd1 & Hdis & Hnd2).
    assert (Hu1 : unique_ok (map (fun r => toLowerCase (Email.address r)) (emails w))
                    (take Process.INSERT_BATCH_SIZE rest0) = true).
    { apply unique_ok_iff. split; [exact Hnd1|]. intros x Hx. apply Hall.
      apply elem_of_app. left. exact Hx. }
    rewrite Hu1.
    destruct (IH (S k) (drop Process.INSERT_BATCH_SIZE rest0)
                (created + Z.of_nat (length (take Process.INSERT_BATCH_SIZE rest0)))
                (addrs ++ map Email.address (take Process.INSERT_BATCH_SIZE rest0))
                (set_emails w (emails w ++ take Process.INSERT_BATCH_SIZE rest0)) Hno)
      as (res & w' & Hres).
    { apply unique_ok_iff. split; [exact Hnd2|]. intros x Hx. simpl.
      rewrite map_app, not_elem_of_app. split.
      - apply Hall. apply elem_of_app. right. exact Hx.
      - intros Hx'. apply (Hdis (lower_address x)); [exact Hx'|].
        apply list_elem_of_fmap. exists x. auto. }
    exists res, w'. exact Hres.
Qed.

Lemma accepted_unique env task w l :
  accepted_ok env task w l ->
  unique_ok (map lower_address (emails w)) l = true.
Proof.
  intros [Hnd Hall]. apply unique_ok_iff. split; [exact Hnd|].
  intros r Hr. rewrite Forall_forall in Hall.
  apply absent_from_store_iff. apply (Hall r Hr).
Qed.

Lemma generation_spec env task w :
  match generation env task w with
  | Ok (l, attempts) w' =>
      w' = w /\ accepted_ok env task w l /\
      (attempts <= Z.to_nat (chunk_size task * 5))%nat /\
      Z.of_nat (length l) <= Z.max (chunk_size task) 0
  | Throw _ w' => w' = w
  end.
Proof.
  unfold generation.
  pose proof (generate_spec env task (chunk_size task)
                (Z.to_nat (chunk_size task * 5)) 0 [] ∅ w) as H.
  destruct (Process.generate _ _ _ _ _ _ _ _ _ _) as [[l a] w'|e w'].
  - destruct H as (-> & Hok & Ha & Hlen & _).
    + split; [constructor | constructor].
    + intros r Hr. apply elem_of_nil in Hr. contradiction.
    + split_and!; auto. apply Hlen. simpl. lia.
  - apply H.
    + split; [constructor | constructor].
    + intros r Hr. apply elem_of_nil in Hr. contradiction.
Qed.

Lemma generate_no_throw env task n now' expires budget :
  (forall k, Process.findFirst_rejects env k = None) ->
  forall attempts l (set : gset string) w,
  exists r w', Process.generate env task n now' expires budget attempts l set w = Ok r w'.
Proof.
  intros Hno. induction budget as [|b IH]; intros attempts l set w; simpl.
  - unfold ret. eauto.
  - destruct (Z.of_nat (length l) <? n); [|unfold ret; eauto].
    case_bool_decide; [apply IH|].
    unfold bind, emails_findFirst. rewrite Hno. simpl.
    destruct (List.find _ _); apply IH.
Qed.

(** * One chunk *)

Ltac munfold :=
  unfold bind, ret, throw, try_catch, await, console_log, SITE_CONFIG_get,
    SITE_CONFIG_put, batchTasks_findFirst, batchTasks_update, batchTasks_insert in *.

Lemma save_completed_frame env id task w :
  exists w', Process.save_completed env id task w = Ok tt w' /\
    kv w' = kv w /\ kv_puts w' = kv_puts w /\ emails w' = emails w.
Proof.
  unfold Process.save_completed. munfold.
  destruct (Process.history_find_rejects env);
    [eexists; split; [reflexivity|auto]|].
  destruct (batchTasks w !! id) eqn:E;
    destruct (Process.history_write_rejects env); simpl; rewrite ?E;
    eexists; (split; [reflexivity|auto]).
Qed.

Lemma save_failed_spec env id task w :
  exists w', Process.save_failed env id task w = Ok tt w' /\
    kv w' = kv w /\ kv_puts w' = kv_puts w /\ emails w' = emails w /\
    ((Process.handler_history_find_rejects env = None /\
      Process.handler_history_write_rejects env = None /\
      console w' = console w /\
      exists row, batchTasks w' !! id = Some row /\
        History.status row = failed /\
        History.error row = error task /\
        History.createdCount row = createdCount task) \/
     ((Process.handler_history_find_rejects env <> None \/
       Process.handler_history_write_rejects env <> None) /\
      batchTasks w' = batchTasks w /\
      console w' = console w ++ ["Failed to save failed batch task to database:"])).
Proof.
  unfold Process.save_failed. munfold.
  destruct (Process.handler_history_find_rejects env) eqn:Hf.
  { eexists. split; [reflexivity|]. simpl. do 3 (split; [reflexivity|]).
    right. split_and!; auto. }
  destruct (batchTasks w !! id) eqn:E;
    destruct (Process.handler_history_write_rejects env) eqn:Hw; simpl; rewrite ?E;
    eexists; (split; [reflexivity|]); simpl; do 3 (split; [reflexivity|]).
  - right. split_and!; auto.
  - left. split_and!; auto. eexists. split.
    + rewrite lookup_alter_eq, E. reflexivity.
    + auto.
  - right. split_and!; auto.
  - left. split_and!; auto. eexists. split.
    + apply lookup_insert_eq.
    + auto.
Qed.

(** The answer of a chunk that leaves [task]. *)
Lemma process_chunk_spec env id task w :
  match Process.process_chunk env id task w with
  | Ok r w' => chunk_done env id task w r w'
  | Throw _ w' =>
      kv w' = kv w /\ kv_puts w' = kv_puts w /\ ~ chunk_no_rejects env
  end.
Proof.
  pose proof (generation_spec env task w) as Hgen.
  unfold Process.process_chunk. cbv zeta. unfold bind at 1.
  unfold generation, chunk_size in Hgen.
  destruct (Process.generate _ _ _ _ _ _ _ _ _ _) as [[l a] w1|e w1] eqn:Hg;
    [|subst w1; split_and!; auto; intros (Hf & _ & _);
      match type of Hg with
      | Process.generate _ _ ?n ?t0 ?t1 ?b _ _ _ _ = _ =>
          destruct (generate_no_throw env task n t0 t1 b Hf 0%nat [] ∅ w)
            as (r & w' & Hr)
      end;
      rewrite Hr in Hg; discriminate].
  destruct Hgen as (-> & Hok & Ha & Hlen).
  unfold bind at 1.
  set (warn := if (_ && _)%bool then _ else _).
  assert (Hwarn : exists w1, warn w = Ok tt w1 /\ kv w1 = kv w /\
            kv_puts w1 = kv_puts w /\ emails w1 = emails w /\
            batchTasks w1 = batchTasks w).
  { subst warn. destruct (_ && _)%bool; munfold; eexists; (split; [reflexivity|auto]). }
  destruct Hwarn as (w1 & -> & Hk1 & Hp1 & He1 & Hb1). clear warn.
  unfold bind at 1.
  set (ins := if 0 <? Z.of_nat (length l) then _ else _).
  assert (Hins :
    match ins w1 with
    | Ok (c, a') w2 =>
        c = Z.of_nat (length l) /\ a' = map Email.address l /\
        kv w2 = kv w /\ kv_puts w2 = kv_puts w /\ emails w2 = emails w ++ l /\
        batchTasks w2 = batchTasks w
    | Throw _ w2 =>
        kv w2 = kv w /\ kv_puts w2 = kv_puts w /\
        ~ (forall k, Process.insert_rejects env k = None)
    end).
  { subst ins. destruct (0 <? Z.of_nat (length l)) eqn:Hpos.
    - unfold try_catch.
      pose proof (insert_batches_spec env (length l) 0 l 0 [] w1 (le_n _)) as Hi.
      destruct (Process.insert_batches _ _ _ _ _ _ _) as [[c a'] w2|e w2] eqn:Hib.
      + destruct Hi as (-> & -> & ->). simpl. rewrite He1. auto 10.
      + munfold. simpl. destruct Hi as (Hi1 & _ & Hi3 & _). rewrite Hi1, Hi3.
        split_and!; auto. intros Hno.
        destruct (insert_batches_ok env (length l) 0 l 0 [] w1 Hno) as (r & w' & Hr).
        * rewrite He1. apply (accepted_unique env task), Hok.
        * rewrite Hr in Hib. discriminate.
    - unfold ret. destruct l; [|simpl in Hpos; discriminate].
      simpl. rewrite app_nil_r. auto 10. }
  destruct (ins w1) as [[c a'] w2|e w2];
    [|destruct Hins as (? & ? & Hn); split_and!; auto; intros (_ & Hi & _); auto].
  destruct Hins as (-> & -> & Hk2 & Hp2 & He2 & Hb2). clear ins.
  rewrite length_map.
  unfold bind at 1.
  set (fin := if totalCount _ <=? processedCount _ then _ else _).
  assert (Hfin : exists w3, fin w2 = Ok (after_chunk env task l) w3 /\
            kv w3 = kv w /\ kv_puts w3 = kv_puts w /\ emails w3 = emails w ++ l /\
            (status (after_chunk env task l) <> completed ->
             batchTasks w3 = batchTasks w)).
  { subst fin. unfold after_chunk. cbv zeta.
    destruct (totalCount _ <=? processedCount _).
    - unfold bind.
      match goal with
      | |- context [Process.save_completed env id ?t w2] =>
          destruct (save_completed_frame env id t w2) as (w3 & -> & Hk3 & Hp3 & He3)
      end.
      unfold ret. exists w3. split_and!; [reflexivity|congruence..|].
      simpl. intros Hne. contradiction.
    - unfold ret. exists w2. split_and!; [reflexivity|congruence..]. }
  destruct Hfin as (w3 & -> & Hk3 & Hp3 & He3 & Hb3). clear fin.
  unfold bind at 1.
  assert (Hsz : exists w4,
            (if Process.size_over_20MB env
             then console_log "Task size is close to KV limit (25MB)"
             else ret tt) w3 = Ok tt w4 /\
            kv w4 = kv w /\ kv_puts w4 = kv_puts w /\ emails w4 = emails w ++ l /\
            batchTasks w4 = batchTasks w3).
  { destruct (Process.size_over_20MB env); munfold; eexists;
      (split; [reflexivity|auto]). }
  destruct Hsz as (w4 & -> & Hk4 & Hp4 & He4 & Hb4).
  munfold. destruct (Process.put_rejects env) eqn:Hput.
  - simpl. split_and!; auto. intros (_ & _ & Hp). rewrite Hp in Hput. discriminate.
  - exists l, a. split_and!; simpl; try reflexivity; try congruence.
    + unfold generation, chunk_size. exact Hg.
    + intros Hne. rewrite Hb4. apply Hb3, Hne.
Qed.

(** * The failure handler *)

Lemma truthy_some id : id <> EmptyString -> truthy (Some id) = Some id.
Proof. destruct id; [contradiction | reflexivity]. Qed.

Lemma on_error_spec env id e w :
  id <> EmptyString ->
  exists w',
    Process.on_error env (Some id) e w
      = Ok (ErrorJson 500 "处理批量任务失败") w' /\
    emails w' = emails w /\
    ((kv w' = kv w /\ kv_puts w' = kv_puts w /\ batchTasks w' = batchTasks w /\
      ((Process.handler_get_rejects env = None /\ kv w !! id = None) \/
       ((Process.handler_get_rejects env <> None \/
         Process.handler_put_rejects env <> None) /\
        "Failed to update task status:" ∈ console w'))) \/
     (exists t0, kv w !! id = Some t0 /\
        Process.handler_get_rejects env = None /\
        Process.handler_put_rejects env = None /\
        kv w' = <[id := marked_failed env e t0]> (kv w) /\
        kv_puts w' = kv_puts w ++ [(id, marked_failed env e t0)] /\
        ((Process.handler_history_find_rejects env = None /\
          Process.handler_history_write_rejects env = None /\
          exists row, batchTasks w' !! id = Some row /\
            History.status row = failed /\
            History.error row = Some (message_of e "处理失败") /\
            History.createdCount row = createdCount t0) \/
         ((Process.handler_history_find_rejects env <> None \/
           Process.handler_history_write_rejects env <> None) /\
          batchTasks w' = batchTasks w /\
          "Failed to save failed batch task to database:" ∈ console w')))).
Proof.
  intros Hid. unfold Process.on_error. rewrite (truthy_some id Hid).
  unfold bind at 1. unfold console_log at 1.
  set (w0 := set_console w _).
  unfold bind at 1. unfold try_catch at 1. unfold bind at 1.
  unfold SITE_CONFIG_get, await.
  destruct (Process.handler_get_rejects env) eqn:Hget.
  { unfold throw, console_log, ret. eexists. split; [reflexivity|]. simpl.
    split; [reflexivity|]. left. split_and!; auto. right. split; [auto|].
    apply elem_of_app. right. apply list_elem_of_here. }
  change (kv w0) with (kv w).
  destruct (kv w !! id) as [t0|] eqn:Hlook.
  2:{ unfold ret. eexists. split; [reflexivity|]. simpl.
      split; [reflexivity|]. left. split_and!; auto. }
  fold (marked_failed env e t0).
  unfold bind at 1. unfold SITE_CONFIG_put, await.
  destruct (Process.handler_put_rejects env) eqn:Hput.
  { unfold throw, console_log, ret. eexists. split; [reflexivity|]. simpl.
    split; [reflexivity|]. left. split_and!; auto. right. split; [auto|].
    apply elem_of_app. right. apply list_elem_of_here. }
  match goal with
  | |- context [Process.save_failed env id ?t ?w1] =>
      destruct (save_failed_spec env id t w1) as (w2 & -> & Hk & Hp & He & Hh)
  end.
  unfold ret. eexists. split; [reflexivity|].
  split; [rewrite He; reflexivity|]. right. exists t0.
  split_and!; auto.
  destruct Hh as [(Hf & Hw & Hc & row & Hrow & Hs & Herr & Hcc)|(Hrej & Hb & Hc)].
  - left. split_and!; auto. exists row. split_and!; auto.
  - right. split_and!; auto. rewrite Hc. apply elem_of_app. right.
    apply list_elem_of_here.
Qed.

(** * The body of the process route, case by case *)

Lemma body_spec env id w t :
  id <> EmptyString -> kv w !! id = Some t -> Process.get_rejects env = None ->
  match Process.body env (Some id) w with
  | Ok r w' =>
      (w' = w /\ shows r t /\
       (status t = completed \/ status t = failed \/
        (status t = processing /\ totalCount t <= processedCount t)))
      \/ (status t = processing /\ processedCount t < totalCount t /\
          chunk_done env id t w r w')
      \/ (status t = pending /\ Process.put_processing_rejects env = None /\
          chunk_done env id (marked_processing env t) (picked_up env id t w) r w')
  | Throw e w' =>
      (status t = processing /\ processedCount t < totalCount t /\
       kv w' = kv w /\ kv_puts w' = kv_puts w /\ ~ chunk_no_rejects env)
      \/ (status t = pending /\ Process.put_processing_rejects env = Some e /\ w' = w)
      \/ (status t = pending /\ Process.put_processing_rejects env = None /\
          kv w' = kv (picked_up env id t w) /\
          kv_puts w' = kv_puts (picked_up env id t w) /\ ~ chunk_no_rejects env)
  end.
Proof.
  intros Hid Hlook Hget. unfold Process.body. rewrite (truthy_some id Hid).
  unfold bind at 1. unfold SITE_CONFIG_get, await. rewrite Hget, Hlook.
  destruct (status t) eqn:Hs; simpl.
  - (* pending *)
    fold (marked_processing env t).
    unfold bind at 1. unfold SITE_CONFIG_put, await.
    destruct (Process.put_processing_rejects env) as [e|] eqn:Hput.
    + unfold throw. right. left. auto.
    + fold (picked_up env id t w).
      pose proof (process_chunk_spec env id (marked_processing env t)
                    (picked_up env id t w)) as Hc.
      destruct (Process.process_chunk _ _ _ _) as [r w'|e w'].
      * right. right. auto.
      * right. right. destruct Hc as (? & ? & ?). auto.
  - (* processing *)
    destruct (processedCount t <? totalCount t) eqn:Hlt.
    + apply Z.ltb_lt in Hlt.
      pose proof (process_chunk_spec env id t w) as Hc.
      destruct (Process.process_chunk _ _ _ _) as [r w'|e w'].
      * right. left. auto.
      * left. destruct Hc as (? & ? & ?). auto.
    + apply Z.ltb_ge in Hlt. unfold ret. left. split; [reflexivity|]. split.
      * eexists. split; [reflexivity|]. simpl. auto.
      * auto.
  - unfold ret. left. split; [reflexivity|]. split.
    + eexists. split; [reflexivity|]. simpl. auto.
    + auto.
  - unfold ret. left. split; [reflexivity|]. split.
    + eexists. split; [reflexivity|]. simpl. auto.
    + auto.
Qed.

(** * A whole call *)

Lemma generation_ok env t w l a :
  generation env t w = Ok (l, a) w ->
  accepted_ok env t w l /\
  Z.of_nat (length l) <= Z.max (chunk_size t) 0 /\
  (a <= Z.to_nat (chunk_size t * 5))%nat.
Proof.
  intros H. pose proof (generation_spec env t w) as Hs. rewrite H in Hs.
  destruct Hs as (_ & ? & ? & ?). auto.
Qed.

Lemma POST_unfold env id w :
  Process.POST env (Some id) w =
  match Process.body env (Some id) w with
  | Ok r w' => (r, w')
  | Throw e w' =>
      match Process.on_error env (Some id) e w' with
      | Ok r w'' => (r, w'')
      | Throw _ w'' => (ErrorJson 500 "unhandled", w'')
      end
  end.
Proof. reflexivity. Qed.

Lemma POST_puts env id w t :
  id <> EmptyString -> kv w !! id = Some t ->
  exists puts,
    call_puts env w t puts /\
    kv_puts (snd (Process.POST env (Some id) w)) = kv_puts w ++ map (pair id) puts /\
    kv (snd (Process.POST env (Some id) w))
      = foldl (fun m t' => <[id := t']> m) (kv w) puts.
Proof.
  intros Hid Hlook. rewrite POST_unfold.
  destruct (Process.get_rejects env) as [e0|] eqn:Hget.
  - (* the first read rejects *)
    assert (Hb : Process.body env (Some id) w = Throw e0 w).
    { unfold Process.body. rewrite (truthy_some id Hid).
      unfold bind, SITE_CONFIG_get, await. rewrite Hget. reflexivity. }
    rewrite Hb.
    destruct (on_error_spec env id e0 w Hid) as (w' & -> & _ & [H|H]); simpl.
    + destruct H as (Hk & Hp & _). exists []. simpl. rewrite app_nil_r.
      split_and!; auto. constructor.
    + destruct H as (t0 & Ht0 & _ & _ & Hk & Hp & _).
      rewrite Hlook in Ht0. injection Ht0 as <-.
      exists [marked_failed env e0 t]. split_and!; auto.
      apply puts_failed. rewrite Hget. discriminate.
  - pose proof (body_spec env id w t Hid Hlook Hget) as Hb.
    destruct (Process.body env (Some id) w) as [r w'|e w'].
    + simpl. destruct Hb as [(-> & _ & _)|[(Hs & Hlt & Hd)|(Hs & Hput & Hd)]].
      * exists []. simpl. rewrite app_nil_r. split_and!; auto. constructor.
      * destruct Hd as (l & a & Hg & _ & Hk & Hp & _ & _).
        apply generation_ok in Hg as (Hok & Hlen & _).
        exists [after_chunk env t l]. split_and!; auto.
        apply puts_chunk; auto.
      * destruct Hd as (l & a & Hg & _ & Hk & Hp & _ & _).
        apply generation_ok in Hg as (Hok & Hlen & _).
        exists [marked_processing env t; after_chunk env (marked_processing env t) l].
        split_and!.
        -- apply puts_picked_chunk; auto.
        -- rewrite Hp. simpl. rewrite <- app_assoc. reflexivity.
        -- rewrite Hk. reflexivity.
    + destruct Hb as [(Hs & Hlt & Hk & Hp & _)|[(Hs & Hput & ->)|(Hs & Hput & Hk & Hp & _)]].
      * destruct (on_error_spec env id e w' Hid) as (w'' & -> & _ & [H|H]); simpl.
        -- destruct H as (Hk' & Hp' & _). exists []. simpl. rewrite app_nil_r.
           split_and!; [constructor|congruence..].
        -- destruct H as (t0 & Ht0 & _ & _ & Hk' & Hp' & _).
           rewrite Hk, Hlook in Ht0. injection Ht0 as <-.
           exists [marked_failed env e t]. split_and!; simpl; [|congruence..].
           apply puts_failed. auto.
      * destruct (on_error_spec env id e w Hid) as (w'' & -> & _ & [H|H]); simpl.
        -- destruct H as (Hk' & Hp' & _). exists []. simpl. rewrite app_nil_r.
           split_and!; [constructor|congruence..].
        -- destruct H as (t0 & Ht0 & _ & _ & Hk' & Hp' & _).
           rewrite Hlook in Ht0. injection Ht0 as <-.
           exists [marked_failed env e t]. split_and!; simpl; [|congruence..].
           apply puts_failed. auto.
      * unfold picked_up in Hk, Hp. simpl in Hk, Hp.
        destruct (on_error_spec env id e w' Hid) as (w'' & -> & _ & [H|H]); simpl.
        -- destruct H as (Hk' & Hp' & _). exists [marked_processing env t].
           split_and!; simpl; [apply puts_picked; auto|congruence..].
        -- destruct H as (t0 & Ht0 & _ & _ & Hk' & Hp' & _).
           rewrite Hk in Ht0. simpl in Ht0. rewrite lookup_insert_eq in Ht0.
           injection Ht0 as <-.
           exists [marked_processing env t;
                   marked_failed env e (marked_processing env t)].
           split_and!; simpl.
           ++ apply puts_picked_failed; auto.
           ++ rewrite Hp', Hp. simpl. rewrite <- app_assoc. reflexivity.
           ++ rewrite Hk', Hk. reflexivity.
Qed.

Lemma foldl_insert_lookup id puts : forall (m : gmap string BatchTask) t,
  m !! id = Some t ->
  foldl (fun m t' => <[id := t']> m) m puts !! id = Some (default t (last puts)).
Proof.
  induction puts as [|x puts IH]; intros m t Hm; simpl; [exact Hm|].
  rewrite (IH _ x) by apply lookup_insert_eq.
  rewrite last_cons. destruct (last puts); reflexivity.
Qed.

Lemma POST_preserves (P : BatchTask -> Prop) env id w t :
  id <> EmptyString -> kv w !! id = Some t -> P t ->
  (forall puts, call_puts env w t puts -> Forall P puts) ->
  exists t', kv (snd (Process.POST env (Some id) w)) !! id = Some t' /\ P t'.
Proof.
  intros Hid Hlook Ht Hputs.
  destruct (POST_puts env id w t Hid Hlook) as (puts & Hc & _ & Hk).
  exists (default t (last puts)). split.
  - rewrite Hk. apply foldl_insert_lookup, Hlook.
  - specialize (Hputs puts Hc). destruct (last puts) as [x|] eqn:Hl; [|exact Ht].
    simpl. rewrite Forall_forall in Hputs. apply Hputs.
    apply last_Some in Hl as [l' ->]. apply elem_of_app. right. apply list_elem_of_here.
Qed.

(** * Counters *)

Lemma after_chunk_counters env t l :
  counters_ok t ->
  Z.of_nat (length l) <= Z.max (chunk_size t) 0 ->
  counters_ok (after_chunk env t l) /\
  processedCount t <= processedCount (after_chunk env t l) /\
  createdCount t <= createdCount (after_chunk env t l) /\
  totalCount (after_chunk env t l) = totalCount t.
Proof.
  unfold counters_ok, chunk_size, Process.PROCESS_BATCH_SIZE, after_chunk.
  intros (Hp & Hc) Hlen. cbv zeta.
  destruct (0 <? Z.of_nat (length l)); simpl;
    destruct (totalCount t <? processedCount t + Z.of_nat (length l)) eqn:H1; simpl;
    try (apply Z.ltb_lt in H1; lia);
    destruct (totalCount t <=? processedCount t + Z.of_nat (length l)) eqn:H2; simpl;
    try apply Z.leb_le in H2; try apply Z.leb_gt in H2; lia.
Qed.

Lemma call_puts_counters env w t puts :
  counters_ok t -> call_puts env w t puts ->
  Forall (fun t' => counters_ok t' /\
                    processedCount t <= processedCount t' /\
                    createdCount t <= createdCount t' /\
                    totalCount t' = totalCount t) puts.
Proof.
  intros Ht Hc. pose proof Ht as (Hp & Hcr).
  assert (Hsame : forall t', processedCount t' = processedCount t ->
            createdCount t' = createdCount t -> totalCount t' = totalCount t ->
            counters_ok t' /\ processedCount t <= processedCount t' /\
            createdCount t <= createdCount t' /\ totalCount t' = totalCount t).
  { intros t' H1 H2 H3. unfold counters_ok. rewrite H1, H2, H3. lia. }
  destruct Hc as [|l Hs Hok Hlen|e Hs|Hs|l Hs Hok Hlen|e Hs];
    repeat match goal with |- Forall _ _ => constructor end;
    try (apply Hsame; reflexivity);
    try (apply after_chunk_counters; assumption).
  destruct (after_chunk_counters env (marked_processing env t) l) as (? & ? & ? & ?);
    auto.
Qed.

Lemma POST_counters env id w t :
  id <> EmptyString -> kv w !! id = Some t -> counters_ok t ->
  exists t', kv (snd (Process.POST env (Some id) w)) !! id = Some t' /\
    counters_ok t' /\
    processedCount t <= processedCount t' /\
    createdCount t <= createdCount t' /\
    totalCount t' = totalCount t.
Proof.
  intros Hid Hlook Ht.
  apply (POST_preserves
           (fun t' => counters_ok t' /\ processedCount t <= processedCount t' /\
                      createdCount t <= createdCount t' /\
                      totalCount t' = totalCount t) env id w t Hid Hlook).
  - split_and!; auto; lia.
  - intros puts Hc. apply (call_puts_counters env w); assumption.
Qed.

Lemma advance_many_counters envs : forall id w t,
  id <> EmptyString -> kv w !! id = Some t -> counters_ok t ->
  exists t', kv (advance_many envs id w) !! id = Some t' /\
    counters_ok t' /\
    processedCount t <= processedCount t' /\
    createdCount t <= createdCount t'.
Proof.
  induction envs as [|env envs IH]; intros id w t Hid Hlook Ht; simpl.
  - exists t. split_and!; auto; lia.
  - destruct (POST_counters env id w t Hid Hlook Ht) as (t1 & Hl1 & Hc1 & Hp1 & Hcr1 & _).
    destruct (IH id _ t1 Hid Hl1 Hc1) as (t' & Hl' & Hc' & Hp' & Hcr').
    exists t'. split_and!; auto; lia.
Qed.

(** * The create route *)

Lemma dispatch_spec env u req w :
  match Create.dispatch env u req (Create.batchCount_of (Create.batch req)) w with
  | Ok r w' =>
      (Create.ASYNC_THRESHOLD < Create.batchCount_of (Create.batch req) /\
       Create.put_rejects env = None /\
       r = CreatedJson (Create.nanoid16 env) pending
             "批量创建任务已启动，请使用任务ID查询进度" /\
       kv w' = <[Create.nanoid16 env :=
                   mkBatchTask (Create.nanoid16 env) u (Create.domain req)
                     (Create.expiryTime req)
                     (Create.batchCount_of (Create.batch req)) 0 0 pending None
                     (Create.now env) (Create.now env) None]> (kv w))
      \/ (Create.batchCount_of (Create.batch req) <= Create.ASYNC_THRESHOLD /\
          r = ErrorJson 400 "请使用 /api/emails/generate 接口进行小批量创建（≤50）" /\
          w' = w)
  | Throw e w' =>
      w' = w /\ Create.put_rejects env = Some e /\
      Create.ASYNC_THRESHOLD < Create.batchCount_of (Create.batch req)
  end.
Proof.
  unfold Create.dispatch.
  destruct (Create.ASYNC_THRESHOLD <? _) eqn:Hth.
  - apply Z.ltb_lt in Hth. munfold.
    destruct (Create.put_rejects env); simpl; auto.
  - apply Z.ltb_ge in Hth. unfold ret. auto.
Qed.

Lemma quota_rejected_spec env u role n w :
  match Create.quota_rejected env u role n w with
  | Ok b w' =>
      w' = w /\
      (b = None <->
       match role with
       | Create.EMPEROR => True
       | Create.other_role _ =>
           Create.over_quota
             (Z.of_nat
                (length
                   (List.filter
                      (fun r => (String.eqb (Email.userId r) u
                                 && (Create.now_quota env <? Email.expiresAt r))%bool)
                      (emails w))))
             n (Create.maxCount env) = false
       end)
  | Throw _ w' =>
      w' = w /\ (Create.max_rejects env <> None \/ Create.count_rejects env <> None)
  end.
Proof.
  unfold Create.quota_rejected, Create.activeEmailsCount. destruct role; munfold.
  - split; [reflexivity|]. tauto.
  - destruct (Create.max_rejects env); [split; auto; left; discriminate|].
    destruct (Create.count_rejects env); [split; auto; right; discriminate|].
    destruct (Create.over_quota _ _ _); split; try reflexivity;
      split; intros; congruence.
Qed.

Lemma Create_created env session role req w id st msg w' :
  Create.POST env session role req w = (CreatedJson id st msg, w') ->
  exists u,
    truthy session = Some u /\
    id = Create.nanoid16 env /\ st = pending /\
    Create.ASYNC_THRESHOLD < Create.batchCount_of (Create.batch req) /\
    kv w' = <[id := mkBatchTask id u (Create.domain req) (Create.expiryTime req)
                      (Create.batchCount_of (Create.batch req)) 0 0 pending None
                      (Create.now env) (Create.now env) None]> (kv w).
Proof.
  unfold Create.POST. destruct (truthy session) as [u|]; [|discriminate].
  unfold run, Create.body, Create.on_error.
  unfold bind at 1. unfold await at 1.
  destruct (Create.json_rejects env); [munfold; discriminate|]. unfold ret at 1.
  destruct (negb (existsb _ (Create.EXPIRY_OPTIONS env))); [discriminate|].
  unfold bind at 1. unfold await at 1.
  destruct (Create.domains_rejects env); [munfold; discriminate|]. unfold ret at 1.
  destruct (negb (existsb _ _)); [discriminate|].
  unfold bind at 1.
  pose proof (quota_rejected_spec env u role
                (Create.batchCount_of (Create.batch req)) w) as Hq.
  destruct (Create.quota_rejected _ _ _ _ _) as [b w1|e w1];
    [|munfold; discriminate].
  destruct Hq as (-> & _).
  destruct b; [discriminate|].
  pose proof (dispatch_spec env u req w) as Hd.
  destruct (Create.dispatch _ _ _ _ _) as [r w1|e w1]; [|munfold; discriminate].
  intros H. injection H as -> ->.
  destruct Hd as [(Hth & _ & Hr & Hk)|(_ & Hr & _)]; [|discriminate].
  injection Hr as -> -> ->. exists u. split_and!; auto.
Qed.

(** * The claims *)

(** X28.  The counters of a task with a whole-number total.  Counts are
    integers here; the create route does not check that the requested
    count is one, and a total such as 50.5 is outside this statement (the
    loop then accepts 51 rows and [createdCount] ends above
    [processedCount]).  For whole numbers: the task stored by the create
    route satisfies [0 <= processedCount <= totalCount] and
    [createdCount <= processedCount]; and from any stored task that
    satisfies them, after every sequence of calls of the process route
    (with any draws, clock readings and rejections) the stored task still
    satisfies them and neither counter has decreased. *)
Theorem counters_invariant :
  (forall env session role req w id st msg w',
     Create.POST env session role req w = (CreatedJson id st msg, w') ->
     exists t, kv w' !! id = Some t /\ counters_ok t /\
               processedCount t = 0 /\ createdCount t = 0) /\
  (forall envs id w t,
     id <> EmptyString -> kv w !! id = Some t -> counters_ok t ->
     exists t', kv (advance_many envs id w) !! id = Some t' /\
       counters_ok t' /\
       processedCount t <= processedCount t' /\
       createdCount t <= createdCount t').
Proof.
  split.
  - intros env session role req w id st msg w' H.
    apply Create_created in H as (u & _ & _ & _ & Hth & Hk).
    eexists. split; [rewrite Hk; apply lookup_insert_eq|].
    unfold counters_ok, Create.ASYNC_THRESHOLD in *. simpl. lia.
  - intros envs id w t. apply advance_many_counters.
Qed.

Lemma counters_invariant_witness :
  exists t', kv (advance_many [quiet_env 0; quiet_env 100] "T" sample_world) !! "T"
             = Some t' /\
    counters_ok t' /\
    processedCount sample_task <= processedCount t' /\
    createdCount sample_task <= createdCount t'.
Proof.
  apply (proj2 counters_invariant [quiet_env 0; quiet_env 100] "T" sample_world
           sample_task).
  - discriminate.
  - reflexivity.
  - unfold counters_ok. simpl. lia.
Defined.

(** * Calls in which no store call rejects *)

Lemma POST_runs env id w t :
  id <> EmptyString -> kv w !! id = Some t -> no_rejects env -> workable t ->
  chunk_done env id (generation_task env t) (generation_world env id t w)
    (fst (Process.POST env (Some id) w)) (snd (Process.POST env (Some id) w)).
Proof.
  intros Hid Hlook (Hget & Hpp & Hff & Hins & Hput) Hwork.
  assert (Hno : chunk_no_rejects env) by (split_and!; assumption).
  rewrite POST_unfold.
  pose proof (body_spec env id w t Hid Hlook Hget) as Hb.
  unfold generation_task, generation_world.
  destruct (Process.body env (Some id) w) as [r w'|e w'].
  - simpl. destruct Hb as [(_ & _ & Hst)|[(Hs & Hlt & Hd)|(Hs & _ & Hd)]].
    + exfalso. destruct Hwork as [Hw|[Hw Hlt]]; destruct Hst as [H|[H|[H H']]];
        try congruence; lia.
    + rewrite Hs. simpl. exact Hd.
    + rewrite Hs. simpl. exact Hd.
  - exfalso.
    destruct Hb as [(_ & _ & _ & _ & Hn)|[(_ & Hr & _)|(_ & _ & _ & _ & Hn)]];
      try (apply Hn, Hno). congruence.
Qed.

(** X29.  A call of the process route on a stored task whose status is
    completed or failed, when the read of the task goes through, answers
    200 with the task's status and counters (progress 100 for a completed
    task, the rounded percentage for a failed one) and leaves the whole
    world as it was: no put, no insert, no log line.  Calling again
    therefore gives the same answer.  (When the read rejects, the failure
    handler runs instead and marks the task failed whatever its status:
    see [rejected_read_marks_completed_task_failed].) *)
Theorem advance_on_terminal_is_noop env id w t :
  id <> EmptyString ->
  kv w !! id = Some t ->
  status t = completed \/ status t = failed ->
  Process.get_rejects env = None ->
  Process.POST env (Some id) w =
    (ProcessJson
       (Json.mkProcess (status t) (processedCount t) (totalCount t)
          (createdCount t)
          (if decide (status t = completed) then Percent 100
           else RoundPercent (processedCount t) (totalCount t))
          (if decide (status t = completed) then None else error t)
          (if decide (status t = completed) then Some "任务已完成" else None)
          None),
     w).
Proof.
  intros Hid Hlook Hst Hget.
  unfold Process.POST, run, Process.body. rewrite (truthy_some id Hid).
  unfold bind, SITE_CONFIG_get, await. rewrite Hget, Hlook.
  destruct Hst as [Hs|Hs]; rewrite Hs; reflexivity.
Qed.

Lemma advance_on_terminal_is_noop_witness :
  Process.POST (quiet_env 0) (Some "D") done_world =
    (ProcessJson
       (Json.mkProcess completed 60 60 60 (Percent 100) None
          (Some "任务已完成") None),
     done_world).
Proof.
  apply (advance_on_terminal_is_noop (quiet_env 0) "D" done_world done_task).
  - discriminate.
  - reflexivity.
  - left. reflexivity.
  - reflexivity.
Defined.

(** * Calls that accept nothing *)

Lemma generate_ext env task task' n now' expires budget :
  domain task' = domain task -> userId task' = userId task ->
  forall attempts l (set : gset string) w w',
  emails w' = emails w ->
  Process.generate env task' n now' expires budget attempts l set w' =
  match Process.generate env task n now' expires budget attempts l set w with
  | Ok r _ => Ok r w'
  | Throw e _ => Throw e w'
  end.
Proof.
  intros Hd Hu. induction budget as [|b IH]; intros attempts l set w w' He; simpl.
  - reflexivity.
  - destruct (Z.of_nat (length l) <? n); [|reflexivity].
    rewrite Hd, Hu. case_bool_decide; [apply IH, He|].
    unfold bind, emails_findFirst, await.
    destruct (Process.findFirst_rejects env attempts); [reflexivity|].
    rewrite He. destruct (List.find _ (emails w)); apply IH, He.
Qed.

Lemma accepts_none_ext env t u w w' :
  emails w' = emails w ->
  accepts_none env (set_updatedAt u t) w' = accepts_none env t w.
Proof.
  intros He. unfold accepts_none, generation.
  change (chunk_size (set_updatedAt u t)) with (chunk_size t).
  change (expiryTime (set_updatedAt u t)) with (expiryTime t).
  rewrite (generate_ext env t (set_updatedAt u t) _ _ _ _ eq_refl eq_refl
             0%nat [] ∅ w w' He).
  destruct (Process.generate _ _ _ _ _ _ _ _ _ _) as [[[|r l] a] w0|e w0];
    reflexivity.
Qed.

Lemma after_chunk_nil env t :
  processedCount t < totalCount t ->
  after_chunk env t [] = set_updatedAt (Process.now_update env) t.
Proof.
  intros Hlt. unfold after_chunk. cbv zeta. simpl.
  change (Z.of_nat 0) with 0. rewrite !Z.add_0_r.
  replace (totalCount t <? processedCount t) with false
    by (symmetry; apply Z.ltb_ge; lia).
  simpl.
  replace (totalCount t <=? processedCount t) with false
    by (symmetry; apply Z.leb_gt; lia).
  destruct t; reflexivity.
Qed.

Lemma POST_stuck env id w t :
  id <> EmptyString -> kv w !! id = Some t ->
  status t = processing -> processedCount t < totalCount t ->
  no_rejects env -> accepts_none env t w = true ->
  fst (Process.POST env (Some id) w)
    = ProcessJson
        (Json.mkProcess processing (processedCount t) (totalCount t) (createdCount t)
           (RoundPercent (processedCount t) (totalCount t)) None None (Some true)) /\
  kv (snd (Process.POST env (Some id) w))
    = <[id := set_updatedAt (Process.now_update env) t]> (kv w) /\
  emails (snd (Process.POST env (Some id) w)) = emails w /\
  batchTasks (snd (Process.POST env (Some id) w)) = batchTasks w.
Proof.
  intros Hid Hlook Hs Hlt Hno Hacc.
  pose proof (POST_runs env id w t Hid Hlook Hno (or_intror (conj Hs Hlt))) as Hd.
  unfold generation_task, generation_world in Hd. rewrite Hs in Hd. simpl in Hd.
  destruct Hd as (l & a & Hg & Hr & Hk & _ & He & Hb).
  unfold accepts_none in Hacc. rewrite Hg in Hacc.
  destruct l as [|r l]; [|discriminate].
  rewrite (after_chunk_nil env t Hlt) in *. rewrite app_nil_r in He.
  split_and!; auto.
  - rewrite Hr. unfold chunk_answer. simpl. rewrite Hs.
    replace (processedCount t <? totalCount t) with true
      by (symmetry; apply Z.ltb_lt; exact Hlt).
    reflexivity.
  - apply Hb. simpl. rewrite Hs. discriminate.
Qed.


(** C10.  On a processing task with addresses left, calls that accept no
    candidate (every attempt of the budget collides) and in which no store
    call rejects all answer 200 with status processing, the task's
    counters and [hasMore = true]; the stored task keeps its
    processedCount, createdCount, status, error and address list and only
    its updatedAt is set to the clock reading of the last call; the
    address table and the permanent records stay as they were.  So no
    number of such calls brings the task to completed or failed. *)
Theorem zero_accepted_calls_leave_task_processing envs id w t :
  id <> EmptyString ->
  kv w !! id = Some t ->
  status t = processing ->
  processedCount t < totalCount t ->
  Forall no_rejects envs ->
  forallb (fun env => accepts_none env t w) envs = true ->
  Forall (fun r => r = ProcessJson
                        (Json.mkProcess processing (processedCount t) (totalCount t)
                           (createdCount t)
                           (RoundPercent (processedCount t) (totalCount t))
                           None None (Some true)))
    (answers_many envs id w) /\
  kv (advance_many envs id w) !! id
    = Some (set_updatedAt
              (default (updatedAt t) (last (map Process.now_update envs))) t) /\
  emails (advance_many envs id w) = emails w /\
  batchTasks (advance_many envs id w) = batchTasks w.
Proof.
  revert id w t.
  induction envs as [|env envs IH]; intros id w t Hid Hlook Hs Hlt Hno Hacc.
  - simpl. split_and!; auto. rewrite Hlook. destruct t; reflexivity.
  - simpl in Hacc. apply andb_true_iff in Hacc as [Hacc1 Hacc].
    apply Forall_cons in Hno as [Hno1 Hno].
    destruct (POST_stuck env id w t Hid Hlook Hs Hlt Hno1 Hacc1)
      as (Hr & Hk & He & Hb).
    simpl.
    destruct (IH id (snd (Process.POST env (Some id) w))
                (set_updatedAt (Process.now_update env) t) Hid)
      as (Hrs & Hk' & He' & Hb'); auto.
    + rewrite Hk. apply lookup_insert_eq.
    + rewrite <- Hacc. clear -He. induction envs as [|env' envs IHe]; simpl.
      * reflexivity.
      * rewrite IHe. f_equal. apply accepts_none_ext, He.
    + split_and!.
      * constructor; [exact Hr | exact Hrs].
      * rewrite Hk'. rewrite last_cons.
        destruct (last (map Process.now_update envs)); reflexivity.
      * congruence.
      * congruence.
Qed.

Lemma zero_accepted_calls_leave_task_processing_witness :
  Forall (fun r => r = ProcessJson
                        (Json.mkProcess processing 57 60 57 (RoundPercent 57 60)
                           None None (Some true)))
    (answers_many [echo_env 20; echo_env 30] "S" stuck_world) /\
  kv (advance_many [echo_env 20; echo_env 30] "S" stuck_world) !! "S"
    = Some (set_updatedAt 30 stuck_task) /\
  emails (advance_many [echo_env 20; echo_env 30] "S" stuck_world)
    = emails stuck_world /\
  batchTasks (advance_many [echo_env 20; echo_env 30] "S" stuck_world)
    = batchTasks stuck_world.
Proof.
  apply (zero_accepted_calls_leave_task_processing
           [echo_env 20; echo_env 30] "S" stuck_world stuck_task).
  - discriminate.
  - reflexivity.
  - reflexivity.
  - simpl. lia.
  - repeat constructor.
  - vm_compute. reflexivity.
Defined.

(** * What a call accepts and persists *)

Lemma generation_task_chunk_size env t :
  chunk_size (generation_task env t) = chunk_size t.
Proof. unfold generation_task. destruct (decide _); reflexivity. Qed.

Lemma generation_world_emails env id t w :
  emails (generation_world env id t w) = emails w.
Proof. unfold generation_world. destruct (decide _); reflexivity. Qed.

Lemma generation_world_lookup env id t w :
  kv w !! id = Some t ->
  kv (generation_world env id t w) !! id = Some (generation_task env t).
Proof.
  intros Hlook. unfold generation_world, generation_task.
  destruct (decide _); [apply lookup_insert_eq | exact Hlook].
Qed.

(** C9.  For a call that generates for a chunk of size n (the task is
    pending, or processing with addresses left): the generation makes at
    most 5 x n attempts and accepts at most n rows; the accepted addresses
    are pairwise distinct in lower case, and each was absent from the
    address table under the case-insensitive lookup; and when no store
    call rejects, whatever was accepted, be it fewer than n rows, is
    inserted into the address table, the advanced task is stored and the
    call answers 200. *)
Theorem accepted_candidates_are_unique_and_persisted env id w t l attempts :
  id <> EmptyString ->
  kv w !! id = Some t ->
  workable t ->
  generation env (generation_task env t) (generation_world env id t w)
    = Ok (l, attempts) (generation_world env id t w) ->
  Z.of_nat attempts <= Z.max 0 (5 * chunk_size t) /\
  Z.of_nat (length l) <= Z.max 0 (chunk_size t) /\
  NoDup (map lower_address l) /\
  Forall (fun r => absent_from_store w (lower_address r)) l /\
  (no_rejects env ->
   fst (Process.POST env (Some id) w)
     = chunk_answer (after_chunk env (generation_task env t) l) /\
   http_status (fst (Process.POST env (Some id) w)) = 200 /\
   emails (snd (Process.POST env (Some id) w)) = emails w ++ l /\
   kv (snd (Process.POST env (Some id) w)) !! id
     = Some (after_chunk env (generation_task env t) l)).
Proof.
  intros Hid Hlook Hwork Hg.
  destruct (generation_ok _ _ _ _ _ Hg) as ((Hnd & Hall) & Hlen & Ha).
  rewrite generation_task_chunk_size in Hlen, Ha.
  split_and!.
  - lia.
  - lia.
  - exact Hnd.
  - eapply Forall_impl; [exact Hall|]. intros r [Habs _].
    unfold absent_from_store in *. rewrite generation_world_emails in Habs.
    exact Habs.
  - intros Hno.
    destruct (POST_runs env id w t Hid Hlook Hno Hwork)
      as (l' & a' & Hg' & Hr & Hk & _ & He & _).
    rewrite Hg in Hg'. injection Hg' as <- <-.
    split_and!.
    + exact Hr.
    + rewrite Hr. reflexivity.
    + rewrite He. rewrite generation_world_emails. reflexivity.
    + rewrite Hk. apply lookup_insert_eq.
Qed.

Lemma accepted_candidates_are_unique_and_persisted_witness :
  Z.of_nat 15 <= Z.max 0 (5 * chunk_size stuck_task) /\
  Z.of_nat (length [Email.mk "a@moemail.app" 11 Process.never_expires "alice"])
    <= Z.max 0 (chunk_size stuck_task) /\
  NoDup (map lower_address
           [Email.mk "a@moemail.app" 11 Process.never_expires "alice"]) /\
  Forall (fun r => absent_from_store stuck_world (lower_address r))
    [Email.mk "a@moemail.app" 11 Process.never_expires "alice"] /\
  (no_rejects colliding_env ->
   fst (Process.POST colliding_env (Some "S") stuck_world)
     = chunk_answer
         (after_chunk colliding_env (generation_task colliding_env stuck_task)
            [Email.mk "a@moemail.app" 11 Process.never_expires "alice"]) /\
   http_status (fst (Process.POST colliding_env (Some "S") stuck_world)) = 200 /\
   emails (snd (Process.POST colliding_env (Some "S") stuck_world))
     = emails stuck_world
       ++ [Email.mk "a@moemail.app" 11 Process.never_expires "alice"] /\
   kv (snd (Process.POST colliding_env (Some "S") stuck_world)) !! "S"
     = Some (after_chunk colliding_env (generation_task colliding_env stuck_task)
               [Email.mk "a@moemail.app" 11 Process.never_expires "alice"])).
Proof.
  apply (accepted_candidates_are_unique_and_persisted colliding_env "S"
           stuck_world stuck_task
           [Email.mk "a@moemail.app" 11 Process.never_expires "alice"] 15%nat).
  - discriminate.
  - reflexivity.
  - right. split; [reflexivity | simpl; lia].
  - vm_compute. reflexivity.
Defined.

(** * Calls without collisions *)

Lemma after_chunk_fields env t l :
  processedCount t + Z.of_nat (length l) <= totalCount t ->
  processedCount (after_chunk env t l) = processedCount t + Z.of_nat (length l) /\
  createdCount (after_chunk env t l) = createdCount t + Z.of_nat (length l) /\
  totalCount (after_chunk env t l) = totalCount t /\
  domain (after_chunk env t l) = domain t /\
  status (after_chunk env t l)
    = (if totalCount t <=? processedCount t + Z.of_nat (length l)
       then completed else status t) /\
  emailList (after_chunk env t l)
    = (if 0 <? Z.of_nat (length l)
       then Some (default [] (emailList t) ++ map Email.address l)
       else emailList t).
Proof.
  intros Hle. unfold after_chunk. cbv zeta.
  destruct (0 <? Z.of_nat (length l)); simpl;
    (replace (totalCount t <? processedCount t + Z.of_nat (length l)) with false
       by (symmetry; apply Z.ltb_ge; lia));
    simpl;
    destruct (totalCount t <=? processedCount t + Z.of_nat (length l)) eqn:Hc;
    simpl; split_and!; try reflexivity;
    apply Z.leb_le in Hc; lia.
Qed.

Lemma no_collisions_ext env t t' n w w' :
  domain t' = domain t -> emails w' = emails w ->
  no_collisions env t' n w' = no_collisions env t n w.
Proof.
  intros Hd He. unfold no_collisions, lower_address, candidate. simpl.
  rewrite Hd, He. reflexivity.
Qed.

Lemma generation_task_domain env t : domain (generation_task env t) = domain t.
Proof. unfold generation_task. destruct (decide _); reflexivity. Qed.

Lemma candidate_generation_task env t k :
  candidate env (generation_task env t) k = candidate env t k.
Proof. unfold generation_task. destruct (decide _); reflexivity. Qed.

Lemma POST_fresh env id w t n :
  id <> EmptyString -> kv w !! id = Some t -> workable t -> no_rejects env ->
  chunk_size t = Z.of_nat n ->
  no_collisions env t n w = true ->
  fst (Process.POST env (Some id) w)
    = chunk_answer (after_chunk env (generation_task env t)
                      (map (candidate env t) (seq 0 n))) /\
  kv (snd (Process.POST env (Some id) w)) !! id
    = Some (after_chunk env (generation_task env t)
              (map (candidate env t) (seq 0 n))) /\
  emails (snd (Process.POST env (Some id) w))
    = emails w ++ map (candidate env t) (seq 0 n).
Proof.
  intros Hid Hlook Hwork Hno Hn Hnc.
  destruct (POST_runs env id w t Hid Hlook Hno Hwork)
    as (l & a & Hg & Hr & Hk & _ & He & _).
  rewrite (no_collisions_generation env (generation_task env t)
             (generation_world env id t w) n) in Hg.
  - injection Hg as <- <-.
    rewrite (map_ext _ _ (candidate_generation_task env t)) in *.
    split_and!.
    + exact Hr.
    + rewrite Hk. apply lookup_insert_eq.
    + rewrite He, generation_world_emails. reflexivity.
  - rewrite generation_task_chunk_size. exact Hn.
  - apply Hno.
  - rewrite <- Hnc. apply no_collisions_ext.
    + apply generation_task_domain.
    + apply generation_world_emails.
Qed.

Lemma POST_fresh_fields env id w t n :
  id <> EmptyString -> kv w !! id = Some t -> workable t -> no_rejects env ->
  chunk_size t = Z.of_nat n ->
  no_collisions env t n w = true ->
  exists t',
    fst (Process.POST env (Some id) w) = chunk_answer t' /\
    kv (snd (Process.POST env (Some id) w)) !! id = Some t' /\
    length (emails (snd (Process.POST env (Some id) w)))
      = (length (emails w) + n)%nat /\
    processedCount t' = processedCount t + Z.of_nat n /\
    createdCount t' = createdCount t + Z.of_nat n /\
    totalCount t' = totalCount t /\
    domain t' = domain t /\
    status t' = (if totalCount t <=? processedCount t + Z.of_nat n
                 then completed else processing).
Proof.
  intros Hid Hlook Hwork Hno Hn Hnc.
  destruct (POST_fresh env id w t n Hid Hlook Hwork Hno Hn Hnc) as (Hr & Hk & He).
  assert (Hg : processedCount (generation_task env t) = processedCount t /\
               createdCount (generation_task env t) = createdCount t /\
               totalCount (generation_task env t) = totalCount t /\
               status (generation_task env t) = processing).
  { unfold generation_task. destruct (decide (status t = pending)) as [Hs|Hs]; simpl.
    - auto.
    - destruct Hwork as [?|[? _]]; [contradiction|auto]. }
  destruct Hg as (Hgp & Hgc & Hgt & Hgs).
  destruct (after_chunk_fields env (generation_task env t)
              (map (candidate env t) (seq 0 n)))
    as (Hp' & Hc' & Ht' & Hd' & Hs' & _).
  { rewrite length_map, length_seq, Hgp, Hgt.
    unfold chunk_size in Hn. lia. }
  rewrite length_map, length_seq in Hp', Hc', Hs'.
  eexists. split_and!; [exact Hr | exact Hk | | | | | |].
  - rewrite He, length_app, length_map, length_seq. reflexivity.
  - rewrite Hp', Hgp. reflexivity.
  - rewrite Hc', Hgc. reflexivity.
  - rewrite Ht', Hgt. reflexivity.
  - rewrite Hd'. apply generation_task_domain.
  - rewrite Hs', Hgt, Hgp, Hgs. reflexivity.
Qed.

(** C6.  A stored pending task with totalCount 250 and counters 0, three
    calls in which no store call rejects and whose draws do not collide
    (100, 100 and 50 of them): the calls answer processed = 100, 200 and
    250, with status processing and hasMore after the first two and
    status completed after the third; the stored task ends completed with
    processedCount = createdCount = 250, and 250 rows were added to the
    address table. *)
Theorem three_calls_complete_250 env1 env2 env3 id w t :
  id <> EmptyString ->
  kv w !! id = Some t ->
  status t = pending ->
  totalCount t = 250 -> processedCount t = 0 -> createdCount t = 0 ->
  no_rejects env1 -> no_rejects env2 -> no_rejects env3 ->
  no_collisions env1 t 100 w = true ->
  no_collisions env2 t 100 (advance_many [env1] id w) = true ->
  no_collisions env3 t 50 (advance_many [env1; env2] id w) = true ->
  answers_many [env1; env2; env3] id w =
    [ProcessJson (Json.mkProcess processing 100 250 100 (RoundPercent 100 250)
                    None None (Some true));
     ProcessJson (Json.mkProcess processing 200 250 200 (RoundPercent 200 250)
                    None None (Some true));
     ProcessJson (Json.mkProcess completed 250 250 250 (RoundPercent 250 250)
                    None None (Some false))] /\
  (exists t3,
     kv (advance_many [env1; env2; env3] id w) !! id = Some t3 /\
     status t3 = completed /\ processedCount t3 = 250 /\ createdCount t3 = 250) /\
  length (emails (advance_many [env1; env2; env3] id w))
    = (length (emails w) + 250)%nat.
Proof.
  intros Hid Hlook Hs Htot Hp Hc Hno1 Hno2 Hno3 Hnc1 Hnc2 Hnc3.
  cbn [advance_many foldl answers_many] in *.
  (* first call *)
  destruct (POST_fresh_fields env1 id w t 100 Hid Hlook (or_introl Hs) Hno1)
    as (t1 & Hr1 & Hk1 & He1 & Hp1 & Hc1 & Ht1 & Hd1 & Hs1);
    [unfold chunk_size; rewrite Htot, Hp; reflexivity|exact Hnc1|].
  rewrite Hp in Hp1. rewrite Hc in Hc1. rewrite Htot in Ht1. rewrite Htot, Hp in Hs1.
  change (0 + Z.of_nat 100) with 100 in *. change (250 <=? 100) with false in Hs1.
  cbv iota in Hs1.
  (* second call *)
  set (w1 := snd (Process.POST env1 (Some id) w)) in *.
  assert (Hw1 : workable t1)
    by (right; rewrite Hs1, Hp1, Ht1; split; [reflexivity|lia]).
  destruct (POST_fresh_fields env2 id w1 t1 100 Hid Hk1 Hw1 Hno2)
    as (t2 & Hr2 & Hk2 & He2 & Hp2 & Hc2 & Ht2 & Hd2 & Hs2).
  { unfold chunk_size. rewrite Ht1, Hp1. reflexivity. }
  { rewrite <- Hnc2. apply no_collisions_ext; [exact Hd1 | reflexivity]. }
  rewrite Hp1 in Hp2. rewrite Hc1 in Hc2. rewrite Ht1 in Ht2. rewrite Ht1, Hp1 in Hs2.
  change (100 + Z.of_nat 100) with 200 in *. change (250 <=? 200) with false in Hs2.
  cbv iota in Hs2.
  (* third call *)
  set (w2 := snd (Process.POST env2 (Some id) w1)) in *.
  assert (Hw2 : workable t2)
    by (right; rewrite Hs2, Hp2, Ht2; split; [reflexivity|lia]).
  destruct (POST_fresh_fields env3 id w2 t2 50 Hid Hk2 Hw2 Hno3)
    as (t3 & Hr3 & Hk3 & He3 & Hp3 & Hc3 & Ht3 & _ & Hs3).
  { unfold chunk_size. rewrite Ht2, Hp2. reflexivity. }
  { rewrite <- Hnc3. apply no_collisions_ext; [congruence | reflexivity]. }
  rewrite Hp2 in Hp3. rewrite Hc2 in Hc3. rewrite Ht2 in Ht3. rewrite Ht2, Hp2 in Hs3.
  change (200 + Z.of_nat 50) with 250 in *. change (250 <=? 250) with true in Hs3.
  cbv iota in Hs3.
  split_and!.
  - rewrite Hr1, Hr2, Hr3. unfold chunk_answer.
    rewrite Hp1, Hc1, Ht1, Hs1, Hp2, Hc2, Ht2, Hs2, Hp3, Hc3, Ht3, Hs3.
    reflexivity.
  - exists t3. split_and!; assumption.
  - rewrite He3, He2, He1. lia.
Qed.

Lemma three_calls_complete_250_witness :
  answers_many [quiet_env 0; quiet_env 100; quiet_env 200] "T" sample_world =
    [ProcessJson (Json.mkProcess processing 100 250 100 (RoundPercent 100 250)
                    None None (Some true));
     ProcessJson (Json.mkProcess processing 200 250 200 (RoundPercent 200 250)
                    None None (Some true));
     ProcessJson (Json.mkProcess completed 250 250 250 (RoundPercent 250 250)
                    None None (Some false))] /\
  (exists t3,
     kv (advance_many [quiet_env 0; quiet_env 100; quiet_env 200] "T" sample_world)
       !! "T" = Some t3 /\
     status t3 = completed /\ processedCount t3 = 250 /\ createdCount t3 = 250) /\
  length (emails (advance_many [quiet_env 0; quiet_env 100; quiet_env 200] "T"
                    sample_world))
    = (length (emails sample_world) + 250)%nat.
Proof.
  apply (three_calls_complete_250 (quiet_env 0) (quiet_env 100) (quiet_env 200)
           "T" sample_world sample_task).
  - discriminate.
  - reflexivity.
  - reflexivity.
  - reflexivity.
  - reflexivity.
  - reflexivity.
  - repeat constructor.
  - repeat constructor.
  - repeat constructor.
  - vm_compute. reflexivity.
  - vm_compute. reflexivity.
  - vm_compute. reflexivity.
Defined.

(** * Failures *)



(** * Status transitions *)

Lemma puts_of_call_eq id w w' puts :
  kv_puts w' = kv_puts w ++ map (pair id) puts ->
  puts_of_call id w w' = puts.
Proof.
  intros H. unfold puts_of_call. rewrite H, drop_app_length. clear H.
  induction puts as [|x puts IH]; simpl; [reflexivity|].
  rewrite String.eqb_refl. simpl. f_equal. exact IH.
Qed.

Lemma after_chunk_status env t l :
  status (after_chunk env t l) = completed \/
  status (after_chunk env t l) = status t.
Proof.
  unfold after_chunk. cbv zeta.
  destruct (totalCount _ <=? processedCount _); [left; reflexivity|].
  right. destruct (totalCount _ <? processedCount _);
    destruct (0 <? Z.of_nat (length l)); reflexivity.
Qed.

Lemma call_puts_transitions env w t puts :
  Process.get_rejects env = None ->
  call_puts env w t puts ->
  chain code_transition (status t) (map status puts).
Proof.
  intros Hget Hc.
  destruct Hc as [|l Hs Hok Hlen|e Hs|Hs|l Hs Hok Hlen|e Hs]; simpl.
  - exact I.
  - split; [|exact I].
    destruct (after_chunk_status env t l) as [->| ->].
    + rewrite Hs. apply by_spec, finish.
    + apply by_spec, stay.
  - split; [|exact I]. destruct (Hs Hget) as [-> | ->].
    + apply by_spec, fail.
    + apply fail_before_pick_up.
  - rewrite Hs. split; [apply by_spec, pick_up | exact I].
  - rewrite Hs. split; [apply by_spec, pick_up|]. split; [|exact I].
    destruct (after_chunk_status env (marked_processing env t) l) as [->| ->].
    + apply by_spec, finish.
    + apply by_spec, stay.
  - rewrite Hs. split; [apply by_spec, pick_up|]. split; [|exact I].
    apply by_spec, fail.
Qed.

(** C4, as amended.  For a call of the process route on a stored task,
    when the first read of the task goes through: the statuses the call
    puts under the task's id, in order and starting from the stored
    status, move only along pending -> processing, processing ->
    completed, processing -> failed, or from pending straight to failed;
    the stored task after the call is the last of these puts; and the
    step from pending straight to failed is taken only when the put of
    the processing mark rejected.  In particular such a call never
    changes a completed or failed status, never returns a task to
    pending, and never moves a pending task straight to completed. *)
Theorem persisted_status_transitions env id w t :
  id <> EmptyString ->
  kv w !! id = Some t ->
  Process.get_rejects env = None ->
  chain code_transition (status t)
    (map status (puts_of_call id w (snd (Process.POST env (Some id) w)))) /\
  kv (snd (Process.POST env (Some id) w)) !! id
    = Some (default t (last (puts_of_call id w (snd (Process.POST env (Some id) w))))) /\
  (status t = pending ->
   map status (puts_of_call id w (snd (Process.POST env (Some id) w))) = [failed] ->
   Process.put_processing_rejects env <> None).
Proof.
  intros Hid Hlook Hget.
  destruct (POST_puts env id w t Hid Hlook) as (puts & Hc & Hp & Hk).
  rewrite (puts_of_call_eq id w _ puts Hp).
  split_and!.
  - apply (call_puts_transitions env w); assumption.
  - rewrite Hk. apply foldl_insert_lookup, Hlook.
  - intros Hs Hfailed Hput.
    rewrite POST_unfold in Hp.
    pose proof (body_spec env id w t Hid Hlook Hget) as Hb.
    destruct (Process.body env (Some id) w) as [r w'|e w'].
    + simpl in Hp.
      destruct Hb as [(-> & _ & _)|[(Hs' & _)|(_ & _ & Hd)]].
      * rewrite <- (app_nil_r (kv_puts w)) in Hp at 1.
        apply app_inv_head in Hp. destruct puts; discriminate.
      * congruence.
      * destruct Hd as (l & a & _ & _ & _ & Hp' & _). rewrite Hp' in Hp.
        unfold picked_up in Hp. simpl in Hp. rewrite <- app_assoc in Hp.
        apply app_inv_head in Hp. destruct puts as [|x [|y puts]]; try discriminate.
    + destruct Hb as [(Hs' & _)|[(_ & Hr & _)|(_ & _ & _ & Hp' & _)]];
        [congruence..|].
      destruct (on_error_spec env id e w' Hid) as (w'' & Hoe & _ & [H|H]);
        rewrite Hoe in Hp; simpl in Hp.
      * destruct H as (_ & Hp'' & _). rewrite Hp'', Hp' in Hp.
        unfold picked_up in Hp. simpl in Hp.
        apply app_inv_head in Hp. destruct puts as [|x [|y puts]]; try discriminate.
        injection Hp as <-. simpl in Hfailed. discriminate.
      * destruct H as (t0 & _ & _ & _ & _ & Hp'' & _). rewrite Hp'', Hp' in Hp.
        unfold picked_up in Hp. simpl in Hp. rewrite <- app_assoc in Hp.
        apply app_inv_head in Hp. destruct puts as [|x [|y puts]]; try discriminate.
Qed.

Lemma persisted_status_transitions_witness :
  chain code_transition (status sample_task)
    (map status
       (puts_of_call "T" sample_world
          (snd (Process.POST put_failing_env (Some "T") sample_world)))) /\
  kv (snd (Process.POST put_failing_env (Some "T") sample_world)) !! "T"
    = Some (default sample_task
              (last (puts_of_call "T" sample_world
                       (snd (Process.POST put_failing_env (Some "T") sample_world))))) /\
  (status sample_task = pending ->
   map status
     (puts_of_call "T" sample_world
        (snd (Process.POST put_failing_env (Some "T") sample_world))) = [failed] ->
   Process.put_processing_rejects put_failing_env <> None).
Proof.
  apply (persisted_status_transitions put_failing_env "T" sample_world sample_task).
  - discriminate.
  - reflexivity.
  - reflexivity.
Defined.

(** C4, as the claim states it, fails: a pending task whose processing
    mark cannot be put is moved straight to failed by the handler. *)
Lemma persisted_status_transitions_counterexample :
  ~ follows_spec_transitions put_failing_env "T" sample_world.
Proof.
  intros H. specialize (H sample_task eq_refl).
  assert (Hputs : map status
                    (puts_of_call "T" sample_world
                       (snd (Process.POST put_failing_env (Some "T") sample_world)))
                  = [failed]) by (vm_compute; reflexivity).
  rewrite Hputs in H. destruct H as [Hstep _]. inversion Hstep.
Qed.

(** Outside the amended claim: when the first read of the task rejects,
    the handler reads the task again and marks it failed whatever its
    status, here a completed one. *)
Example handler_overwrites_completed :
  kv (snd (Process.POST read_failing_env (Some "D") done_world)) !! "D"
    = Some (marked_failed read_failing_env (ErrorObj "KV get failed") done_task).
Proof. vm_compute. reflexivity. Qed.

(** The same call, field by field: the task was completed, the call
    answers 500, and afterwards both stores hold the task as failed with
    the message of the rejected read. *)
Example rejected_read_marks_completed_task_failed :
  kv done_world !! "D" = Some done_task /\
  status done_task = completed /\
  Process.get_rejects read_failing_env = Some (ErrorObj "KV get failed") /\
  fst (Process.POST read_failing_env (Some "D") done_world)
    = ErrorJson 500 "处理批量任务失败" /\
  status <$> kv (snd (Process.POST read_failing_env (Some "D") done_world)) !! "D"
    = Some failed /\
  error <$> kv (snd (Process.POST read_failing_env (Some "D") done_world)) !! "D"
    = Some (Some "KV get failed") /\
  History.status
    <$> batchTasks (snd (Process.POST read_failing_env (Some "D") done_world)) !! "D"
    = Some failed.
Proof. vm_compute. repeat split. Qed.

(** * Ownership *)

Lemma Status_GET_frame env requester id w :
  kv (snd (Status.GET env requester id w)) = kv w /\
  kv_puts (snd (Status.GET env requester id w)) = kv_puts w /\
  emails (snd (Status.GET env requester id w)) = emails w /\
  batchTasks (snd (Status.GET env requester id w)) = batchTasks w.
Proof.
  unfold Status.GET, run, Status.body, Status.on_error.
  destruct (truthy requester); munfold; [|auto].
  destruct (Status.get_rejects env); simpl; [auto|].
  destruct (kv w !! id); [|auto].
  destruct (negb _); auto.
Qed.

Lemma Download_GET_frame env requester id w :
  kv (snd (Download.GET env requester id w)) = kv w /\
  kv_puts (snd (Download.GET env requester id w)) = kv_puts w /\
  emails (snd (Download.GET env requester id w)) = emails w /\
  batchTasks (snd (Download.GET env requester id w)) = batchTasks w.
Proof.
  unfold Download.GET, run, Download.body, Download.on_error, Download.emails_findMany.
  destruct (truthy requester); munfold; [|auto].
  destruct (Download.get_rejects env); simpl; [auto|].
  destruct (kv w !! id) as [t|].
  - destruct (negb (String.eqb _ _)); [auto|].
    destruct (negb (bool_decide _)); [auto|].
    destruct (_ =? _)%nat; auto.
  - destruct (Download.history_find_rejects env); simpl; [auto|].
    destruct (batchTasks w !! id) as [row|]; [|auto].
    destruct (negb (String.eqb _ _)); [auto|].
    destruct (negb (bool_decide _)); [auto|].
    destruct (Download.emails_find_rejects env); simpl; [auto|].
    destruct (_ <? _); simpl; destruct (_ =? _)%nat; auto.
Qed.

(** C1, as amended.  A status read or a download of a stored task by an
    authenticated requester who is not the task's owner changes neither
    store, and is answered 403 when the read of the task goes through (500
    when it rejects); the answer carries no field of the task.  The
    process route takes the task id alone: its outcome is the same
    whoever asks. *)
Theorem reads_are_scoped_to_owner op requester u id w t :
  kv w !! id = Some t ->
  truthy requester = Some u ->
  u <> userId t ->
  match op with
  | status_read env =>
      fst (perform op requester id w)
        = match Status.get_rejects env with
          | Some _ => ErrorJson 500 "获取任务状态失败"
          | None => ErrorJson 403 "无权访问此任务"
          end /\
      kv (snd (perform op requester id w)) = kv w /\
      emails (snd (perform op requester id w)) = emails w /\
      batchTasks (snd (perform op requester id w)) = batchTasks w
  | download env =>
      fst (perform op requester id w)
        = match Download.get_rejects env with
          | Some _ => ErrorJson 500 "下载失败"
          | None => ErrorJson 403 "无权访问此任务"
          end /\
      kv (snd (perform op requester id w)) = kv w /\
      emails (snd (perform op requester id w)) = emails w /\
      batchTasks (snd (perform op requester id w)) = batchTasks w
  | advance env =>
      forall anyone, perform op anyone id w = perform op requester id w
  end.
Proof.
  intros Hlook Hreq Hne.
  assert (Heqb : String.eqb (userId t) u = false)
    by (apply String.eqb_neq; congruence).
  destruct op as [env|env|env].
  - destruct (Status_GET_frame env requester id w) as (Hk & _ & He & Hb).
    split; [|auto]. simpl.
    unfold Status.GET, run, Status.body, Status.on_error. rewrite Hreq. munfold.
    destruct (Status.get_rejects env); simpl; [reflexivity|].
    rewrite Hlook, Heqb. reflexivity.
  - destruct (Download_GET_frame env requester id w) as (Hk & _ & He & Hb).
    split; [|auto]. simpl.
    unfold Download.GET, run, Download.body, Download.on_error. rewrite Hreq. munfold.
    destruct (Download.get_rejects env); simpl; [reflexivity|].
    rewrite Hlook, Heqb. reflexivity.
  - intros anyone. reflexivity.
Qed.

Lemma reads_are_scoped_to_owner_witness :
  fst (perform (status_read (Status.mkEnv None)) (Some "bob") "T" sample_world)
    = ErrorJson 403 "无权访问此任务" /\
  kv (snd (perform (status_read (Status.mkEnv None)) (Some "bob") "T" sample_world))
    = kv sample_world /\
  emails (snd (perform (status_read (Status.mkEnv None)) (Some "bob") "T" sample_world))
    = emails sample_world /\
  batchTasks (snd (perform (status_read (Status.mkEnv None)) (Some "bob") "T"
                     sample_world))
    = batchTasks sample_world.
Proof.
  apply (reads_are_scoped_to_owner (status_read (Status.mkEnv None)) (Some "bob")
           "bob" "T" sample_world sample_task).
  - reflexivity.
  - reflexivity.
  - discriminate.
Defined.

(** C1, as the claim states it, fails for the process route: a call made
    for bob, who does not own task T, is answered 200 and advances the
    task. *)
Lemma reads_are_scoped_to_owner_counterexample :
  ~ owner_scoped (advance (quiet_env 0)) (Some "bob") "T" sample_world.
Proof.
  intros H.
  destruct (H sample_task "bob" eq_refl eq_refl) as [H403 _]; [discriminate|].
  vm_compute in H403. discriminate.
Qed.

(** * The threshold of the create route *)

Lemma Create_POST_checked env session u role req w :
  truthy session = Some u ->
  create_no_rejects env ->
  passes_checks env u role req w = true ->
  Create.POST env session role req w =
    match Create.dispatch env u req (Create.batchCount_of (Create.batch req)) w with
    | Ok r w' => (r, w')
    | Throw _ w' =>
        (ErrorJson 500 "创建批量任务失败",
         set_console w' (console w' ++ ["Failed to create batch task:"]))
    end.
Proof.
  intros Hs (Hj & Hd & Hm & Hc & Hp) Hchk.
  unfold passes_checks in Hchk.
  apply andb_true_iff in Hchk as [Hchk Hq].
  apply andb_true_iff in Hchk as [Hexp Hdom].
  unfold Create.POST. rewrite Hs.
  unfold run, Create.body, Create.on_error.
  unfold bind at 1. unfold await at 1. rewrite Hj. unfold ret at 1.
  rewrite Hexp. cbn [negb].
  unfold bind at 1. unfold await at 1. rewrite Hd. unfold ret at 1.
  rewrite Hdom. cbn [negb].
  unfold bind at 1.
  pose proof (quota_rejected_spec env u role
                (Create.batchCount_of (Create.batch req)) w) as Hqs.
  destruct (Create.quota_rejected _ _ _ _ _) as [b w1|e w1].
  - destruct Hqs as (-> & Hb).
    assert (b = None) as ->.
    { apply Hb. destruct role; [exact I|]. apply negb_true_iff, Hq. }
    destruct (Create.dispatch _ _ _ _ _); reflexivity.
  - exfalso. destruct Hqs as (_ & [H|H]); congruence.
Qed.

(** C5, as amended.  For an authenticated request that passes the checks
    on expiry time, domain and quota, and with no store call rejecting:
    the create route answers 400, pointing to the synchronous route and
    leaving the world as it was, exactly when the requested count is at
    most 50; for every count above 50 it stores a task with status
    pending, counters 0 and the requested totalCount under the drawn id,
    and answers with that id and status pending. *)
Theorem create_rejects_at_or_below_threshold env session u role req w :
  truthy session = Some u ->
  create_no_rejects env ->
  passes_checks env u role req w = true ->
  (http_status (fst (Create.POST env session role req w)) = 400 <->
   Create.batchCount_of (Create.batch req) <= 50) /\
  (Create.batchCount_of (Create.batch req) <= 50 ->
   Create.POST env session role req w
     = (ErrorJson 400 "请使用 /api/emails/generate 接口进行小批量创建（≤50）", w)) /\
  (50 < Create.batchCount_of (Create.batch req) ->
   fst (Create.POST env session role req w)
     = CreatedJson (Create.nanoid16 env) pending
         "批量创建任务已启动，请使用任务ID查询进度" /\
   kv (snd (Create.POST env session role req w)) !! Create.nanoid16 env
     = Some (mkBatchTask (Create.nanoid16 env) u (Create.domain req)
               (Create.expiryTime req) (Create.batchCount_of (Create.batch req))
               0 0 pending None (Create.now env) (Create.now env) None)).
Proof.
  intros Hs Hno Hchk.
  rewrite (Create_POST_checked env session u role req w Hs Hno Hchk).
  pose proof (dispatch_spec env u req w) as Hd.
  destruct Hno as (_ & _ & _ & _ & Hput).
  unfold Create.ASYNC_THRESHOLD in Hd.
  destruct (Create.dispatch _ _ _ _ _) as [r w'|e w'].
  - destruct Hd as [(Hth & _ & -> & Hk)|(Hth & -> & ->)].
    + split_and!.
      * simpl. split; [discriminate | lia].
      * lia.
      * intros _. split; [reflexivity|]. simpl. rewrite Hk. apply lookup_insert_eq.
    + split_and!.
      * simpl. split; auto.
      * reflexivity.
      * lia.
  - destruct Hd as (_ & Hr & _). congruence.
Qed.

Lemma create_rejects_at_or_below_threshold_witness :
  (http_status (fst (Create.POST create_env (Some "alice") Create.EMPEROR request_51
                       empty_world)) = 400 <->
   Create.batchCount_of (Create.batch request_51) <= 50) /\
  (Create.batchCount_of (Create.batch request_51) <= 50 ->
   Create.POST create_env (Some "alice") Create.EMPEROR request_51 empty_world
     = (ErrorJson 400 "请使用 /api/emails/generate 接口进行小批量创建（≤50）",
        empty_world)) /\
  (50 < Create.batchCount_of (Create.batch request_51) ->
   fst (Create.POST create_env (Some "alice") Create.EMPEROR request_51 empty_world)
     = CreatedJson (Create.nanoid16 create_env) pending
         "批量创建任务已启动，请使用任务ID查询进度" /\
   kv (snd (Create.POST create_env (Some "alice") Create.EMPEROR request_51
              empty_world)) !! Create.nanoid16 create_env
     = Some (mkBatchTask (Create.nanoid16 create_env) "alice"
               (Create.domain request_51) (Create.expiryTime request_51)
               (Create.batchCount_of (Create.batch request_51))
               0 0 pending None (Create.now create_env) (Create.now create_env)
               None)).
Proof.
  apply (create_rejects_at_or_below_threshold create_env (Some "alice") "alice"
           Create.EMPEROR request_51 empty_world).
  - reflexivity.
  - repeat split.
  - vm_compute. reflexivity.
Defined.

(** C5, as the claim states it, fails at the threshold itself: a request
    for exactly 50 addresses that passes every check is answered 400 and
    no task is stored. *)
Lemma create_rejects_at_or_below_threshold_counterexample :
  ~ rejects_below_threshold create_env (Some "alice") Create.EMPEROR request_50
      empty_world.
Proof.
  intros H.
  destruct (H "alice" eq_refl) as [_ Hcreated].
  - repeat split.
  - vm_compute. reflexivity.
  - destruct Hcreated as (id & message & t & Hanswer & _); [simpl; lia|].
    vm_compute in Hanswer. discriminate.
Qed.

(** * The address list of a task *)

Lemma after_chunk_list env t l :
  createdCount (after_chunk env t l) = createdCount t + Z.of_nat (length l) /\
  domain (after_chunk env t l) = domain t /\
  emailList (after_chunk env t l)
    = (if 0 <? Z.of_nat (length l)
       then Some (default [] (emailList t) ++ map Email.address l)
       else emailList t).
Proof.
  unfold after_chunk. cbv zeta.
  destruct (totalCount _ <=? processedCount _);
    destruct (totalCount _ <? processedCount _);
    destruct (0 <? Z.of_nat (length l)); simpl; auto.
Qed.

Lemma after_chunk_list_ok env t w l :
  list_ok t -> accepted_ok env t w l -> list_ok (after_chunk env t l).
Proof.
  intros [Hlen Hall] [_ Hok]. unfold list_ok.
  destruct (after_chunk_list env t l) as (-> & -> & ->).
  destruct (0 <? Z.of_nat (length l)) eqn:Hpos.
  - simpl. split.
    + rewrite length_app, length_map. lia.
    + apply Forall_app. split; [exact Hall|].
      apply Forall_fmap. eapply Forall_impl; [exact Hok|].
      intros r (_ & k & ->). simpl. apply endsWith_append.
  - apply Z.ltb_ge in Hpos. split; [lia | exact Hall].
Qed.

Lemma call_puts_list_ok env w t puts :
  list_ok t -> call_puts env w t puts -> Forall list_ok puts.
Proof.
  intros Ht Hc.
  destruct Hc as [|l Hs Hok Hlen|e Hs|Hs|l Hs Hok Hlen|e Hs];
    repeat match goal with |- Forall _ _ => constructor end;
    try exact Ht;
    try (apply (after_chunk_list_ok env _ w); [exact Ht | exact Hok]).
Qed.

(** * The download route *)

Lemma elem_of_insert_by_createdAt x r l :
  x ∈ Download.insert_by_createdAt r l <-> x = r \/ x ∈ l.
Proof.
  induction l as [|y l IH]; simpl.
  - rewrite list_elem_of_singleton. rewrite elem_of_nil. tauto.
  - destruct (Email.createdAt r <=? Email.createdAt y).
    + rewrite elem_of_cons. reflexivity.
    + rewrite !elem_of_cons, IH. tauto.
Qed.

Lemma elem_of_order_by_createdAt x l :
  x ∈ Download.order_by_createdAt l <-> x ∈ l.
Proof.
  unfold Download.order_by_createdAt. induction l as [|y l IH]; simpl.
  - reflexivity.
  - rewrite elem_of_insert_by_createdAt, elem_of_cons, IH. reflexivity.
Qed.

Lemma elem_of_take_weak {A} (x : A) n l : x ∈ take n l -> x ∈ l.
Proof.
  intros H. rewrite <- (take_drop n l). apply elem_of_app. left. exact H.
Qed.

Lemma fallback_rows_spec w u record r :
  r ∈ fallback_rows w u record ->
  r ∈ emails w /\ Email.userId r = u /\ History.createdAt record <= Email.createdAt r.
Proof.
  unfold fallback_rows, Download.sql_limit. intros H.
  assert (H' : r ∈ Download.order_by_createdAt
                     (List.filter
                        (fun r => (String.eqb (Email.userId r) u
                                   && (History.createdAt record <=? Email.createdAt r))%bool)
                        (emails w))).
  { destruct (_ <? 0); [exact H | apply (elem_of_take_weak _ _ _ H)]. }
  rewrite elem_of_order_by_createdAt in H'.
  apply list_elem_of_In, filter_In in H' as [Hin Hf].
  apply andb_true_iff in Hf as [Hu Hc].
  apply String.eqb_eq in Hu. apply Z.leb_le in Hc.
  split_and!; auto. apply list_elem_of_In, Hin.
Qed.

Lemma matchingEmails_spec rows domain' n :
  Forall (fun a => exists r, r ∈ rows /\ Email.address r = a /\
                     endsWith a ("@" +:+ domain') = true)
    (Download.matchingEmails rows domain' n) /\
  (0 <= n -> Z.of_nat (length (Download.matchingEmails rows domain' n)) <= n).
Proof.
  unfold Download.matchingEmails, Download.slice0. split.
  - apply Forall_fmap, Forall_forall. intros r Hr. simpl.
    assert (Hf : r ∈ List.filter
                       (fun r => endsWith (Email.address r) ("@" +:+ domain')) rows)
      by (destruct (n <? 0); apply (elem_of_take_weak _ _ _ Hr)).
    apply list_elem_of_In, filter_In in Hf as [Hin He].
    exists r. split_and!; auto. apply list_elem_of_In, Hin.
  - intros Hn. replace (n <? 0) with false by (symmetry; apply Z.ltb_ge; lia).
    rewrite length_map, length_take. lia.
Qed.

Lemma Download_ephemeral env u id w t :
  u <> EmptyString -> kv w !! id = Some t -> Download.get_rejects env = None ->
  Download.GET env (Some u) id w =
    (if negb (String.eqb (userId t) u) then ErrorJson 403 "无权访问此任务"
     else if negb (bool_decide (status t = completed)) then ErrorJson 400 "任务尚未完成"
     else if (length (default [] (emailList t)) =? 0)%nat
          then ErrorJson 400 "没有可下载的邮箱地址"
          else TextFile (join_lines (default [] (emailList t)))
                 ("emails-" +:+ id +:+ ".txt"),
     w).
Proof.
  intros Hu Hlook Hget.
  unfold Download.GET, run, Download.body. rewrite (truthy_some u Hu). munfold.
  rewrite Hget. simpl. rewrite Hlook.
  destruct (negb (String.eqb _ _)); [reflexivity|].
  destruct (negb (bool_decide _)); [reflexivity|].
  destruct (_ =? _)%nat; reflexivity.
Qed.

Lemma Download_fallback env u id w record :
  u <> EmptyString -> kv w !! id = None -> batchTasks w !! id = Some record ->
  Download.get_rejects env = None -> Download.history_find_rejects env = None ->
  fst (Download.GET env (Some u) id w) =
    if negb (String.eqb (History.userId record) u) then ErrorJson 403 "无权访问此任务"
    else if negb (bool_decide (History.status record = completed))
    then ErrorJson 400 "任务尚未完成"
    else match Download.emails_find_rejects env with
         | Some _ => ErrorJson 500 "下载失败"
         | None =>
             if (length (Download.matchingEmails (fallback_rows w u record)
                           (History.domain record) (History.createdCount record))
                 =? 0)%nat
             then ErrorJson 400 "没有可下载的邮箱地址"
             else TextFile
                    (join_lines
                       (Download.matchingEmails (fallback_rows w u record)
                          (History.domain record) (History.createdCount record)))
                    ("emails-" +:+ id +:+ ".txt")
         end.
Proof.
  intros Hu Hlook Hrec Hget Hfind.
  unfold Download.GET, run, Download.body, Download.on_error, Download.emails_findMany.
  rewrite (truthy_some u Hu). munfold.
  rewrite Hget. simpl. rewrite Hlook, Hfind. simpl. rewrite Hrec.
  destruct (negb (String.eqb _ _)); [reflexivity|].
  destruct (negb (bool_decide _)); [reflexivity|].
  destruct (Download.emails_find_rejects env); [reflexivity|].
  fold (fallback_rows w u record).
  destruct (_ <? _); simpl; destruct (_ =? _)%nat; reflexivity.
Qed.


(** * What a call of the process route can change *)

Lemma truthy_Some_cases id :
  truthy (Some id) = None \/ truthy (Some id) = Some id.
Proof. destruct id; auto. Qed.

Lemma truthy_inv s id : truthy s = Some id -> s = Some id /\ id <> EmptyString.
Proof.
  destruct s as [[|c r]|]; simpl; intros H; try discriminate.
  injection H as <-. split; [reflexivity | discriminate].
Qed.

Section Footprint.
Context (id : string) (Q : Email.row -> Prop) (R : World -> World -> Prop).
Context (HR : footprint id Q R).

Lemma keeps_ret {A} (a : A) (P : A -> Prop) : P a -> keeps R (ret a) P.
Proof.
  intros Ha w. split; [apply (fp_refl _ _ _ HR)|].
  intros a' w' H. injection H as <- _. exact Ha.
Qed.

Lemma keeps_throw {A} e (P : A -> Prop) : keeps R (throw e) P.
Proof. intros w. split; [apply (fp_refl _ _ _ HR) | discriminate]. Qed.

Lemma keeps_bind {A B} (c : M A) (k : A -> M B) (P : A -> Prop) (P' : B -> Prop) :
  keeps R c P -> (forall a, P a -> keeps R (k a) P') -> keeps R (bind c k) P'.
Proof.
  intros Hc Hk w. unfold bind. destruct (Hc w) as [Hw Hp].
  destruct (c w) as [a w1|e w1]; simpl in *.
  - destruct (Hk a (Hp a w1 eq_refl) w1) as [Hw1 Hp1]. split.
    + apply (fp_trans _ _ _ HR _ _ _ Hw Hw1).
    + exact Hp1.
  - split; [exact Hw | discriminate].
Qed.

Lemma keeps_try_catch {A} (c : M A) (h : Thrown -> M A) (P : A -> Prop) :
  keeps R c P -> (forall e, keeps R (h e) P) -> keeps R (try_catch c h) P.
Proof.
  intros Hc Hh w. unfold try_catch. destruct (Hc w) as [Hw Hp].
  destruct (c w) as [a w1|e w1]; simpl in *.
  - split; [exact Hw|]. intros a' w' H. injection H as <- <-. apply (Hp a w1 eq_refl).
  - destruct (Hh e w1) as [Hw1 Hp1]. split.
    + apply (fp_trans _ _ _ HR _ _ _ Hw Hw1).
    + exact Hp1.
Qed.

Lemma keeps_weaken {A} (c : M A) (P P' : A -> Prop) :
  keeps R c P -> (forall a, P a -> P' a) -> keeps R c P'.
Proof.
  intros Hc Hi w. destruct (Hc w) as [Hw Hp]. split; [exact Hw|].
  intros a w' H. apply Hi, (Hp a w' H).
Qed.

Lemma keeps_await {A} fault (c : M A) (P : A -> Prop) :
  keeps R c P -> keeps R (await fault c) P.
Proof. intros Hc. destruct fault; [apply keeps_throw | exact Hc]. Qed.

Lemma keeps_console_log line : keeps R (console_log line) (fun _ => True).
Proof. intros w. split; [apply (fp_console _ _ _ HR) | auto]. Qed.

Lemma keeps_get fault id' : keeps R (SITE_CONFIG_get fault id') (fun _ => True).
Proof.
  apply keeps_await. intros w. split; [apply (fp_refl _ _ _ HR) | auto].
Qed.

Lemma keeps_put fault t : keeps R (SITE_CONFIG_put fault id t) (fun _ => True).
Proof.
  apply keeps_await. intros w. split; [apply (fp_put _ _ _ HR) | auto].
Qed.

Lemma keeps_findFirst fault a : keeps R (emails_findFirst fault a) (fun _ => True).
Proof.
  apply keeps_await. intros w. split; [apply (fp_refl _ _ _ HR) | auto].
Qed.

Lemma keeps_insert fault batch :
  Forall Q batch -> keeps R (emails_insert fault batch) (fun _ => True).
Proof.
  intros Hb. apply keeps_await. intros w. split; [|auto].
  destruct (unique_ok _ _); simpl;
    [apply (fp_insert _ _ _ HR), Hb | apply (fp_refl _ _ _ HR)].
Qed.

Lemma keeps_history_find fault : keeps R (batchTasks_findFirst fault id) (fun _ => True).
Proof.
  apply keeps_await. intros w. split; [apply (fp_refl _ _ _ HR) | auto].
Qed.

Lemma keeps_history_update fault f :
  keeps R (batchTasks_update fault id f) (fun _ => True).
Proof.
  apply keeps_await. intros w. split; [apply (fp_record_update _ _ _ HR) | auto].
Qed.

Lemma keeps_history_insert fault r :
  keeps R (batchTasks_insert fault id r) (fun _ => True).
Proof.
  apply keeps_await. intros w. split; [|auto].
  destruct (batchTasks w !! id); simpl;
    [apply (fp_refl _ _ _ HR) | apply (fp_record_insert _ _ _ HR)].
Qed.

Lemma generate_keeps env task n budget : forall attempts l (set : gset string),
  (forall k, Q (candidate env task k)) -> Forall Q l ->
  keeps R
    (Process.generate env task n (Process.now_generate env)
       (if expiryTime task =? 0 then Process.never_expires
        else Process.now_generate env + expiryTime task)
       budget attempts l set)
    (fun p => Forall Q (fst p)).
Proof.
  induction budget as [|b IH]; intros attempts l set HQ Hl; cbn [Process.generate].
  - apply keeps_ret. exact Hl.
  - destruct (Z.of_nat (length l) <? n); [|apply keeps_ret; exact Hl].
    case_bool_decide; [apply IH; assumption|].
    eapply keeps_bind; [apply keeps_findFirst|].
    intros [r|] _; apply IH; auto.
    apply Forall_app. split; [exact Hl|]. constructor; [|constructor].
    apply (HQ attempts).
Qed.

Lemma insert_batches_keeps env fuel : forall k rest created addrs,
  Forall Q rest ->
  keeps R (Process.insert_batches env fuel k rest created addrs) (fun _ => True).
Proof.
  induction fuel as [|f IH]; intros k rest created addrs Hrest;
    cbn [Process.insert_batches].
  - apply keeps_ret. exact I.
  - destruct rest as [|r rest]; [apply keeps_ret; exact I|].
    set (rest0 := r :: rest) in *.
    eapply keeps_bind; [apply keeps_insert, Forall_take, Hrest|].
    intros res _. apply IH. apply Forall_drop, Hrest.
Qed.

Lemma save_completed_keeps env task :
  keeps R (Process.save_completed env id task) (fun _ => True).
Proof.
  unfold Process.save_completed. apply keeps_try_catch.
  - eapply keeps_bind; [apply keeps_history_find|].
    intros [r|] _; [apply keeps_history_update | apply keeps_history_insert].
  - intros e. apply keeps_console_log.
Qed.

Lemma save_failed_keeps env task :
  keeps R (Process.save_failed env id task) (fun _ => True).
Proof.
  unfold Process.save_failed. apply keeps_try_catch.
  - eapply keeps_bind; [apply keeps_history_find|].
    intros [r|] _; [apply keeps_history_update | apply keeps_history_insert].
  - intros e. apply keeps_console_log.
Qed.

Lemma process_chunk_keeps env task :
  (forall k, Q (candidate env task k)) ->
  keeps R (Process.process_chunk env id task) (fun _ => True).
Proof.
  intros HQ. unfold Process.process_chunk. cbv zeta.
  eapply keeps_bind; [apply generate_keeps; [exact HQ | constructor]|].
  intros [l a] Hl. simpl in Hl.
  apply keeps_bind with (P := fun _ => True).
  { destruct (_ && _)%bool; [apply keeps_console_log | apply keeps_ret; exact I]. }
  intros _ _.
  apply keeps_bind with (P := fun _ => True).
  { destruct (0 <? _).
    - apply keeps_try_catch; [apply insert_batches_keeps, Hl|].
      intros e. eapply keeps_bind; [apply keeps_console_log|].
      intros _ _. apply keeps_throw.
    - apply keeps_ret. exact I. }
  intros [created addrs] _.
  apply keeps_bind with (P := fun _ => True).
  { destruct (totalCount _ <=? processedCount _).
    - eapply keeps_bind; [apply save_completed_keeps|].
      intros _ _. apply keeps_ret. exact I.
    - apply keeps_ret. exact I. }
  intros t' _.
  apply keeps_bind with (P := fun _ => True).
  { destruct (Process.size_over_20MB env);
      [apply keeps_console_log | apply keeps_ret; exact I]. }
  intros _ _.
  eapply keeps_bind; [apply keeps_put|].
  intros _ _. apply keeps_ret. exact I.
Qed.

Lemma on_error_keeps env e :
  keeps R (Process.on_error env (Some id) e) (fun _ => True).
Proof.
  unfold Process.on_error.
  eapply keeps_bind; [apply keeps_console_log|]. intros _ _.
  apply keeps_bind with (P := fun _ => True).
  { apply keeps_try_catch; [|intros e'; apply keeps_console_log].
    destruct (truthy_Some_cases id) as [E|E]; rewrite E;
      [apply keeps_ret; exact I|].
    eapply keeps_bind; [apply keeps_get|].
    intros [t|] _; [|apply keeps_ret; exact I].
    eapply keeps_bind; [apply keeps_put|].
    intros _ _. apply save_failed_keeps. }
  intros _ _. apply keeps_ret. exact I.
Qed.

Lemma body_keeps env w :
  (forall t, kv w !! id = Some t -> forall k, Q (candidate env t k)) ->
  R w (final_world (Process.body env (Some id) w)).
Proof.
  intros HQ. unfold Process.body.
  destruct (truthy_Some_cases id) as [E|E]; rewrite E;
    [apply (fp_refl _ _ _ HR)|].
  unfold bind at 1. unfold SITE_CONFIG_get, await.
  destruct (Process.get_rejects env); [apply (fp_refl _ _ _ HR)|].
  destruct (kv w !! id) as [t|] eqn:Hlook; [|apply (fp_refl _ _ _ HR)].
  specialize (HQ t eq_refl).
  destruct (decide (status t = completed)); [apply (fp_refl _ _ _ HR)|].
  destruct (decide (status t = failed)); [apply (fp_refl _ _ _ HR)|].
  destruct (_ && _)%bool; [apply (process_chunk_keeps env t HQ w)|].
  destruct (decide (status t = pending)); [|apply (fp_refl _ _ _ HR)].
  refine (proj1 (keeps_bind _ _ (fun _ => True) (fun _ => True) _ _ w)).
  - apply keeps_put.
  - intros _ _. apply process_chunk_keeps. exact HQ.
Qed.

Lemma POST_footprint env w :
  (forall t, kv w !! id = Some t -> forall k, Q (candidate env t k)) ->
  R w (snd (Process.POST env (Some id) w)).
Proof.
  intros HQ. unfold Process.POST, run.
  pose proof (body_keeps env w HQ) as Hb.
  destruct (Process.body env (Some id) w) as [r w1|e w1]; simpl in *; [exact Hb|].
  pose proof (proj1 (on_error_keeps env e w1)) as Hh.
  destruct (Process.on_error env (Some id) e w1) as [r w2|e2 w2]; simpl in *;
    apply (fp_trans _ _ _ HR _ _ _ Hb Hh).
Qed.

End Footprint.

Lemma footprint_elsewhere id : footprint id (fun _ => True) (elsewhere_unchanged id).
Proof.
  split.
  - intros w. split; [auto|]. exists []. rewrite app_nil_r. reflexivity.
  - intros a b c [Hab [l1 H1]] [Hbc [l2 H2]]. split.
    + intros id' Hne. destruct (Hab id' Hne), (Hbc id' Hne). split; congruence.
    + exists (l1 ++ l2). rewrite H2, H1, app_assoc. reflexivity.
  - intros w l. split; [auto|]. exists []. simpl. rewrite app_nil_r. reflexivity.
  - intros w t tr. split.
    + intros id' Hne. simpl. rewrite lookup_insert_ne by congruence. auto.
    + exists []. simpl. rewrite app_nil_r. reflexivity.
  - intros w batch _. split; [auto|]. exists batch. reflexivity.
  - intros w r. split.
    + intros id' Hne. simpl. rewrite lookup_insert_ne by congruence. auto.
    + exists []. simpl. rewrite app_nil_r. reflexivity.
  - intros w f. split.
    + intros id' Hne. simpl. rewrite lookup_alter_ne by congruence. auto.
    + exists []. simpl. rewrite app_nil_r. reflexivity.
Qed.

Lemma footprint_appended id Q : footprint id Q (appended Q).
Proof.
  split.
  - intros w. exists []. rewrite app_nil_r. split; [reflexivity | constructor].
  - intros a b c (l1 & H1 & Q1) (l2 & H2 & Q2). exists (l1 ++ l2).
    split; [rewrite H2, H1, app_assoc; reflexivity | apply Forall_app; auto].
  - intros w l. exists []. simpl. rewrite app_nil_r. split; [reflexivity | constructor].
  - intros w t tr. exists []. simpl. rewrite app_nil_r. split; [reflexivity | constructor].
  - intros w batch Hb. exists batch. auto.
  - intros w r. exists []. simpl. rewrite app_nil_r. split; [reflexivity | constructor].
  - intros w f. exists []. simpl. rewrite app_nil_r. split; [reflexivity | constructor].
Qed.

Lemma candidate_task_row env t k : task_row env t (candidate env t k).
Proof.
  unfold task_row, candidate. simpl. split_and!; auto.
  apply endsWith_append.
Qed.

(** X1.  A call of the process route leaves every other task alone: the
    ephemeral task and the permanent row under any id other than the one
    it was called with are what they were, whatever the call does and
    whichever of its store calls reject. *)
Theorem advance_leaves_other_tasks_alone env id w id' :
  id' <> id ->
  kv (snd (Process.POST env (Some id) w)) !! id' = kv w !! id' /\
  batchTasks (snd (Process.POST env (Some id) w)) !! id' = batchTasks w !! id'.
Proof.
  intros Hne.
  destruct (POST_footprint id _ _ (footprint_elsewhere id) env w) as [H _]; [auto|].
  apply (H id' Hne).
Qed.

Lemma advance_leaves_other_tasks_alone_witness :
  kv (snd (Process.POST (quiet_env 0) (Some "T") two_task_world)) !! "S"
    = kv two_task_world !! "S" /\
  batchTasks (snd (Process.POST (quiet_env 0) (Some "T") two_task_world)) !! "S"
    = batchTasks two_task_world !! "S".
Proof.
  apply (advance_leaves_other_tasks_alone (quiet_env 0) "T" two_task_world "S").
  discriminate.
Defined.

(** X2.  A call of the process route never removes or rewrites a row of
    the address table: the table after the call is the table before it
    followed by the rows the call inserted.  Without a stored task there
    are none; with one, each of them belongs to the task's owner, has an
    address of the task's domain, is stamped with the request's clock
    reading and expires never (expiryTime 0) or expiryTime later.  This
    holds on every path, the failing ones included. *)
Theorem advance_only_appends_rows_of_the_task env id w :
  exists l,
    emails (snd (Process.POST env (Some id) w)) = emails w ++ l /\
    (kv w !! id = None -> l = []) /\
    (forall t, kv w !! id = Some t -> Forall (task_row env t) l).
Proof.
  destruct (POST_footprint id _ _
              (footprint_appended id
                 (fun r => kv w !! id <> None /\
                           forall t, kv w !! id = Some t -> task_row env t r))
              env w) as (l & Hl & HQ).
  { intros t Ht k. split; [congruence|]. intros t' Ht'.
    rewrite Ht in Ht'. injection Ht' as <-. apply candidate_task_row. }
  exists l. split; [exact Hl|]. split.
  - intros Hnone. destruct l as [|r l]; [reflexivity|].
    apply Forall_cons in HQ as [[Hne _] _]. contradiction.
  - intros t Ht. eapply Forall_impl; [exact HQ|]. intros r [_ Hr]. apply Hr, Ht.
Qed.

(** * Calls that find no task *)

(** X3.  The process route without a task to work on.  A request whose
    taskId parameter is missing or empty is answered 400 and changes
    nothing at all.  A request for an id under which no task is stored is
    answered 404 when the read goes through and 500 when it rejects; in
    both cases no task, no address and no permanent row is written (the
    failure handler finds nothing to mark as failed). *)
Theorem advance_without_task_writes_nothing env tid w :
  (truthy tid = None ->
   Process.POST env tid w = (ErrorJson 400 "任务ID不能为空", w)) /\
  (forall id, truthy tid = Some id -> kv w !! id = None ->
     fst (Process.POST env tid w)
       = match Process.get_rejects env with
         | None => ErrorJson 404 "任务不存在或已过期"
         | Some _ => ErrorJson 500 "处理批量任务失败"
         end /\
     kv (snd (Process.POST env tid w)) = kv w /\
     kv_puts (snd (Process.POST env tid w)) = kv_puts w /\
     emails (snd (Process.POST env tid w)) = emails w /\
     batchTasks (snd (Process.POST env tid w)) = batchTasks w).
Proof.
  split.
  - intros H. unfold Process.POST, run, Process.body. rewrite H. reflexivity.
  - intros id H Hlook. apply truthy_inv in H as [-> Hid].
    rewrite POST_unfold. unfold Process.body. rewrite (truthy_some id Hid).
    unfold bind, SITE_CONFIG_get, await.
    destruct (Process.get_rejects env) as [e|].
    + unfold throw.
      destruct (on_error_spec env id e w Hid) as (w' & -> & He & [H|H]); simpl.
      * destruct H as (Hk & Hp & Hb & _). auto.
      * destruct H as (t0 & Ht0 & _). congruence.
    + rewrite Hlook. unfold ret. simpl. auto.
Qed.

Lemma advance_without_task_writes_nothing_witness :
  fst (Process.POST read_failing_env (Some "nobody") sample_world)
    = ErrorJson 500 "处理批量任务失败" /\
  kv (snd (Process.POST read_failing_env (Some "nobody") sample_world))
    = kv sample_world /\
  kv_puts (snd (Process.POST read_failing_env (Some "nobody") sample_world))
    = kv_puts sample_world /\
  emails (snd (Process.POST read_failing_env (Some "nobody") sample_world))
    = emails sample_world /\
  batchTasks (snd (Process.POST read_failing_env (Some "nobody") sample_world))
    = batchTasks sample_world.
Proof.
  apply (proj2 (advance_without_task_writes_nothing read_failing_env (Some "nobody")
                  sample_world) "nobody"); reflexivity.
Defined.

(** * The answer of a call and the next status read *)

Lemma POST_answer_stored env id w b :
  id <> EmptyString ->
  fst (Process.POST env (Some id) w) = ProcessJson b ->
  exists t',
    kv (snd (Process.POST env (Some id) w)) !! id = Some t' /\
    Json.status b = status t' /\
    Json.processed b = processedCount t' /\
    Json.total b = totalCount t' /\
    Json.created b = createdCount t'.
Proof.
  intros Hid. rewrite POST_unfold.
  destruct (Process.get_rejects env) as [e0|] eqn:Hget.
  { assert (Hb : Process.body env (Some id) w = Throw e0 w).
    { unfold Process.body. rewrite (truthy_some id Hid).
      unfold bind, SITE_CONFIG_get, await. rewrite Hget. reflexivity. }
    rewrite Hb. destruct (on_error_spec env id e0 w Hid) as (w' & -> & _).
    simpl. discriminate. }
  destruct (kv w !! id) as [t|] eqn:Hlook.
  2:{ unfold Process.body. rewrite (truthy_some id Hid).
      unfold bind, SITE_CONFIG_get, await. rewrite Hget, Hlook. simpl. discriminate. }
  pose proof (body_spec env id w t Hid Hlook Hget) as Hb.
  destruct (Process.body env (Some id) w) as [r w'|e w'].
  - simpl. intros ->.
    destruct Hb as [(-> & (b' & Hb' & Hs) & _)|[(_ & _ & Hd)|(_ & _ & Hd)]].
    + injection Hb' as <-. exists t. split; [exact Hlook|]. tauto.
    + destruct Hd as (l & a & _ & Hr & Hk & _). injection Hr as ->.
      eexists. split; [rewrite Hk; apply lookup_insert_eq|]. simpl. auto.
    + destruct Hd as (l & a & _ & Hr & Hk & _). injection Hr as ->.
      eexists. split; [rewrite Hk; apply lookup_insert_eq|]. simpl. auto.
  - destruct (on_error_spec env id e w' Hid) as (w'' & -> & _). simpl. discriminate.
Qed.

(** X4.  What a call of the process route answers is what is stored: when
    the call answers 200, the task under the id afterwards has the status,
    processed, total and created values of the answer, and a status read
    by the task's owner right after the call reports the same four
    values. *)
Theorem status_read_agrees_with_advance env senv id w b :
  id <> EmptyString ->
  fst (Process.POST env (Some id) w) = ProcessJson b ->
  exists t',
    kv (snd (Process.POST env (Some id) w)) !! id = Some t' /\
    Json.status b = status t' /\
    Json.processed b = processedCount t' /\
    Json.total b = totalCount t' /\
    Json.created b = createdCount t' /\
    (userId t' <> EmptyString -> Status.get_rejects senv = None ->
     exists s,
       Status.GET senv (Some (userId t')) id (snd (Process.POST env (Some id) w))
         = (StatusJson s, snd (Process.POST env (Some id) w)) /\
       Json.s_status s = Json.status b /\
       Json.s_processedCount s = Json.processed b /\
       Json.s_totalCount s = Json.total b /\
       Json.s_createdCount s = Json.created b).
Proof.
  intros Hid Hb.
  destruct (POST_answer_stored env id w b Hid Hb) as (t' & Hk & Hs & Hp & Ht & Hc).
  exists t'. split_and!; auto.
  intros Hu Hget.
  unfold Status.GET, run, Status.body. rewrite (truthy_some _ Hu).
  unfold bind, SITE_CONFIG_get, await. rewrite Hget, Hk, String.eqb_refl. simpl.
  eexists. split; [reflexivity|]. simpl. auto.
Qed.

Lemma status_read_agrees_with_advance_witness :
  exists t',
    kv (snd (Process.POST colliding_env (Some "S") stuck_world)) !! "S" = Some t' /\
    Json.status (Json.mkProcess processing 58 60 58 (RoundPercent 58 60) None None
                   (Some true)) = status t' /\
    Json.processed (Json.mkProcess processing 58 60 58 (RoundPercent 58 60) None None
                      (Some true)) = processedCount t' /\
    Json.total (Json.mkProcess processing 58 60 58 (RoundPercent 58 60) None None
                  (Some true)) = totalCount t' /\
    Json.created (Json.mkProcess processing 58 60 58 (RoundPercent 58 60) None None
                    (Some true)) = createdCount t' /\
    (userId t' <> EmptyString -> Status.get_rejects (Status.mkEnv None) = None ->
     exists s,
       Status.GET (Status.mkEnv None) (Some (userId t')) "S"
           (snd (Process.POST colliding_env (Some "S") stuck_world))
         = (StatusJson s, snd (Process.POST colliding_env (Some "S") stuck_world)) /\
       Json.s_status s
         = Json.status (Json.mkProcess processing 58 60 58 (RoundPercent 58 60) None
                          None (Some true)) /\
       Json.s_processedCount s
         = Json.processed (Json.mkProcess processing 58 60 58 (RoundPercent 58 60)
                             None None (Some true)) /\
       Json.s_totalCount s
         = Json.total (Json.mkProcess processing 58 60 58 (RoundPercent 58 60) None
                         None (Some true)) /\
       Json.s_createdCount s
         = Json.created (Json.mkProcess processing 58 60 58 (RoundPercent 58 60) None
                           None (Some true))).
Proof.
  apply (status_read_agrees_with_advance colliding_env (Status.mkEnv None) "S"
           stuck_world).
  - discriminate.
  - vm_compute. reflexivity.
Defined.

(** * A rejected insert *)

Lemma unique_ok_take_drop n rest : forall stored,
  unique_ok stored rest = true ->
  unique_ok stored (take n rest) = true /\
  unique_ok (stored ++ map lower_address (take n rest)) (drop n rest) = true.
Proof.
  intros stored Hu. apply unique_ok_iff in Hu as [Hnd Hall].
  rewrite <- (take_drop n rest) in Hnd, Hall.
  rewrite map_app in Hnd. apply NoDup_app in Hnd as (Hnd1 & Hdis & Hnd2).
  split; apply unique_ok_iff.
  - split; [exact Hnd1|]. intros x Hx. apply Hall, elem_of_app. left. exact Hx.
  - split; [exact Hnd2|]. intros x Hx. rewrite not_elem_of_app. split.
    + apply Hall, elem_of_app. right. exact Hx.
    + intros Hx'. apply (Hdis (lower_address x)); [exact Hx'|].
      apply list_elem_of_fmap. exists x. auto.
Qed.

Lemma insert_batches_rejected env e : forall j fuel k rest created addrs w,
  (forall i, (i < j)%nat -> Process.insert_rejects env (k + i) = None) ->
  Process.insert_rejects env (k + j) = Some e ->
  (Process.INSERT_BATCH_SIZE * j < length rest)%nat ->
  (length rest <= fuel)%nat ->
  unique_ok (map lower_address (emails w)) rest = true ->
  Process.insert_batches env fuel k rest created addrs w
    = Throw e (set_emails w (emails w ++ take (Process.INSERT_BATCH_SIZE * j) rest)).
Proof.
  induction j as [|j IH]; intros fuel k rest created addrs w Hbefore Hat Hlen Hfuel Hu.
  - destruct rest as [|r rest]; [simpl in Hlen; lia|].
    destruct fuel as [|f]; [simpl in Hfuel; lia|].
    cbn [Process.insert_batches]. unfold bind, emails_insert, await.
    rewrite Nat.add_0_r in Hat. rewrite Hat. unfold throw.
    rewrite Nat.mul_0_r, take_0, app_nil_r, world_eta. reflexivity.
  - destruct rest as [|r rest]; [simpl in Hlen; lia|].
    destruct fuel as [|f]; [simpl in Hfuel; lia|].
    cbn [Process.insert_batches]. unfold bind, emails_insert, await.
    set (rest0 := r :: rest) in *.
    pose proof (Hbefore 0%nat ltac:(lia)) as H0. rewrite Nat.add_0_r in H0.
    rewrite H0.
    destruct (unique_ok_take_drop Process.INSERT_BATCH_SIZE rest0 _ Hu) as [Hu1 Hu2].
    change (map (fun r0 => toLowerCase (Email.address r0)) (emails w))
      with (map lower_address (emails w)).
    rewrite Hu1.
    rewrite (IH f (S k) (drop Process.INSERT_BATCH_SIZE rest0)).
    + unfold set_emails. cbn [emails kv batchTasks console kv_puts].
      rewrite <- app_assoc, take_take_drop.
      replace (Process.INSERT_BATCH_SIZE + Process.INSERT_BATCH_SIZE * j)%nat
        with (Process.INSERT_BATCH_SIZE * S j)%nat by lia.
      reflexivity.
    + intros i Hi. replace (S k + i)%nat with (k + S i)%nat by lia.
      apply Hbefore. lia.
    + replace (S k + j)%nat with (k + S j)%nat by lia. exact Hat.
    + rewrite length_drop. lia.
    + rewrite length_drop. unfold Process.INSERT_BATCH_SIZE. subst rest0.
      simpl in *. lia.
    + unfold set_emails. cbn [emails kv batchTasks console kv_puts].
      rewrite map_app. exact Hu2.
Qed.

Lemma process_chunk_insert_rejected env id task w l a j e :
  generation env task w = Ok (l, a) w ->
  (forall i, (i < j)%nat -> Process.insert_rejects env i = None) ->
  Process.insert_rejects env j = Some e ->
  (Process.INSERT_BATCH_SIZE * j < length l)%nat ->
  exists w',
    Process.process_chunk env id task w = Throw (insert_failure e) w' /\
    kv w' = kv w /\ kv_puts w' = kv_puts w /\ batchTasks w' = batchTasks w /\
    emails w' = emails w ++ take (Process.INSERT_BATCH_SIZE * j) l.
Proof.
  intros Hg Hbefore Hat Hlen.
  pose proof (generation_ok env task w l a Hg) as (Hok & _ & _).
  unfold Process.process_chunk. cbv zeta. unfold bind at 1.
  unfold generation, chunk_size in Hg. rewrite Hg.
  assert (Hpos : (0 < length l)%nat) by lia.
  replace (Z.of_nat (length l) =? 0) with false by (symmetry; apply Z.eqb_neq; lia).
  replace (0 <? Z.of_nat (length l)) with true by (symmetry; apply Z.ltb_lt; lia).
  cbn [andb]. unfold bind at 1. unfold ret at 1. unfold bind at 1.
  unfold try_catch.
  rewrite (insert_batches_rejected env e j (length l) 0 l 0 [] w); auto.
  - unfold bind, console_log, throw. eexists. split; [reflexivity|].
    simpl. auto.
  - apply (accepted_unique env task), Hok.
Qed.

Lemma body_workable env id w t :
  id <> EmptyString -> kv w !! id = Some t -> workable t ->
  Process.get_rejects env = None -> Process.put_processing_rejects env = None ->
  Process.body env (Some id) w
    = Process.process_chunk env id (generation_task env t) (generation_world env id t w).
Proof.
  intros Hid Hlook Hwork Hget Hput.
  unfold Process.body. rewrite (truthy_some id Hid).
  unfold bind at 1. unfold SITE_CONFIG_get, await. rewrite Hget, Hlook.
  unfold generation_task, generation_world.
  destruct Hwork as [Hs|[Hs Hlt]].
  - rewrite Hs. simpl. unfold bind at 1. unfold SITE_CONFIG_put, await.
    rewrite Hput. reflexivity.
  - rewrite Hs. simpl. apply Z.ltb_lt in Hlt. rewrite Hlt. reflexivity.
Qed.

(** X5.  A rejected insert is not rolled back.  When the insert of the
    sub-batch number j rejects (the sub-batches before it went through),
    the call answers 500 and the stored task is marked failed with the
    message of the rejection, its processed and created counters as they
    were before the call; the rows of the sub-batches 0 .. j-1, twenty
    each, stay in the address table and are counted by no task. *)
Theorem rejected_insert_keeps_earlier_batches env id w t l attempts j e :
  id <> EmptyString ->
  kv w !! id = Some t ->
  workable t ->
  Process.get_rejects env = None ->
  Process.put_processing_rejects env = None ->
  generation env (generation_task env t) (generation_world env id t w)
    = Ok (l, attempts) (generation_world env id t w) ->
  (forall i, (i < j)%nat -> Process.insert_rejects env i = None) ->
  Process.insert_rejects env j = Some e ->
  (Process.INSERT_BATCH_SIZE * j < length l)%nat ->
  Process.handler_get_rejects env = None ->
  Process.handler_put_rejects env = None ->
  fst (Process.POST env (Some id) w) = ErrorJson 500 "处理批量任务失败" /\
  emails (snd (Process.POST env (Some id) w))
    = emails w ++ take (Process.INSERT_BATCH_SIZE * j) l /\
  kv (snd (Process.POST env (Some id) w)) !! id
    = Some (marked_failed env (insert_failure e) (generation_task env t)) /\
  status (marked_failed env (insert_failure e) (generation_task env t)) = failed /\
  error (marked_failed env (insert_failure e) (generation_task env t))
    = Some ("邮箱插入失败: " +:+ message_of e "未知错误") /\
  processedCount (marked_failed env (insert_failure e) (generation_task env t))
    = processedCount t /\
  createdCount (marked_failed env (insert_failure e) (generation_task env t))
    = createdCount t.
Proof.
  intros Hid Hlook Hwork Hget Hput Hg Hbefore Hat Hlen Hhg Hhp.
  rewrite POST_unfold.
  rewrite (body_workable env id w t Hid Hlook Hwork Hget Hput).
  destruct (process_chunk_insert_rejected env id _ _ l attempts j e Hg Hbefore Hat Hlen)
    as (w1 & -> & Hk1 & Hp1 & Hb1 & He1).
  destruct (on_error_spec env id (insert_failure e) w1 Hid)
    as (w2 & -> & He2 & [H|H]); simpl.
  - exfalso. destruct H as (_ & _ & _ & [[_ Hnone]|[[Hr|Hr] _]]); try congruence.
    rewrite Hk1, (generation_world_lookup env id t w Hlook) in Hnone. discriminate.
  - destruct H as (t0 & Ht0 & _ & _ & Hk2 & _).
    rewrite Hk1, (generation_world_lookup env id t w Hlook) in Ht0.
    injection Ht0 as <-.
    split; [reflexivity|].
    split; [rewrite He2, He1, generation_world_emails; reflexivity|].
    split; [rewrite Hk2; apply lookup_insert_eq|].
    unfold generation_task. destruct (decide (status t = pending)); simpl; auto.
Qed.

Lemma rejected_insert_keeps_earlier_batches_witness :
  fst (Process.POST second_insert_failing_env (Some "T") sample_world)
    = ErrorJson 500 "处理批量任务失败" /\
  emails (snd (Process.POST second_insert_failing_env (Some "T") sample_world))
    = emails sample_world
      ++ take (Process.INSERT_BATCH_SIZE * 1)
           (map (candidate second_insert_failing_env sample_task) (seq 0 100)) /\
  kv (snd (Process.POST second_insert_failing_env (Some "T") sample_world)) !! "T"
    = Some (marked_failed second_insert_failing_env
              (insert_failure (ErrorObj "D1_ERROR"))
              (generation_task second_insert_failing_env sample_task)) /\
  status (marked_failed second_insert_failing_env
            (insert_failure (ErrorObj "D1_ERROR"))
            (generation_task second_insert_failing_env sample_task)) = failed /\
  error (marked_failed second_insert_failing_env
           (insert_failure (ErrorObj "D1_ERROR"))
           (generation_task second_insert_failing_env sample_task))
    = Some ("邮箱插入失败: " +:+ message_of (ErrorObj "D1_ERROR") "未知错误") /\
  processedCount (marked_failed second_insert_failing_env
                    (insert_failure (ErrorObj "D1_ERROR"))
                    (generation_task second_insert_failing_env sample_task))
    = processedCount sample_task /\
  createdCount (marked_failed second_insert_failing_env
                  (insert_failure (ErrorObj "D1_ERROR"))
                  (generation_task second_insert_failing_env sample_task))
    = createdCount sample_task.
Proof.
  apply (rejected_insert_keeps_earlier_batches second_insert_failing_env "T"
           sample_world sample_task
           (map (candidate second_insert_failing_env sample_task) (seq 0 100))
           100 1 (ErrorObj "D1_ERROR")).
  - discriminate.
  - reflexivity.
  - left. reflexivity.
  - reflexivity.
  - reflexivity.
  - vm_compute. reflexivity.
  - intros i Hi. destruct i as [|i]; [reflexivity | lia].
  - reflexivity.
  - vm_compute. lia.
  - reflexivity.
  - reflexivity.
Defined.

(** * The permanent row of a completed task *)

Lemma alter_as_insert {A} (f : A -> A) (m : gmap string A) id x :
  m !! id = Some x -> alter f id m = <[id := f x]> m.
Proof.
  intros H. apply map_eq. intros i. destruct (decide (i = id)) as [->|Hne].
  - rewrite lookup_alter_eq, lookup_insert_eq, H. reflexivity.
  - rewrite lookup_alter_ne, lookup_insert_ne by congruence. reflexivity.
Qed.

Lemma save_completed_spec env id task w :
  exists w', Process.save_completed env id task w = Ok tt w' /\
    kv w' = kv w /\ kv_puts w' = kv_puts w /\ emails w' = emails w /\
    ((Process.history_find_rejects env = None /\
      Process.history_write_rejects env = None /\
      console w' = console w /\
      batchTasks w'
        = <[id := completed_record env task (batchTasks w !! id)]> (batchTasks w)) \/
     ((Process.history_find_rejects env <> None \/
       Process.history_write_rejects env <> None) /\
      batchTasks w' = batchTasks w /\
      console w' = console w ++ ["Failed to save batch task to database:"])).
Proof.
  unfold Process.save_completed. munfold.
  destruct (Process.history_find_rejects env) eqn:Hf.
  { eexists. split; [reflexivity|]. simpl. do 3 (split; [reflexivity|]).
    right. split_and!; auto. }
  destruct (batchTasks w !! id) eqn:E;
    destruct (Process.history_write_rejects env) eqn:Hw; simpl; rewrite ?E;
    eexists; (split; [reflexivity|]); simpl; do 3 (split; [reflexivity|]).
  - right. split_and!; auto.
  - left. split_and!; auto. rewrite (alter_as_insert _ _ _ _ E). reflexivity.
  - right. split_and!; auto.
  - left. split_and!; auto.
Qed.

Lemma process_chunk_completes env id task w l a :
  generation env task w = Ok (l, a) w ->
  chunk_no_rejects env ->
  status task <> completed ->
  status (after_chunk env task l) = completed ->
  exists w',
    Process.process_chunk env id task w
      = Ok (chunk_answer (after_chunk env task l)) w' /\
    kv w' = <[id := after_chunk env task l]> (kv w) /\
    emails w' = emails w ++ l /\
    (Process.history_find_rejects env = None ->
     Process.history_write_rejects env = None ->
     batchTasks w'
       = <[id := completed_record env (after_chunk env task l) (batchTasks w !! id)]>
           (batchTasks w)) /\
    (Process.history_find_rejects env <> None \/
     Process.history_write_rejects env <> None ->
     batchTasks w' = batchTasks w /\
     "Failed to save batch task to database:" ∈ console w').
Proof.
  intros Hg (Hff & Hins & Hput) Hnot Hdone.
  pose proof (generation_ok env task w l a Hg) as (Hok & _ & _).
  unfold Process.process_chunk. cbv zeta. unfold bind at 1.
  unfold generation, chunk_size in Hg. rewrite Hg.
  unfold bind at 1.
  set (warn := if (_ && _)%bool then _ else _).
  assert (Hwarn : exists w1, warn w = Ok tt w1 /\ kv w1 = kv w /\
            kv_puts w1 = kv_puts w /\ emails w1 = emails w /\
            batchTasks w1 = batchTasks w).
  { subst warn. destruct (_ && _)%bool; munfold; eexists; (split; [reflexivity|auto]). }
  destruct Hwarn as (w1 & -> & Hk1 & Hp1 & He1 & Hb1). clear warn.
  unfold bind at 1.
  set (ins := if 0 <? Z.of_nat (length l) then _ else _).
  assert (Hi : exists w2,
            ins w1 = Ok (Z.of_nat (length l), map Email.address l) w2 /\
            kv w2 = kv w /\ kv_puts w2 = kv_puts w /\ emails w2 = emails w ++ l /\
            batchTasks w2 = batchTasks w).
  { subst ins. destruct (0 <? Z.of_nat (length l)) eqn:Hpos.
    - unfold try_catch.
      pose proof (insert_batches_spec env (length l) 0 l 0 [] w1 (le_n _)) as Hi.
      destruct (insert_batches_ok env (length l) 0 l 0 [] w1 Hins) as (r & w2 & Hr).
      { rewrite He1. apply (accepted_unique env task), Hok. }
      rewrite Hr in Hi |- *. destruct r as [c a']. destruct Hi as (-> & -> & ->).
      eexists. split; [reflexivity|]. simpl. rewrite He1. auto.
    - unfold ret. destruct l; [|simpl in Hpos; discriminate].
      eexists. split; [reflexivity|]. simpl. rewrite app_nil_r. auto. }
  destruct Hi as (w2 & -> & Hk2 & Hp2 & He2 & Hb2). clear ins.
  rewrite length_map.
  unfold bind at 1.
  set (fin := if totalCount _ <=? processedCount _ then _ else _).
  assert (Hfin : exists w3, fin w2 = Ok (after_chunk env task l) w3 /\
            kv w3 = kv w /\ kv_puts w3 = kv_puts w /\ emails w3 = emails w ++ l /\
            (Process.history_find_rejects env = None ->
             Process.history_write_rejects env = None ->
             batchTasks w3
               = <[id := completed_record env (after_chunk env task l)
                           (batchTasks w !! id)]> (batchTasks w)) /\
            (Process.history_find_rejects env <> None \/
             Process.history_write_rejects env <> None ->
             batchTasks w3 = batchTasks w /\
             "Failed to save batch task to database:" ∈ console w3)).
  { subst fin. revert Hdone. unfold after_chunk. cbv zeta.
    destruct (totalCount _ <=? processedCount _).
    - intros _. unfold bind.
      match goal with
      | |- context [Process.save_completed env id ?t w2] =>
          destruct (save_completed_spec env id t w2)
            as (w3 & -> & Hk3 & Hp3 & He3 & Hh)
      end.
      unfold ret. exists w3. split_and!; [reflexivity|congruence..| |].
      + intros Hf Hw. destruct Hh as [(_ & _ & _ & Hb)|([Hr|Hr] & _)];
          [|congruence..].
        rewrite Hb, Hb2. reflexivity.
      + intros Hrej. destruct Hh as [(Hf & Hw & _)|(_ & Hb & Hc)].
        * destruct Hrej; congruence.
        * split; [congruence|]. rewrite Hc. apply elem_of_app. right.
          apply list_elem_of_here.
    - intros Hst. exfalso. apply Hnot. revert Hst.
      destruct (0 <? _); destruct (totalCount _ <? processedCount _); simpl; auto. }
  destruct Hfin as (w3 & -> & Hk3 & Hp3 & He3 & Hb3 & Hc3). clear fin.
  unfold bind at 1.
  assert (Hsz : exists w4,
            (if Process.size_over_20MB env
             then console_log "Task size is close to KV limit (25MB)"
             else ret tt) w3 = Ok tt w4 /\
            kv w4 = kv w /\ kv_puts w4 = kv_puts w /\ emails w4 = emails w ++ l /\
            batchTasks w4 = batchTasks w3 /\
            (forall line, line ∈ console w3 -> line ∈ console w4)).
  { destruct (Process.size_over_20MB env); munfold; eexists;
      (split; [reflexivity|]); simpl; split_and!; auto.
    intros line Hl. apply elem_of_app. left. exact Hl. }
  destruct Hsz as (w4 & -> & Hk4 & Hp4 & He4 & Hb4 & Hc4).
  munfold. rewrite Hput. eexists. split; [reflexivity|]. simpl.
  split_and!; try congruence.
  - intros Hf Hw. rewrite Hb4. apply Hb3; assumption.
  - intros Hrej. destruct (Hc3 Hrej) as [Hb Hc]. split; [congruence|].
    apply Hc4, Hc.
Qed.

(** X6.  A call that completes a task writes its permanent row.  When no
    store call of the request rejects and the call brings a task to
    completed, it answers 200 with the completed task, and the batch_task
    table holds under the task id a row with status completed, the task's
    created count and the completion time: a row that was there before
    keeps its other columns, a new row takes owner, domain, total count
    and creation time from the task.  When the read or the write of that
    table rejects, the call still answers 200 with the completed task; the
    table is unchanged and the failure is only logged. *)
Theorem completing_call_writes_the_permanent_row env id w t l attempts :
  id <> EmptyString ->
  kv w !! id = Some t ->
  workable t ->
  no_rejects env ->
  generation env (generation_task env t) (generation_world env id t w)
    = Ok (l, attempts) (generation_world env id t w) ->
  status (after_chunk env (generation_task env t) l) = completed ->
  fst (Process.POST env (Some id) w)
    = chunk_answer (after_chunk env (generation_task env t) l) /\
  kv (snd (Process.POST env (Some id) w)) !! id
    = Some (after_chunk env (generation_task env t) l) /\
  (Process.history_find_rejects env = None ->
   Process.history_write_rejects env = None ->
   batchTasks (snd (Process.POST env (Some id) w))
     = <[id := completed_record env (after_chunk env (generation_task env t) l)
                 (batchTasks w !! id)]> (batchTasks w)) /\
  (Process.history_find_rejects env <> None \/
   Process.history_write_rejects env <> None ->
   batchTasks (snd (Process.POST env (Some id) w)) = batchTasks w /\
   "Failed to save batch task to database:"
     ∈ console (snd (Process.POST env (Some id) w))).
Proof.
  intros Hid Hlook Hwork (Hget & Hpp & Hff & Hins & Hput) Hg Hdone.
  rewrite POST_unfold.
  rewrite (body_workable env id w t Hid Hlook Hwork Hget Hpp).
  destruct (process_chunk_completes env id _ _ l attempts Hg) as
    (w' & -> & Hk & He & Hb & Hc); auto.
  - split_and!; assumption.
  - unfold generation_task. destruct (decide (status t = pending)); simpl;
      [discriminate|]. destruct Hwork as [Hs|[Hs _]]; congruence.
  - simpl. split_and!; auto.
    + rewrite Hk. apply lookup_insert_eq.
    + intros Hf Hw. rewrite (Hb Hf Hw). unfold generation_world.
      destruct (decide _); reflexivity.
    + intros Hrej. destruct (Hc Hrej) as [Hb' Hc']. split; [|exact Hc'].
      rewrite Hb'. unfold generation_world. destruct (decide _); reflexivity.
Qed.

Lemma completing_call_writes_the_permanent_row_witness :
  fst (Process.POST (quiet_env 0) (Some "S") stuck_world)
    = chunk_answer
        (after_chunk (quiet_env 0) (generation_task (quiet_env 0) stuck_task)
           (map (candidate (quiet_env 0) stuck_task) (seq 0 3))) /\
  kv (snd (Process.POST (quiet_env 0) (Some "S") stuck_world)) !! "S"
    = Some (after_chunk (quiet_env 0) (generation_task (quiet_env 0) stuck_task)
              (map (candidate (quiet_env 0) stuck_task) (seq 0 3))) /\
  (Process.history_find_rejects (quiet_env 0) = None ->
   Process.history_write_rejects (quiet_env 0) = None ->
   batchTasks (snd (Process.POST (quiet_env 0) (Some "S") stuck_world))
     = <["S" := completed_record (quiet_env 0)
                  (after_chunk (quiet_env 0) (generation_task (quiet_env 0) stuck_task)
                     (map (candidate (quiet_env 0) stuck_task) (seq 0 3)))
                  (batchTasks stuck_world !! "S")]> (batchTasks stuck_world)) /\
  (Process.history_find_rejects (quiet_env 0) <> None \/
   Process.history_write_rejects (quiet_env 0) <> None ->
   batchTasks (snd (Process.POST (quiet_env 0) (Some "S") stuck_world))
     = batchTasks stuck_world /\
   "Failed to save batch task to database:"
     ∈ console (snd (Process.POST (quiet_env 0) (Some "S") stuck_world))).
Proof.
  apply (completing_call_writes_the_permanent_row (quiet_env 0) "S" stuck_world
           stuck_task (map (candidate (quiet_env 0) stuck_task) (seq 0 3)) 3).
  - discriminate.
  - reflexivity.
  - right. split; [reflexivity | simpl; lia].
  - repeat split.
  - vm_compute. reflexivity.
  - reflexivity.
Defined.

(** * The create route, case by case *)

(** X7.  The create route writes at most one task and nothing else.  On
    every path, store rejections included, the address table and the
    batch_task table are left as they were; either the route answers with
    a new pending task, stored under the id it drew with counters 0 and
    the requested count above 50, or it answers 400, 401, 403 or 500 and
    the ephemeral store is unchanged. *)
Theorem create_writes_at_most_one_task env session role req w :
  emails (snd (Create.POST env session role req w)) = emails w /\
  batchTasks (snd (Create.POST env session role req w)) = batchTasks w /\
  ((exists u, truthy session = Some u /\
      Create.ASYNC_THRESHOLD < Create.batchCount_of (Create.batch req) /\
      fst (Create.POST env session role req w)
        = CreatedJson (Create.nanoid16 env) pending
            "批量创建任务已启动，请使用任务ID查询进度" /\
      kv (snd (Create.POST env session role req w))
        = <[Create.nanoid16 env := new_task env u req]> (kv w)) \/
   (kv (snd (Create.POST env session role req w)) = kv w /\
    kv_puts (snd (Create.POST env session role req w)) = kv_puts w /\
    is_refusal (fst (Create.POST env session role req w)))).
Proof.
  destruct (Create.POST env session role req w) as [r w'] eqn:Hout. simpl.
  revert Hout. unfold is_refusal, Create.POST.
  destruct (truthy session) as [u|] eqn:Hs;
    [|intros H; injection H as <- <-; simpl; auto 10].
  unfold run, Create.body, Create.on_error.
  unfold bind at 1. unfold await at 1.
  destruct (Create.json_rejects env);
    [munfold; intros H; injection H as <- <-; simpl; auto 10|].
  unfold ret at 1.
  destruct (negb (existsb _ _));
    [munfold; intros H; injection H as <- <-; simpl; auto 10|].
  unfold bind at 1. unfold await at 1.
  destruct (Create.domains_rejects env);
    [munfold; intros H; injection H as <- <-; simpl; auto 10|].
  unfold ret at 1.
  destruct (negb (existsb _ _));
    [munfold; intros H; injection H as <- <-; simpl; auto 10|].
  unfold bind at 1.
  pose proof (quota_rejected_spec env u role
                (Create.batchCount_of (Create.batch req)) w) as Hq.
  destruct (Create.quota_rejected _ _ _ _ _) as [[msg|] w1|e w1].
  - destruct Hq as [-> _]. munfold. intros H; injection H as <- <-. simpl. auto 10.
  - destruct Hq as [-> _]. unfold Create.dispatch.
    destruct (Create.ASYNC_THRESHOLD <? _) eqn:Hth.
    + apply Z.ltb_lt in Hth. munfold.
      destruct (Create.put_rejects env); intros H; injection H as <- <-; simpl;
        [auto 10|].
      split_and!; auto. left. exists u. auto.
    + munfold. intros H; injection H as <- <-. simpl. auto 10.
  - destruct Hq as [-> _]. munfold. intros H; injection H as <- <-. simpl. auto 10.
Qed.

(** X8.  The quota of the create route.  For every role but the
    privileged one, a request that would take the caller's live addresses
    (those not yet expired) above the configured ceiling is answered 403
    with the current count, the ceiling and the requested count, and no
    task is stored; the check comes before the size threshold, so it also
    applies to a request of 50 or fewer.  The privileged role is never
    answered 403, and neither is anyone when the configured ceiling is not
    a number. *)
Theorem create_quota_comes_before_the_threshold :
  (forall env session u name req w m,
     truthy session = Some u ->
     Create.json_rejects env = None -> Create.domains_rejects env = None ->
     Create.max_rejects env = None -> Create.count_rejects env = None ->
     existsb (fun option => option =? Create.expiryTime req)
       (Create.EXPIRY_OPTIONS env) = true ->
     existsb (String.eqb (Create.domain req))
       (Create.domains_of (Create.EMAIL_DOMAINS env)) = true ->
     Create.maxCount env = Some m ->
     m < active_count w u (Create.now_quota env)
         + Create.batchCount_of (Create.batch req) ->
     Create.POST env session (Create.other_role name) req w
       = (ErrorJson 403
            (Create.quota_message (active_count w u (Create.now_quota env)) (Some m)
               (Create.batchCount_of (Create.batch req))),
          w)) /\
  (forall env session req w,
     http_status (fst (Create.POST env session Create.EMPEROR req w)) = 200 \/
     http_status (fst (Create.POST env session Create.EMPEROR req w)) = 400 \/
     http_status (fst (Create.POST env session Create.EMPEROR req w)) = 401 \/
     http_status (fst (Create.POST env session Create.EMPEROR req w)) = 500) /\
  (forall env session role req w,
     Create.maxCount env = None ->
     http_status (fst (Create.POST env session role req w)) = 200 \/
     http_status (fst (Create.POST env session role req w)) = 400 \/
     http_status (fst (Create.POST env session role req w)) = 401 \/
     http_status (fst (Create.POST env session role req w)) = 500).
Proof.
  assert (Hgen : forall env session role req w,
            (role = Create.EMPEROR \/ Create.maxCount env = None) ->
            http_status (fst (Create.POST env session role req w)) = 200 \/
            http_status (fst (Create.POST env session role req w)) = 400 \/
            http_status (fst (Create.POST env session role req w)) = 401 \/
            http_status (fst (Create.POST env session role req w)) = 500).
  { intros env session role req w Hfree.
    destruct (Create.POST env session role req w) as [r w'] eqn:Hout. simpl.
    revert Hout. unfold Create.POST.
    destruct (truthy session) as [u|] eqn:Hs;
      [|intros H; injection H as <- <-; simpl; auto 10].
    unfold run, Create.body, Create.on_error.
    unfold bind at 1. unfold await at 1.
    destruct (Create.json_rejects env);
      [munfold; intros H; injection H as <- <-; simpl; auto 10|].
    unfold ret at 1.
    destruct (negb (existsb _ _));
      [munfold; intros H; injection H as <- <-; simpl; auto 10|].
    unfold bind at 1. unfold await at 1.
    destruct (Create.domains_rejects env);
      [munfold; intros H; injection H as <- <-; simpl; auto 10|].
    unfold ret at 1.
    destruct (negb (existsb _ _));
      [munfold; intros H; injection H as <- <-; simpl; auto 10|].
    unfold bind at 1.
    pose proof (quota_rejected_spec env u role
                  (Create.batchCount_of (Create.batch req)) w) as Hq.
    destruct (Create.quota_rejected _ _ _ _ _) as [[msg|] w1|e w1].
    - exfalso. destruct Hq as [_ Hq].
      assert (Some msg = None) by
        (apply Hq; destruct Hfree as [->|Hn];
           [exact I | destruct role; [exact I | rewrite Hn; reflexivity]]).
      discriminate.
    - destruct Hq as [-> _]. unfold Create.dispatch.
      destruct (Create.ASYNC_THRESHOLD <? _); munfold;
        [destruct (Create.put_rejects env)|];
        intros H; injection H as <- <-; simpl; auto 10.
    - munfold. intros H; injection H as <- <-. simpl. auto 10. }
  split; [|split].
  - intros env session u name req w m Hs Hj Hd Hm Hc Hexp Hdom Hmax Hover.
    unfold Create.POST. rewrite Hs.
    unfold run, Create.body.
    unfold bind at 1. unfold await at 1. rewrite Hj. unfold ret at 1.
    rewrite Hexp. cbn [negb].
    unfold bind at 1. unfold await at 1. rewrite Hd. unfold ret at 1.
    rewrite Hdom. cbn [negb].
    unfold bind at 1. unfold Create.quota_rejected, Create.activeEmailsCount.
    munfold. rewrite Hm, Hc, Hmax.
    fold (active_count w u (Create.now_quota env)).
    unfold Create.over_quota.
    replace (m <? _) with true by (symmetry; apply Z.ltb_lt; exact Hover).
    reflexivity.
  - intros env session req w. apply Hgen. left. reflexivity.
  - intros env session role req w Hn. apply Hgen. right. exact Hn.
Qed.

Lemma create_quota_comes_before_the_threshold_witness :
  Create.POST quota_env (Some "alice") (Create.other_role "KNIGHT") request_5
      crowded_world
    = (ErrorJson 403
         (Create.quota_message
            (active_count crowded_world "alice" (Create.now_quota quota_env))
            (Some 50) (Create.batchCount_of (Create.batch request_5))),
       crowded_world).
Proof.
  apply (proj1 create_quota_comes_before_the_threshold quota_env (Some "alice")
           "alice" "KNIGHT" request_5 crowded_world 50);
    reflexivity.
Defined.

(** X9.  A task the create route has just stored reads back as pending.
    After a create request that answered with a task id, a status read by
    the same caller answers 200 with that id, status pending, the
    requested total and both counters 0, while a status read by any other
    signed-in caller is answered 403; the stored task is one the process
    route works on. *)
Theorem created_task_reads_back_pending env senv session role req w id st msg w' :
  Create.POST env session role req w = (CreatedJson id st msg, w') ->
  Status.get_rejects senv = None ->
  Status.GET senv session id w'
    = (StatusJson
         (Json.mkStatus id pending (Create.batchCount_of (Create.batch req)) 0 0
            (RoundPercent 0 (Create.batchCount_of (Create.batch req))) None
            (Create.now env) (Create.now env)),
       w') /\
  (forall other o,
     truthy other = Some o -> truthy session <> Some o ->
     Status.GET senv other id w' = (ErrorJson 403 "无权访问此任务", w')) /\
  (exists t, kv w' !! id = Some t /\ workable t /\ in_protocol t).
Proof.
  intros Hc Hget.
  apply Create_created in Hc as (u & Hs & -> & -> & Hth & Hk).
  assert (Hlook : kv w' !! Create.nanoid16 env
                  = Some (mkBatchTask (Create.nanoid16 env) u (Create.domain req)
                            (Create.expiryTime req)
                            (Create.batchCount_of (Create.batch req)) 0 0 pending None
                            (Create.now env) (Create.now env) None))
    by (rewrite Hk; apply lookup_insert_eq).
  split_and!.
  - unfold Status.GET, run, Status.body. rewrite Hs.
    unfold bind, SITE_CONFIG_get, await. rewrite Hget, Hlook. simpl.
    rewrite String.eqb_refl. reflexivity.
  - intros other o Ho Hne.
    unfold Status.GET, run, Status.body. rewrite Ho.
    unfold bind, SITE_CONFIG_get, await. rewrite Hget, Hlook. simpl.
    destruct (String.eqb_spec u o) as [->|_]; [congruence | reflexivity].
  - eexists. split; [exact Hlook|]. split.
    + left. reflexivity.
    + unfold in_protocol, Create.ASYNC_THRESHOLD in *. simpl.
      split_and!; [lia | auto | discriminate].
Qed.

Lemma created_task_reads_back_pending_witness :
  Status.GET (Status.mkEnv None) (Some "alice") "T"
      (snd (Create.POST create_env (Some "alice") Create.EMPEROR request_51 empty_world))
    = (StatusJson
         (Json.mkStatus "T" pending (Create.batchCount_of (Create.batch request_51)) 0 0
            (RoundPercent 0 (Create.batchCount_of (Create.batch request_51))) None
            (Create.now create_env) (Create.now create_env)),
       snd (Create.POST create_env (Some "alice") Create.EMPEROR request_51 empty_world))
  /\
  (forall other o,
     truthy other = Some o -> truthy (Some "alice") <> Some o ->
     Status.GET (Status.mkEnv None) other "T"
         (snd (Create.POST create_env (Some "alice") Create.EMPEROR request_51
                 empty_world))
       = (ErrorJson 403 "无权访问此任务",
          snd (Create.POST create_env (Some "alice") Create.EMPEROR request_51
                 empty_world))) /\
  (exists t,
     kv (snd (Create.POST create_env (Some "alice") Create.EMPEROR request_51
                empty_world)) !! "T" = Some t /\
     workable t /\ in_protocol t).
Proof.
  apply (created_task_reads_back_pending create_env (Status.mkEnv None) (Some "alice")
           Create.EMPEROR request_51 empty_world "T" pending
           "批量创建任务已启动，请使用任务ID查询进度").
  - vm_compute. reflexivity.
  - reflexivity.
Defined.

(** X10.  The status route and the download route only read.  Whoever
    asks, for whatever id, and whichever store call rejects, the ephemeral
    store with its trace of puts, the address table and the batch_task
    table are the same after the request as before it. *)
Theorem reads_change_no_store :
  (forall env requester id w,
     kv (snd (Status.GET env requester id w)) = kv w /\
     kv_puts (snd (Status.GET env requester id w)) = kv_puts w /\
     emails (snd (Status.GET env requester id w)) = emails w /\
     batchTasks (snd (Status.GET env requester id w)) = batchTasks w) /\
  (forall env requester id w,
     kv (snd (Download.GET env requester id w)) = kv w /\
     kv_puts (snd (Download.GET env requester id w)) = kv_puts w /\
     emails (snd (Download.GET env requester id w)) = emails w /\
     batchTasks (snd (Download.GET env requester id w)) = batchTasks w).
Proof.
  split; intros env requester id w;
    [apply Status_GET_frame | apply Download_GET_frame].
Qed.

(** * The dialog and the routes *)

Lemma after_chunk_in_protocol env t l :
  status t = processing -> 0 < totalCount t -> in_protocol (after_chunk env t l).
Proof.
  intros Hs Hpos. unfold in_protocol, after_chunk. cbv zeta.
  destruct (0 <? Z.of_nat (length l)); simpl;
    destruct (totalCount t <? processedCount t + Z.of_nat (length l)) eqn:E1; simpl;
    match goal with
    | |- context [?a <=? ?b] => destruct (a <=? b) eqn:E2
    end; simpl; rewrite ?Hs;
    (split; [exact Hpos|]); (split; [discriminate|]); intros H;
    try discriminate H; apply Z.leb_gt in E2; apply Z.ltb_ge in E1 || apply Z.ltb_lt in E1;
    lia.
Qed.

Lemma call_puts_in_protocol env w t puts :
  in_protocol t -> call_puts env w t puts -> Forall in_protocol puts.
Proof.
  intros (Hpos & Hpend & Hproc) Hc.
  assert (Hfail : forall e t0, totalCount t0 = totalCount t ->
            in_protocol (marked_failed env e t0)).
  { intros e t0 Ht. unfold in_protocol. simpl. rewrite Ht.
    split_and!; [exact Hpos | discriminate..]. }
  assert (Hmark : status t = pending -> in_protocol (marked_processing env t)).
  { intros Hs. unfold in_protocol. simpl. rewrite (Hpend Hs).
    split_and!; [exact Hpos | discriminate | auto]. }
  destruct Hc as [|l Hs Hok Hlen|e Hs|Hs|l Hs Hok Hlen|e Hs];
    repeat match goal with |- Forall _ _ => constructor end; auto.
  - apply after_chunk_in_protocol; assumption.
  - apply after_chunk_in_protocol; [reflexivity | exact Hpos].
Qed.

(** X11.  The polling dialog never waits on a task that needs a call.  A
    task as the create route stores it has a positive total, nothing
    processed while pending and work left while processing; every call of
    the process route keeps it so, whatever rejects.  For such a task the
    status route gives its owner an answer on which the dialog either
    stops (completed: success with the created count; failed: the error)
    or polls again and triggers the process route, and in that last case
    the task is one the process route works on. *)
Theorem polling_dialog_triggers_while_work_is_left :
  (forall env session role req w id st msg w',
     Create.POST env session role req w = (CreatedJson id st msg, w') ->
     exists t, kv w' !! id = Some t /\ in_protocol t) /\
  (forall env id w t,
     id <> EmptyString -> kv w !! id = Some t -> in_protocol t ->
     exists t', kv (snd (Process.POST env (Some id) w)) !! id = Some t' /\
                in_protocol t') /\
  (forall senv id w t,
     kv w !! id = Some t -> in_protocol t ->
     userId t <> EmptyString -> Status.get_rejects senv = None ->
     Status.GET senv (Some (userId t)) id w = (StatusJson (status_answer t), w) /\
     match Client.checkStatus (status_answer t) with
     | Client.close_with_success n => status t = completed /\ n = createdCount t
     | Client.show_failure _ => status t = failed
     | Client.poll_again trigger => trigger = true /\ workable t
     end).
Proof.
  split_and!.
  - intros env session role req w id st msg w' H.
    apply Create_created in H as (u & _ & _ & _ & Hth & Hk).
    eexists. split; [rewrite Hk; apply lookup_insert_eq|].
    unfold in_protocol, Create.ASYNC_THRESHOLD in *. simpl.
    split_and!; [lia | auto | discriminate].
  - intros env id w t Hid Hlook Ht.
    apply (POST_preserves in_protocol env id w t Hid Hlook Ht).
    intros puts Hc. apply (call_puts_in_protocol env w t); assumption.
  - intros senv id w t Hlook (Hpos & Hpend & Hproc) Hu Hget. split.
    + unfold Status.GET, run, Status.body. rewrite (truthy_some _ Hu).
      unfold bind, SITE_CONFIG_get, await. rewrite Hget, Hlook, String.eqb_refl.
      reflexivity.
    + unfold Client.checkStatus, Client.needsTrigger, status_answer. simpl.
      destruct (status t) eqn:Hs; simpl.
      * rewrite (Hpend eq_refl). simpl. split; [reflexivity | left; exact Hs].
      * specialize (Hproc eq_refl). apply Z.ltb_lt in Hproc as Hlt. rewrite Hlt.
        split; [reflexivity | right; auto].
      * auto.
      * reflexivity.
Qed.

Lemma polling_dialog_triggers_while_work_is_left_witness :
  Status.GET (Status.mkEnv None) (Some (userId stuck_task)) "S" stuck_world
    = (StatusJson (status_answer stuck_task), stuck_world) /\
  match Client.checkStatus (status_answer stuck_task) with
  | Client.close_with_success n =>
      status stuck_task = completed /\ n = createdCount stuck_task
  | Client.show_failure _ => status stuck_task = failed
  | Client.poll_again trigger => trigger = true /\ workable stuck_task
  end.
Proof.
  apply (proj2 (proj2 polling_dialog_triggers_while_work_is_left) (Status.mkEnv None)
           "S" stuck_world stuck_task).
  - reflexivity.
  - unfold in_protocol. simpl. split_and!; [lia | discriminate | lia].
  - discriminate.
  - reflexivity.
Defined.

(** * The synchronous route *)

Lemma Sync_generate_eq env u req n now' expires budget :
  forall attempts l (set : gset string) w,
  Sync.generate env u (Sync.domain req) n now' expires budget attempts l set w
  = Process.generate (as_process_env env) (as_task env u req) n now' expires budget
      attempts l set w.
Proof.
  induction budget as [|b IH]; intros attempts l set w;
    cbn [Sync.generate Process.generate]; [reflexivity|].
  destruct (Z.of_nat (length l) <? n); [|reflexivity].
  cbn [domain userId as_task Process.nanoid Process.findFirst_rejects as_process_env].
  case_bool_decide; [apply IH|].
  unfold bind. destruct (emails_findFirst _ _ w) as [[r|] w1|e w1];
    [apply IH | apply IH | reflexivity].
Qed.

Lemma Sync_generation_spec env u req w :
  match Sync.generate env u (Sync.domain req) (Create.batchCount_of (Sync.batch req))
          (Sync.now env)
          (if Sync.expiryTime req =? 0 then Process.never_expires
           else Sync.now env + Sync.expiryTime req)
          (Z.to_nat (Create.batchCount_of (Sync.batch req) * 5)) 0 [] ∅ w with
  | Ok (l, attempts) w' =>
      w' = w /\ accepted_ok (as_process_env env) (as_task env u req) w l /\
      Z.of_nat (length l) <= Z.max (Create.batchCount_of (Sync.batch req)) 0
  | Throw _ w' => w' = w
  end.
Proof.
  rewrite Sync_generate_eq.
  pose proof (generate_spec (as_process_env env) (as_task env u req)
                (Create.batchCount_of (Sync.batch req))
                (Z.to_nat (Create.batchCount_of (Sync.batch req) * 5)) 0 [] ∅ w) as H.
  cbn [Process.now_generate as_process_env expiryTime as_task] in H.
  destruct (Process.generate _ _ _ _ _ _ _ _ _ _) as [[l a] w'|e w'].
  - destruct H as (-> & Hok & _ & Hlen & _).
    + split; [constructor | constructor].
    + intros r Hr. apply elem_of_nil in Hr. contradiction.
    + split_and!; auto. apply Hlen. simpl. lia.
  - apply H.
    + split; [constructor | constructor].
    + intros r Hr. apply elem_of_nil in Hr. contradiction.
Qed.

Lemma accepted_sync_rows env u req w l :
  accepted_ok (as_process_env env) (as_task env u req) w l ->
  NoDup (map lower_address l) /\
  Forall (fun r => absent_from_store w (lower_address r) /\ sync_row env u req r) l.
Proof.
  intros [Hnd Hall]. split; [exact Hnd|].
  eapply Forall_impl; [exact Hall|]. intros r [Habs [k ->]]. split; [exact Habs|].
  unfold sync_row, candidate. simpl. split_and!; auto. apply endsWith_append.
Qed.

Lemma Sync_insert_batches_spec env fuel : forall k rest all w,
  (length rest <= fuel)%nat ->
  match Sync.insert_batches env fuel k rest all w with
  | Ok res w' => res = all ++ rest /\ w' = set_emails w (emails w ++ rest)
  | Throw _ w' =>
      kv w' = kv w /\ batchTasks w' = batchTasks w /\ kv_puts w' = kv_puts w /\
      exists n, emails w' = emails w ++ take n rest
  end.
Proof.
  induction fuel as [|f IH]; intros k rest all w Hlen.
  - destruct rest; [|simpl in Hlen; lia]. simpl. unfold ret.
    rewrite !app_nil_r, world_eta. auto.
  - destruct rest as [|r rest].
    { simpl. unfold ret. rewrite !app_nil_r, world_eta. auto. }
    cbn [Sync.insert_batches]. unfold bind, emails_insert, await.
    destruct (Sync.insert_rejects env k) as [e|].
    { unfold throw. split_and!; auto. exists 0%nat. rewrite take_0, app_nil_r.
      reflexivity. }
    destruct (unique_ok _ _).
    2:{ split_and!; auto. exists 0%nat. rewrite take_0, app_nil_r. reflexivity. }
    set (rest0 := r :: rest) in *.
    assert (Hd : (length (drop Sync.INSERT_BATCH_SIZE rest0) <= f)%nat).
    { rewrite length_drop. unfold Sync.INSERT_BATCH_SIZE. subst rest0.
      simpl in *. lia. }
    specialize (IH (S k) (drop Sync.INSERT_BATCH_SIZE rest0)
                  (all ++ take Sync.INSERT_BATCH_SIZE rest0)
                  (set_emails w (emails w ++ take Sync.INSERT_BATCH_SIZE rest0)) Hd).
    destruct (Sync.insert_batches _ _ _ _ _ _) as [res w'|e w'].
    + destruct IH as (-> & ->). split.
      * rewrite <- app_assoc, take_drop. reflexivity.
      * unfold set_emails. cbn [emails kv batchTasks console kv_puts].
        rewrite <- app_assoc, take_drop. reflexivity.
    + destruct IH as (Hk & Hb & Hp & n & He). unfold set_emails in *.
      cbn [emails kv batchTasks console kv_puts] in *. split_and!; auto.
      exists (Sync.INSERT_BATCH_SIZE + n)%nat.
      rewrite He, <- app_assoc, take_take_drop. reflexivity.
Qed.

Lemma Sync_quota_rejected_spec env u role n w :
  match Sync.quota_rejected env u role n w with
  | Ok b w' =>
      w' = w /\
      (b = None <->
       match role with
       | Create.EMPEROR => True
       | Create.other_role _ =>
           Create.over_quota (active_count w u (Sync.now_quota env)) n
             (Sync.maxCount env) = false
       end) /\
      (forall msg, b = Some msg ->
         msg = Create.quota_message (active_count w u (Sync.now_quota env))
                 (Sync.maxCount env) n)
  | Throw _ w' =>
      w' = w /\ (Sync.max_rejects env <> None \/ Sync.count_rejects env <> None)
  end.
Proof.
  unfold Sync.quota_rejected, Create.activeEmailsCount. destruct role; munfold.
  - split; [reflexivity|]. split; [tauto | discriminate].
  - destruct (Sync.max_rejects env); [split; auto; left; discriminate|].
    destruct (Sync.count_rejects env); [split; auto; right; discriminate|].
    fold (active_count w u (Sync.now_quota env)).
    destruct (Create.over_quota _ _ _); split; try reflexivity; split;
      try (split; intros; congruence); intros msg H; congruence.
Qed.

(** What the batch branch of the synchronous route does when it runs to
    its end. *)
Lemma Sync_create_batch_spec env u req w :
  match Sync.create_batch env u req (Create.batchCount_of (Sync.batch req))
          (Sync.now env)
          (if Sync.expiryTime req =? 0 then Process.never_expires
           else Sync.now env + Sync.expiryTime req) w with
  | Ok (Sync.BatchCreated n addrs id st) w' =>
      exists rows,
        st = completed /\ id = Sync.nanoid16 env /\
        n = Z.of_nat (length rows) /\ addrs = map Email.address rows /\
        rows <> [] /\
        Z.of_nat (length rows) <= Z.max (Create.batchCount_of (Sync.batch req)) 0 /\
        NoDup (map lower_address rows) /\
        Forall (fun r => absent_from_store w (lower_address r) /\ sync_row env u req r)
          rows /\
        emails w' = emails w ++ rows /\
        batchTasks w !! id = None /\
        batchTasks w' = <[id := sync_record env u req n]> (batchTasks w) /\
        kv w' = kv w /\ kv_puts w' = kv_puts w
  | Ok (Sync.Rejected http msg) w' =>
      w' = w /\ http = 500 /\ msg = "无法生成唯一的邮箱地址，请稍后重试"
  | Ok (Sync.Created _ _) _ => False
  | Throw _ w' =>
      kv w' = kv w /\ kv_puts w' = kv_puts w /\ batchTasks w' = batchTasks w /\
      exists rows, emails w' = emails w ++ rows /\
                   Forall (sync_row env u req) rows
  end.
Proof.
  unfold Sync.create_batch. cbv zeta. unfold bind at 1.
  pose proof (Sync_generation_spec env u req w) as Hg.
  destruct (Sync.generate _ _ _ _ _ _ _ _ _ _ _) as [[l a] w1|e w1].
  2:{ subst w1. split_and!; auto. exists []. rewrite app_nil_r. auto. }
  destruct Hg as (-> & Hok & Hlen).
  destruct (accepted_sync_rows env u req w l Hok) as [Hnd Hrows].
  assert (Hrows' : Forall (sync_row env u req) l)
    by (eapply Forall_impl; [exact Hrows|]; intros x [_ Hx]; exact Hx).
  destruct (length l =? 0)%nat eqn:Hz; [unfold ret; auto|].
  apply Nat.eqb_neq in Hz.
  unfold bind at 1.
  pose proof (Sync_insert_batches_spec env (length l) 0 l [] w (le_n _)) as Hi.
  destruct (Sync.insert_batches _ _ _ _ _ _) as [res w2|e w2].
  - destruct Hi as (-> & ->). simpl. munfold.
    destruct (Sync.history_insert_rejects env).
    { simpl. split_and!; auto. exists l. auto. }
    simpl. destruct (batchTasks w !! Sync.nanoid16 env) eqn:Hlook.
    { simpl. split_and!; auto. exists l. auto. }
    exists l. simpl. split_and!; auto.
    intros ->. apply Hz. reflexivity.
  - destruct Hi as (Hk & Hb & Hp & n & He). split_and!; auto.
    exists (take n l). split; [exact He|].
    apply Forall_take, Hrows'.
Qed.

Lemma Sync_create_single_spec env u req w :
  match Sync.create_single env u req (Sync.now env)
          (if Sync.expiryTime req =? 0 then Process.never_expires
           else Sync.now env + Sync.expiryTime req) w with
  | Ok (Sync.Created id email) w' =>
      id = Sync.row_id env /\ email = single_address env req /\
      absent_from_store w (toLowerCase email) /\
      w' = set_emails w
             (emails w ++ [Email.mk email (Sync.now env)
                             (if Sync.expiryTime req =? 0 then Process.never_expires
                              else Sync.now env + Sync.expiryTime req) u])
  | Ok (Sync.Rejected http msg) w' =>
      w' = w /\ http = 409 /\ msg = "该邮箱地址已被使用" /\
      ~ absent_from_store w (toLowerCase (single_address env req))
  | Ok (Sync.BatchCreated _ _ _ _) _ => False
  | Throw _ w' => w' = w
  end.
Proof.
  unfold Sync.create_single. cbv zeta. fold (single_address env req).
  unfold bind at 1. unfold emails_findFirst, await.
  destruct (Sync.findFirst_rejects env 0); [reflexivity|].
  destruct (List.find _ (emails w)) as [r|] eqn:Hfind.
  { unfold ret. split_and!; auto. unfold absent_from_store. rewrite Hfind.
    discriminate. }
  unfold bind, emails_insert, await.
  destruct (Sync.insert_rejects env 0); [reflexivity|].
  destruct (unique_ok _ _); [|reflexivity].
  unfold ret. simpl. auto.
Qed.

(** The synchronous route, case by case. *)
Lemma Sync_POST_cases env u role req w :
  kv (snd (Sync.POST env u role req w)) = kv w /\
  kv_puts (snd (Sync.POST env u role req w)) = kv_puts w /\
  (exists rows,
     emails (snd (Sync.POST env u role req w)) = emails w ++ rows /\
     Forall (sync_row env u req) rows) /\
  match fst (Sync.POST env u role req w) with
  | Sync.BatchCreated n addrs id st =>
      1 < Create.batchCount_of (Sync.batch req) <= 50 /\
      exists rows,
        st = completed /\ id = Sync.nanoid16 env /\
        n = Z.of_nat (length rows) /\ addrs = map Email.address rows /\
        1 <= n <= Create.batchCount_of (Sync.batch req) /\
        NoDup (map lower_address rows) /\
        Forall (fun r => absent_from_store w (lower_address r) /\ sync_row env u req r)
          rows /\
        emails (snd (Sync.POST env u role req w)) = emails w ++ rows /\
        batchTasks w !! id = None /\
        batchTasks (snd (Sync.POST env u role req w))
          = <[id := sync_record env u req n]> (batchTasks w)
  | Sync.Created id email =>
      Create.batchCount_of (Sync.batch req) = 1 /\
      id = Sync.row_id env /\ email = single_address env req /\
      absent_from_store w (toLowerCase email) /\
      emails (snd (Sync.POST env u role req w))
        = emails w ++ [Email.mk email (Sync.now env)
                         (if Sync.expiryTime req =? 0 then Process.never_expires
                          else Sync.now env + Sync.expiryTime req) u] /\
      batchTasks (snd (Sync.POST env u role req w)) = batchTasks w
  | Sync.Rejected _ _ =>
      batchTasks (snd (Sync.POST env u role req w)) = batchTasks w
  end.
Proof.
  assert (Hnil : forall w0 : World, exists rows,
            emails w0 = emails w0 ++ rows /\ Forall (sync_row env u req) rows)
    by (intros w0; exists []; rewrite app_nil_r; auto).
  destruct (Sync.POST env u role req w) as [r w'] eqn:Hout. simpl.
  revert Hout. unfold Sync.POST, Sync.body.
  unfold bind at 1. unfold await at 1.
  destruct (Sync.json_rejects env);
    [munfold; intros H; injection H as <- <-; simpl; auto 10|].
  unfold ret at 1. unfold bind at 1.
  pose proof (Sync_quota_rejected_spec env u role
                (Create.batchCount_of (Sync.batch req)) w) as Hq.
  destruct (Sync.quota_rejected _ _ _ _ _) as [[msg|] w1|e w1];
    [destruct Hq as [-> _]; munfold; intros H; injection H as <- <-; simpl; auto 10
    | |destruct Hq as [-> _]; intros H; injection H as <- <-; simpl; auto 10].
  destruct Hq as [-> _].
  destruct (_ || _)%bool eqn:Hsize;
    [munfold; intros H; injection H as <- <-; simpl; auto 10|].
  apply orb_false_iff in Hsize as [Hlo Hhi].
  apply Z.ltb_ge in Hlo, Hhi. unfold Sync.MAX_BATCH_SIZE in Hhi.
  destruct (negb (existsb _ _));
    [munfold; intros H; injection H as <- <-; simpl; auto 10|].
  unfold bind at 1. unfold await at 1.
  destruct (Sync.domains_rejects env);
    [munfold; intros H; injection H as <- <-; simpl; auto 10|].
  unfold ret at 1.
  destruct (negb (existsb _ _));
    [munfold; intros H; injection H as <- <-; simpl; auto 10|].
  cbv zeta.
  destruct (1 <? Create.batchCount_of (Sync.batch req)) eqn:Hmany.
  - apply Z.ltb_lt in Hmany.
    pose proof (Sync_create_batch_spec env u req w) as Hb.
    destruct (Sync.create_batch _ _ _ _ _ _ _) as [[http msg|n addrs id st|id email] w2|e w2].
    + destruct Hb as (-> & _). intros H; injection H as <- <-. simpl. auto 10.
    + destruct Hb as (rows & -> & -> & -> & -> & Hne & Hlen & Hnd & Hall & He & Hnone
                      & Hbt & Hk & Hp).
      intros H; injection H as <- <-. simpl.
      split; [exact Hk|]. split; [exact Hp|]. split.
      * exists rows. split; [exact He|].
        eapply Forall_impl; [exact Hall|]. intros x [_ Hx]. exact Hx.
      * split; [lia|]. exists rows. split_and!; auto; [|lia].
        destruct rows; [contradiction | simpl; lia].
    + contradiction.
    + destruct Hb as (Hk & Hp & Hbt & rows & He & Hall).
      intros H; injection H as <- <-. simpl. split_and!; eauto.
  - apply Z.ltb_ge in Hmany.
    pose proof (Sync_create_single_spec env u req w) as Hb.
    destruct (Sync.create_single _ _ _ _ _ _) as [[http msg|n addrs id st|id email] w2|e w2].
    + destruct Hb as (-> & _). intros H; injection H as <- <-. simpl. auto 10.
    + contradiction.
    + destruct Hb as (-> & -> & Habs & ->).
      intros H; injection H as <- <-. simpl. split_and!; auto; [|lia].
      eexists. split; [reflexivity|]. constructor; [|constructor].
      unfold sync_row, single_address. simpl. split_and!; auto.
      apply endsWith_append.
    + subst w2. intros H; injection H as <- <-. simpl. auto 10.
Qed.

(** X12.  A synchronous batch creates what it reports.  When the
    synchronous route answers with a batch, the batch size asked for was
    above 1 and at most 50; the answer's count is the number of its
    addresses, at least 1 and less than one above the size asked for (the
    loop stops once the list is as long as the size); the address table has
    grown by exactly one row per reported address, in order: rows of the
    caller, in the requested domain, stamped with the request's clock
    reading, pairwise distinct and absent from the table before, compared
    in lower case; and the batch_task table has gained, under the fresh id
    of the answer, a completed row whose total and created counts both
    equal the reported count. *)
Theorem sync_batch_creates_what_it_reports env u role req w n addrs id st w' :
  Sync.POST env u role req w = (Sync.BatchCreated n addrs id st, w') ->
  st = completed /\ id = Sync.nanoid16 env /\
  1 < Create.batchCount_of (Sync.batch req) <= 50 /\
  n = Z.of_nat (length addrs) /\
  1 <= n /\ n - 1 < Create.batchCount_of (Sync.batch req) /\
  (exists rows,
     emails w' = emails w ++ rows /\
     map Email.address rows = addrs /\
     NoDup (map lower_address rows) /\
     Forall (fun r => absent_from_store w (lower_address r) /\ sync_row env u req r)
       rows) /\
  batchTasks w !! id = None /\
  batchTasks w' = <[id := sync_record env u req n]> (batchTasks w) /\
  kv w' = kv w.
Proof.
  intros Hout.
  pose proof (Sync_POST_cases env u role req w) as (Hk & _ & _ & Hc).
  rewrite Hout in Hk, Hc. simpl in Hk, Hc.
  destruct Hc as (Hsize & rows & -> & -> & -> & -> & Hn & Hnd & Hall & He & Hnone & Hb).
  split_and!; auto; try lia.
  - rewrite length_map. reflexivity.
  - exists rows. auto.
Qed.

Lemma sync_batch_creates_what_it_reports_witness :
  completed = completed /\ "B" = Sync.nanoid16 sync_env /\
  1 < Create.batchCount_of (Sync.batch sync_request_3) <= 50 /\
  3 = Z.of_nat (length ["u0@moemail.app"; "u1@moemail.app"; "u2@moemail.app"]) /\
  1 <= 3 /\ 3 - 1 < Create.batchCount_of (Sync.batch sync_request_3) /\
  (exists rows,
     emails (snd (Sync.POST sync_env "alice" (Create.other_role "KNIGHT")
                    sync_request_3 stuck_world))
       = emails stuck_world ++ rows /\
     map Email.address rows = ["u0@moemail.app"; "u1@moemail.app"; "u2@moemail.app"] /\
     NoDup (map lower_address rows) /\
     Forall (fun r => absent_from_store stuck_world (lower_address r) /\
                      sync_row sync_env "alice" sync_request_3 r) rows) /\
  batchTasks stuck_world !! "B" = None /\
  batchTasks (snd (Sync.POST sync_env "alice" (Create.other_role "KNIGHT")
                     sync_request_3 stuck_world))
    = <["B" := sync_record sync_env "alice" sync_request_3 3]> (batchTasks stuck_world) /\
  kv (snd (Sync.POST sync_env "alice" (Create.other_role "KNIGHT") sync_request_3
             stuck_world)) = kv stuck_world.
Proof.
  apply (sync_batch_creates_what_it_reports sync_env "alice" (Create.other_role "KNIGHT")
           sync_request_3 stuck_world 3
           ["u0@moemail.app"; "u1@moemail.app"; "u2@moemail.app"] "B" completed).
  vm_compute. reflexivity.
Defined.

(** X13.  The synchronous route never touches the ephemeral store and
    never removes or rewrites an address.  On every path, rejections
    included, the tasks in the ephemeral store are what they were and the
    address table is the table before followed by rows of the caller in
    the requested domain (possibly some even when the answer is 500: a
    rejected sub-batch does not undo the ones before it); the batch_task
    table changes only when the answer is a batch. *)
Theorem sync_route_only_appends_the_callers_rows env u role req w :
  kv (snd (Sync.POST env u role req w)) = kv w /\
  kv_puts (snd (Sync.POST env u role req w)) = kv_puts w /\
  (exists rows,
     emails (snd (Sync.POST env u role req w)) = emails w ++ rows /\
     Forall (sync_row env u req) rows) /\
  (batchTasks (snd (Sync.POST env u role req w)) = batchTasks w \/
   exists n addrs id st,
     fst (Sync.POST env u role req w) = Sync.BatchCreated n addrs id st).
Proof.
  pose proof (Sync_POST_cases env u role req w) as (Hk & Hp & He & Hc).
  split_and!; auto.
  destruct (fst (Sync.POST env u role req w)) as [http msg|n addrs id st|id email].
  - left. exact Hc.
  - right. eauto.
  - left. apply Hc.
Qed.

(** * From a synchronous batch to its download *)

Lemma filter_all {A} (f : A -> bool) l :
  Forall (fun x => f x = true) l -> List.filter f l = l.
Proof.
  induction 1 as [|x l Hx _ IH]; simpl; [reflexivity|]. rewrite Hx, IH. reflexivity.
Qed.

Lemma filter_none {A} (f : A -> bool) l :
  Forall (fun x => f x = false) l -> List.filter f l = [].
Proof.
  induction 1 as [|x l Hx _ IH]; simpl; [reflexivity|]. rewrite Hx, IH. reflexivity.
Qed.

Lemma order_by_createdAt_constant c l :
  Forall (fun r => Email.createdAt r = c) l -> Download.order_by_createdAt l = l.
Proof.
  unfold Download.order_by_createdAt.
  induction 1 as [|x l Hx Hl IH]; simpl; [reflexivity|]. rewrite IH.
  destruct Hl as [|y l Hy Hl]; simpl; [reflexivity|].
  rewrite Hx, Hy, Z.leb_refl. reflexivity.
Qed.

(** X14.  A synchronous batch can be downloaded from its history entry.
    After the synchronous route has answered with a batch, a download of
    the answer's id by the same caller (no ephemeral task lies under that
    id, and the caller's earlier addresses are older than the request's
    clock reading) answers a text file with exactly the reported
    addresses, in order, one per line. *)
Theorem sync_batch_downloads_what_it_created env denv u role req w n addrs id st w' :
  Sync.POST env u role req w = (Sync.BatchCreated n addrs id st, w') ->
  u <> EmptyString ->
  kv w !! id = None ->
  Forall (fun r => Email.userId r = u -> Email.createdAt r < Sync.now env) (emails w) ->
  download_no_rejects denv ->
  fst (Download.GET denv (Some u) id w')
    = TextFile (join_lines addrs) ("emails-" +:+ id +:+ ".txt").
Proof.
  intros Hout Hu Hnone Hold (Hget & Hfind & Hmany).
  pose proof (Sync_POST_cases env u role req w) as (Hk & _ & _ & Hc).
  rewrite Hout in Hk, Hc. simpl in Hk, Hc.
  destruct Hc as (Hsize & rows & -> & -> & -> & -> & Hn & Hnd & Hall & He & _ & Hb).
  set (record := sync_record env u req (Z.of_nat (length rows))) in *.
  assert (Hlook : batchTasks w' !! Sync.nanoid16 env = Some record)
    by (rewrite Hb; apply lookup_insert_eq).
  assert (Hrows : fallback_rows w' u record = rows).
  { unfold fallback_rows, record. simpl. rewrite He, List.filter_app.
    rewrite (filter_none _ (emails w)), (filter_all _ rows); simpl.
    - rewrite (order_by_createdAt_constant (Sync.now env)).
      + unfold Download.sql_limit.
        replace (_ <? 0) with false by (symmetry; apply Z.ltb_ge; lia).
        apply take_ge. lia.
      + eapply Forall_impl; [exact Hall|]. intros r (_ & _ & _ & Hc & _). exact Hc.
    - eapply Forall_impl; [exact Hall|]. intros r (_ & Hr & _ & Hc & _).
      rewrite Hr, Hc, String.eqb_refl, Z.leb_refl. reflexivity.
    - eapply Forall_impl; [exact Hold|]. intros r Hr. simpl in Hr.
      destruct (String.eqb_spec (Email.userId r) u) as [E|E]; [|reflexivity].
      simpl. apply Z.leb_gt, Hr, E. }
  assert (Hm : Download.matchingEmails rows (History.domain record)
                 (History.createdCount record) = map Email.address rows).
  { unfold Download.matchingEmails, Download.slice0, record. simpl.
    rewrite filter_all.
    - replace (_ <? 0) with false by (symmetry; apply Z.ltb_ge; lia).
      rewrite take_ge by lia. reflexivity.
    - eapply Forall_impl; [exact Hall|]. intros r (_ & _ & Hd & _). exact Hd. }
  rewrite (Download_fallback denv u _ w' record Hu) by (congruence || assumption).
  rewrite Hrows, Hm, Hmany, length_map.
  change (History.userId record) with u.
  change (History.status record) with completed.
  rewrite String.eqb_refl. simpl.
  destruct rows; [simpl in Hn; lia|]. reflexivity.
Qed.

Lemma sync_batch_downloads_what_it_created_witness :
  fst (Download.GET (Download.mkEnv None None None) (Some "alice") "B"
         (snd (Sync.POST sync_env "alice" (Create.other_role "KNIGHT") sync_request_3
                 stuck_world)))
    = TextFile (join_lines ["u0@moemail.app"; "u1@moemail.app"; "u2@moemail.app"])
        ("emails-" +:+ "B" +:+ ".txt").
Proof.
  apply (sync_batch_downloads_what_it_created sync_env (Download.mkEnv None None None)
           "alice" (Create.other_role "KNIGHT") sync_request_3 stuck_world 3
           ["u0@moemail.app"; "u1@moemail.app"; "u2@moemail.app"] "B" completed).
  - vm_compute. reflexivity.
  - discriminate.
  - reflexivity.
  - repeat constructor.
  - repeat split.
Defined.

(** * Which route takes which batch *)

Lemma Sync_body_in_quota env u role req w :
  sync_checks_run env ->
  sync_within_quota env u role req w = true ->
  Sync.body env u role req w =
    (if ((Create.batchCount_of (Sync.batch req) <? 1)
         || (Sync.MAX_BATCH_SIZE <? Create.batchCount_of (Sync.batch req)))%bool
     then ret size_refusal
     else if negb (existsb (fun option => option =? Sync.expiryTime req)
                     (Sync.EXPIRY_OPTIONS env))
     then ret (Sync.Rejected 400 "无效的过期时间")
     else if negb (existsb (String.eqb (Sync.domain req))
                     (Create.domains_of (Sync.EMAIL_DOMAINS env)))
     then ret (Sync.Rejected 400 "无效的域名")
     else if 1 <? Create.batchCount_of (Sync.batch req)
     then Sync.create_batch env u req (Create.batchCount_of (Sync.batch req))
            (Sync.now env)
            (if Sync.expiryTime req =? 0 then Process.never_expires
             else Sync.now env + Sync.expiryTime req)
     else Sync.create_single env u req (Sync.now env)
            (if Sync.expiryTime req =? 0 then Process.never_expires
             else Sync.now env + Sync.expiryTime req)) w.
Proof.
  intros (Hj & Hm & Hc & Hd) Hq. unfold Sync.body.
  unfold bind at 1. unfold await at 1. rewrite Hj. unfold ret at 1.
  unfold bind at 1.
  pose proof (Sync_quota_rejected_spec env u role
                (Create.batchCount_of (Sync.batch req)) w) as Hqs.
  destruct (Sync.quota_rejected _ _ _ _ _) as [b w1|e w1].
  2:{ exfalso. destruct Hqs as (_ & [H|H]); congruence. }
  destruct Hqs as (-> & Hb & _).
  assert (b = None) as ->.
  { apply Hb. destruct role; [exact I|]. apply negb_true_iff, Hq. }
  fold size_refusal.
  destruct (_ || _)%bool; [reflexivity|].
  destruct (negb (existsb _ _)); [reflexivity|].
  unfold bind at 1. unfold await at 1. rewrite Hd. unfold ret at 1.
  destruct (negb (existsb _ _)); reflexivity.
Qed.

(** X15.  A single address is unique whatever its case.  For a request
    for one address that passes the checks (in quota, allowed expiry and
    domain, no store call rejecting) and whose address is made of ASCII
    characters: if some stored address equals the requested one when both
    are lower-cased, the synchronous route answers 409 and changes
    nothing; otherwise it answers with the address exactly as requested
    and appends one row for it, owned by the caller.  The address is the
    caller's name, or a drawn one when the name is missing or empty,
    followed by "@" and the domain.  (The route lower-cases the requested
    address in JavaScript and the stored ones in SQLite; the two agree on
    ASCII text only.) *)
Theorem sync_single_address_is_unique_ignoring_case env u role req w :
  sync_checks_run env ->
  Sync.findFirst_rejects env 0 = None ->
  Sync.insert_rejects env 0 = None ->
  sync_within_quota env u role req w = true ->
  sync_valid env req = true ->
  Create.batchCount_of (Sync.batch req) = 1 ->
  is_ascii (single_address env req) = true ->
  ((exists r, r ∈ emails w /\
              toLowerCase (Email.address r) = toLowerCase (single_address env req)) ->
   Sync.POST env u role req w = (Sync.Rejected 409 "该邮箱地址已被使用", w)) /\
  ((forall r, r ∈ emails w ->
              toLowerCase (Email.address r) <> toLowerCase (single_address env req)) ->
   Sync.POST env u role req w
     = (Sync.Created (Sync.row_id env) (single_address env req),
        set_emails w
          (emails w ++ [Email.mk (single_address env req) (Sync.now env)
                          (if Sync.expiryTime req =? 0 then Process.never_expires
                           else Sync.now env + Sync.expiryTime req) u]))).
Proof.
  intros Hrun Hff Hins Hq Hv Hone _.
  apply andb_true_iff in Hv as [Hexp Hdom].
  unfold Sync.POST. rewrite (Sync_body_in_quota env u role req w Hrun Hq).
  rewrite Hone, Hexp, Hdom. simpl.
  unfold Sync.create_single. cbv zeta. fold (single_address env req).
  split.
  - intros (r & Hin & Heq).
    unfold bind at 1. unfold emails_findFirst, await. rewrite Hff.
    destruct (List.find _ (emails w)) as [r'|] eqn:Hfind; [reflexivity|].
    exfalso. apply list_elem_of_In in Hin.
    apply (find_none _ _ Hfind) in Hin. simpl in Hin.
    rewrite Heq, String.eqb_refl in Hin. discriminate.
  - intros Hfresh.
    unfold bind at 1. unfold emails_findFirst, await. rewrite Hff.
    destruct (List.find _ (emails w)) as [r'|] eqn:Hfind.
    { exfalso. apply find_some in Hfind as [Hin Heq].
      apply String.eqb_eq in Heq. apply (Hfresh r'); [|exact Heq].
      apply list_elem_of_In, Hin. }
    unfold bind, emails_insert, await. rewrite Hins.
    assert (Hu : unique_ok (map (fun r => toLowerCase (Email.address r)) (emails w))
                   [Email.mk (single_address env req) (Sync.now env)
                      (if Sync.expiryTime req =? 0 then Process.never_expires
                       else Sync.now env + Sync.expiryTime req) u] = true).
    { simpl. case_bool_decide as Hin; [|reflexivity]. exfalso.
      apply list_elem_of_fmap in Hin as (r & Heq & Hin).
      apply (Hfresh r Hin). symmetry. exact Heq. }
    rewrite Hu. reflexivity.
Qed.

Lemma sync_single_address_is_unique_ignoring_case_witness :
  Sync.POST sync_env "alice" (Create.other_role "KNIGHT") sync_request_dup stuck_world
    = (Sync.Rejected 409 "该邮箱地址已被使用", stuck_world).
Proof.
  apply (proj1 (sync_single_address_is_unique_ignoring_case sync_env "alice"
                  (Create.other_role "KNIGHT") sync_request_dup stuck_world
                  ltac:(repeat split) eq_refl eq_refl eq_refl eq_refl eq_refl
                  eq_refl)).
  exists (Email.mk "Dup@moemail.app" 5 9 "bob"). split; [|reflexivity].
  apply list_elem_of_here.
Defined.

Lemma Sync_in_range_not_size_refusal env u role req w :
  sync_checks_run env ->
  sync_within_quota env u role req w = true ->
  1 <= Create.batchCount_of (Sync.batch req) <= 50 ->
  fst (Sync.POST env u role req w) <> size_refusal.
Proof.
  intros Hrun Hq [Hlo Hhi].
  unfold Sync.POST. rewrite (Sync_body_in_quota env u role req w Hrun Hq).
  replace (_ || _)%bool with false.
  2:{ symmetry. apply orb_false_iff. unfold Sync.MAX_BATCH_SIZE.
      split; apply Z.ltb_ge; lia. }
  unfold size_refusal.
  destruct (negb (existsb _ _)); [simpl; discriminate|].
  destruct (negb (existsb _ _)); [simpl; discriminate|].
  destruct (1 <? _).
  - pose proof (Sync_create_batch_spec env u req w) as Hb.
    destruct (Sync.create_batch _ _ _ _ _ _ _)
      as [[http msg|n addrs id st|id email] w2|e w2]; simpl; try discriminate.
    destruct Hb as (_ & -> & _). discriminate.
  - pose proof (Sync_create_single_spec env u req w) as Hb.
    destruct (Sync.create_single _ _ _ _ _ _)
      as [[http msg|n addrs id st|id email] w2|e w2]; simpl; try discriminate.
    destruct Hb as (_ & -> & _). discriminate.
Qed.

(** X16.  The dialog sends each batch to the route that takes its size.
    For a batch of k >= 1 addresses (the dialog sends nothing for k < 1),
    from a signed-in caller who is within quota and asks for an allowed
    expiry time and domain, with no store call rejecting: when the dialog
    picks the asynchronous route (k > 50) that route stores a pending task
    and the synchronous route would have refused the size; when it picks
    the synchronous route (k <= 50) that route does not refuse the size
    and the asynchronous route would have sent the caller back to it.  The
    two routes split the sizes at 50 with no gap and no overlap. *)
Theorem dialog_sends_each_batch_to_the_route_that_takes_it
    cenv senv session u role req w k :
  Client.batchCountInvalid k = false ->
  Sync.batch req = Client.batch_member true k ->
  truthy session = Some u ->
  create_no_rejects cenv ->
  passes_checks cenv u role (as_create_body req) w = true ->
  sync_checks_run senv ->
  sync_within_quota senv u role req w = true ->
  match Client.apiEndpoint true k with
  | Client.batch_create =>
      fst (Create.POST cenv session role (as_create_body req) w)
        = CreatedJson (Create.nanoid16 cenv) pending
            "批量创建任务已启动，请使用任务ID查询进度" /\
      Sync.POST senv u role req w = (size_refusal, w)
  | Client.generate =>
      fst (Sync.POST senv u role req w) <> size_refusal /\
      Create.POST cenv session role (as_create_body req) w = (redirect, w)
  end.
Proof.
  intros Hk Hbatch Hs Hno Hchk Hrun Hq.
  unfold Client.batchCountInvalid in Hk. apply Z.ltb_ge in Hk.
  assert (Hn : Create.batchCount_of (Sync.batch req) = k).
  { rewrite Hbatch. simpl. destruct (k =? 0) eqn:E; [|reflexivity].
    apply Z.eqb_eq in E. lia. }
  rewrite (Create_POST_checked cenv session u role (as_create_body req) w Hs Hno Hchk).
  pose proof (dispatch_spec cenv u (as_create_body req) w) as Hd.
  destruct Hno as (_ & _ & _ & _ & Hput).
  unfold Create.ASYNC_THRESHOLD in Hd.
  change (Create.batch (as_create_body req)) with (Sync.batch req) in *.
  rewrite Hn in *.
  unfold Client.apiEndpoint, Client.useAsync. simpl.
  destruct (50 <? k) eqn:Hth.
  - apply Z.ltb_lt in Hth. split.
    + destruct (Create.dispatch _ _ _ _ _) as [r w'|e w'].
      * destruct Hd as [(_ & _ & -> & _)|(Hle & _)]; [reflexivity | lia].
      * destruct Hd as (_ & Hr & _). congruence.
    + unfold Sync.POST. rewrite (Sync_body_in_quota senv u role req w Hrun Hq).
      rewrite Hn. unfold Sync.MAX_BATCH_SIZE.
      replace (50 <? k) with true by (symmetry; apply Z.ltb_lt; lia).
      rewrite orb_true_r. reflexivity.
  - apply Z.ltb_ge in Hth. split.
    + apply Sync_in_range_not_size_refusal; auto. lia.
    + destruct (Create.dispatch _ _ _ _ _) as [r w'|e w'].
      * destruct Hd as [(Hlt & _)|(_ & -> & ->)]; [lia | reflexivity].
      * destruct Hd as (_ & _ & Hlt). lia.
Qed.

Lemma dialog_sends_each_batch_to_the_route_that_takes_it_witness :
  fst (Create.POST create_env (Some "alice") Create.EMPEROR
         (as_create_body sync_request_60) empty_world)
    = CreatedJson (Create.nanoid16 create_env) pending
        "批量创建任务已启动，请使用任务ID查询进度" /\
  Sync.POST sync_env "alice" Create.EMPEROR sync_request_60 empty_world
    = (size_refusal, empty_world).
Proof.
  apply (dialog_sends_each_batch_to_the_route_that_takes_it create_env sync_env
           (Some "alice") "alice" Create.EMPEROR sync_request_60 empty_world 60);
    try reflexivity; repeat split.
Defined.

(** * The history route *)

Lemma elem_of_insert_newest_first x r l :
  x ∈ HistoryList.insert_newest_first r l <-> x = r \/ x ∈ l.
Proof.
  induction l as [|y l IH]; simpl.
  - rewrite list_elem_of_singleton, elem_of_nil. tauto.
  - destruct (_ <=? _).
    + rewrite elem_of_cons. reflexivity.
    + rewrite !elem_of_cons, IH. tauto.
Qed.

Lemma insert_newest_first_perm r l :
  HistoryList.insert_newest_first r l ≡ₚ r :: l.
Proof.
  induction l as [|y l IH]; simpl; [reflexivity|].
  destruct (_ <=? _); [reflexivity|]. rewrite IH. apply Permutation_swap.
Qed.

Lemma order_newest_first_perm l : HistoryList.order_newest_first l ≡ₚ l.
Proof.
  unfold HistoryList.order_newest_first. induction l as [|x l IH]; simpl; [reflexivity|].
  rewrite insert_newest_first_perm, IH. reflexivity.
Qed.

Lemma insert_newest_first_sorted r l :
  newest_first (map (fun p => History.createdAt (snd p)) l) ->
  newest_first (map (fun p => History.createdAt (snd p))
                  (HistoryList.insert_newest_first r l)).
Proof.
  induction l as [|x l IH]; simpl; [auto|].
  intros [Hx Hl]. destruct (_ <=? _) eqn:E.
  - apply Z.leb_le in E. simpl. split_and!; auto.
    constructor; [exact E|]. eapply Forall_impl; [exact Hx|]. simpl. intros y Hy. lia.
  - apply Z.leb_gt in E. simpl. split; [|apply IH, Hl].
    apply Forall_forall. intros y Hy.
    apply list_elem_of_fmap in Hy as (p & -> & Hp).
    apply elem_of_insert_newest_first in Hp as [->|Hp]; [lia|].
    rewrite Forall_forall in Hx. apply Hx. apply list_elem_of_fmap. exists p. auto.
Qed.

Lemma order_newest_first_sorted l :
  newest_first (map (fun p => History.createdAt (snd p))
                  (HistoryList.order_newest_first l)).
Proof.
  unfold HistoryList.order_newest_first. induction l as [|x l IH]; simpl; [exact I|].
  apply insert_newest_first_sorted, IH.
Qed.

Lemma newest_first_sublist l1 l2 :
  l1 `sublist_of` l2 -> newest_first l2 -> newest_first l1.
Proof.
  induction 1 as [|x l1 l2 Hs IH|x l1 l2 Hs IH]; simpl; auto.
  - intros [Hx Hl]. split; [|apply IH, Hl].
    apply Forall_forall. intros y Hy. rewrite Forall_forall in Hx. apply Hx.
    eapply elem_of_sublist; eassumption.
  - intros [_ Hl]. apply IH, Hl.
Qed.

Lemma limit_offset_sublist {A} limit offset (l : list A) :
  HistoryList.limit_offset limit offset l `sublist_of` l.
Proof.
  unfold HistoryList.limit_offset. destruct (limit <? 0).
  - apply sublist_drop.
  - etransitivity; [apply sublist_take | apply sublist_drop].
Qed.

Lemma rows_of_spec u w id row :
  (id, row) ∈ HistoryList.rows_of u w <->
  batchTasks w !! id = Some row /\ History.userId row = u.
Proof.
  unfold HistoryList.rows_of. rewrite list_elem_of_In, filter_In, <- list_elem_of_In.
  rewrite elem_of_map_to_list. simpl. rewrite String.eqb_eq. reflexivity.
Qed.

Lemma rows_of_NoDup u w : NoDup (map fst (HistoryList.rows_of u w)).
Proof.
  unfold HistoryList.rows_of.
  pose proof (NoDup_fst_map_to_list (batchTasks w)) as H.
  induction (map_to_list (batchTasks w)) as [|p l IH]; simpl; [constructor|].
  apply NoDup_cons in H as [Hp Hl].
  destruct (String.eqb _ _); [|apply IH, Hl].
  simpl. apply NoDup_cons. split; [|apply IH, Hl].
  intros Hin. apply Hp. apply list_elem_of_fmap in Hin as (q & Hq & Hin).
  apply list_elem_of_fmap. exists q. split; [exact Hq|].
  apply list_elem_of_In in Hin. apply filter_In in Hin as [Hin _].
  apply list_elem_of_In, Hin.
Qed.

(** The page of the history route, when it answers one. *)
Lemma HistoryList_GET_page env session limit' offset' w items total limit offset w' :
  HistoryList.GET env session limit' offset' w
    = (HistoryList.Page items total limit offset, w') ->
  exists u,
    truthy session = Some u /\ w' = w /\
    limit = default 20 limit' /\ offset = default 0 offset' /\
    total = Z.of_nat (length (HistoryList.rows_of u w)) /\
    items = map HistoryList.to_item
              (HistoryList.limit_offset (Z.min limit 100) offset
                 (HistoryList.order_newest_first (HistoryList.rows_of u w))).
Proof.
  unfold HistoryList.GET, HistoryList.body.
  destruct (truthy session) as [u|]; [|unfold ret; discriminate].
  unfold bind, HistoryList.findMany, HistoryList.count, await, ret.
  destruct (HistoryList.findMany_rejects env); [unfold throw; discriminate|].
  destruct (HistoryList.count_rejects env); [unfold throw; discriminate|].
  intros H. injection H as <- <- <- <- <-. exists u. auto 10.
Qed.

(** X17.  The history route lists the caller's batches and nothing else.
    When it answers a page, every entry is the copy of a row of the
    batch_task table that belongs to the caller (id, domain, counts,
    status, error and both time stamps as stored), no id occurs twice,
    the reported total is the number of all the caller's rows whatever
    the page, the limit and offset of the answer are those asked for (20
    and 0 by default), and nothing in the world has changed. *)
Theorem history_lists_only_the_callers_batches
    env session limit' offset' w items total limit offset w' :
  HistoryList.GET env session limit' offset' w
    = (HistoryList.Page items total limit offset, w') ->
  exists u,
    truthy session = Some u /\ w' = w /\
    limit = default 20 limit' /\ offset = default 0 offset' /\
    total = Z.of_nat (length (HistoryList.rows_of u w)) /\
    Forall (fun it => exists row,
              batchTasks w !! HistoryList.id it = Some row /\
              History.userId row = u /\
              it = HistoryList.to_item (HistoryList.id it, row)) items /\
    NoDup (map HistoryList.id items).
Proof.
  intros H. apply HistoryList_GET_page in H as (u & Hs & -> & -> & -> & -> & ->).
  exists u. split_and!; auto.
  - apply Forall_fmap, Forall_forall. intros [id row] Hin. simpl.
    apply (fun H => elem_of_sublist _ _ _ H (limit_offset_sublist _ _ _)) in Hin.
    rewrite order_newest_first_perm in Hin. apply rows_of_spec in Hin.
    exists row. split_and!; tauto.
  - rewrite <- list_fmap_compose.
    change (HistoryList.id ∘ HistoryList.to_item) with (@fst string History.row).
    eapply sublist_NoDup; [|apply fmap_sublist, limit_offset_sublist].
    rewrite order_newest_first_perm. apply rows_of_NoDup.
Qed.

Lemma history_lists_only_the_callers_batches_witness :
  exists u,
    truthy (Some "alice") = Some u /\ history_world = history_world /\
    20 = default 20 None /\ 1 = default 0 (Some 1) /\
    3 = Z.of_nat (length (HistoryList.rows_of u history_world)) /\
    Forall (fun it => exists row,
              batchTasks history_world !! HistoryList.id it = Some row /\
              History.userId row = u /\
              it = HistoryList.to_item (HistoryList.id it, row))
      [HistoryList.mkItem "b4" "moemail.app" 3 3 completed None 200 (Some 201);
       HistoryList.mkItem "b1" "moemail.app" 60 60 completed None 100 (Some 130)] /\
    NoDup (map HistoryList.id
             [HistoryList.mkItem "b4" "moemail.app" 3 3 completed None 200 (Some 201);
              HistoryList.mkItem "b1" "moemail.app" 60 60 completed None 100 (Some 130)]).
Proof.
  apply (history_lists_only_the_callers_batches (HistoryList.mkEnv None None)
           (Some "alice") None (Some 1) history_world).
  vm_compute. reflexivity.
Defined.

(** X18.  A page of the history is ordered and bounded.  The entries of
    a page come newest first by creation time; a page holds no more
    entries than the reported total; and for a limit that is not
    negative it holds at most min(limit, 100) entries, so never more than
    100. *)
Theorem history_page_is_newest_first_and_capped
    env session limit' offset' w items total limit offset w' :
  HistoryList.GET env session limit' offset' w
    = (HistoryList.Page items total limit offset, w') ->
  newest_first (map HistoryList.createdAt items) /\
  Z.of_nat (length items) <= total /\
  (0 <= limit -> Z.of_nat (length items) <= Z.min limit 100).
Proof.
  intros H. apply HistoryList_GET_page in H as (u & Hs & -> & -> & -> & -> & ->).
  split_and!.
  - rewrite <- list_fmap_compose.
    change (HistoryList.createdAt ∘ HistoryList.to_item)
      with (fun p : string * History.row => History.createdAt (snd p)).
    eapply newest_first_sublist;
      [apply fmap_sublist, limit_offset_sublist | apply order_newest_first_sorted].
  - rewrite length_map.
    pose proof (sublist_length _ _
                  (limit_offset_sublist (Z.min (default 20 limit') 100)
                     (default 0 offset')
                     (HistoryList.order_newest_first (HistoryList.rows_of u w)))) as Hl.
    rewrite (Permutation_length (order_newest_first_perm _)) in Hl. lia.
  - intros Hpos. rewrite length_map. unfold HistoryList.limit_offset.
    replace (_ <? 0) with false by (symmetry; apply Z.ltb_ge; lia).
    rewrite length_take. lia.
Qed.

Lemma history_page_is_newest_first_and_capped_witness :
  newest_first
    (map HistoryList.createdAt
       [HistoryList.mkItem "b2" "moemail.app" 80 20 failed (Some "D1_ERROR") 300
          (Some 310);
        HistoryList.mkItem "b4" "moemail.app" 3 3 completed None 200 (Some 201)]) /\
  Z.of_nat
    (length
       [HistoryList.mkItem "b2" "moemail.app" 80 20 failed (Some "D1_ERROR") 300
          (Some 310);
        HistoryList.mkItem "b4" "moemail.app" 3 3 completed None 200 (Some 201)]) <= 3 /\
  (0 <= 2 ->
   Z.of_nat
     (length
        [HistoryList.mkItem "b2" "moemail.app" 80 20 failed (Some "D1_ERROR") 300
           (Some 310);
         HistoryList.mkItem "b4" "moemail.app" 3 3 completed None 200 (Some 201)])
   <= Z.min 2 100).
Proof.
  apply (history_page_is_newest_first_and_capped (HistoryList.mkEnv None None)
           (Some "alice") (Some 2) None history_world _ 3 2 0 history_world).
  vm_compute. reflexivity.
Defined.

(** * The panel and the history route *)

Lemma HistoryList_GET_20 env session u w o :
  truthy session = Some u -> history_no_rejects env -> 0 <= o ->
  HistoryList.GET env session (Some 20) (Some o) w
    = (HistoryList.Page (take 20 (drop (Z.to_nat o) (history_of u w)))
         (Z.of_nat (length (history_of u w))) 20 o,
       w).
Proof.
  intros Hs [Hf Hc] Ho. unfold HistoryList.GET, HistoryList.body. rewrite Hs.
  unfold bind, HistoryList.findMany, HistoryList.count, await, ret.
  rewrite Hf, Hc. simpl. unfold HistoryList.limit_offset, history_of. simpl.
  rewrite fmap_take, fmap_drop, length_map.
  rewrite (Permutation_length (order_newest_first_perm _)). reflexivity.
Qed.

Lemma take_add_short {A} (l : list A) k :
  take (k + length (take 20 (drop k l))) l = take (k + 20) l.
Proof.
  rewrite length_take, length_drop.
  destruct (le_lt_dec (k + 20) (length l)) as [H|H].
  - f_equal. lia.
  - rewrite !take_ge by lia. reflexivity.
Qed.

(** X19.  The panel pages through the whole history.  With the table
    unchanged and no store call rejecting, after the load on mount and n
    presses of "load more" the panel shows the first 20 (n + 1) of the
    caller's batches, newest first, each exactly once; it offers "load
    more" exactly when there are batches beyond those; and its next
    offset is the number of entries shown.  So pressing "load more" until
    it disappears shows every batch of the caller. *)
Theorem panel_pages_through_the_whole_history env session u w n :
  truthy session = Some u ->
  history_no_rejects env ->
  Nat.iter n (Panel.load_more env session w) (Panel.first_load env session w)
  = Panel.mkState (take (20 * (n + 1)) (history_of u w))
      (Z.of_nat (20 * (n + 1)) <? Z.of_nat (length (history_of u w)))
      (Z.min (Z.of_nat (20 * (n + 1))) (Z.of_nat (length (history_of u w)))).
Proof.
  intros Hs Hno. set (L := history_of u w).
  induction n as [|n IH].
  - unfold Nat.iter. cbn [nat_rect]. unfold Panel.first_load, Panel.fetchHistory.
    rewrite (HistoryList_GET_20 env session u w 0 Hs Hno) by lia.
    fold L. change (Z.to_nat 0) with 0%nat. rewrite drop_0.
    unfold Panel.received. simpl fst. cbv iota beta.
    change (0 =? 0) with true. cbv iota.
    change (20 * (0 + 1))%nat with 20%nat.
    rewrite length_take. f_equal.
    + destruct (Z.eqb_spec (Z.of_nat (20 `min` length L)) 20),
        (Z.ltb_spec (0 + Z.of_nat (20 `min` length L)) (Z.of_nat (length L))),
        (Z.ltb_spec (Z.of_nat 20) (Z.of_nat (length L))); simpl; try reflexivity; lia.
    + lia.
  - change (Nat.iter (S n) ?f ?x) with (f (Nat.iter n f x)). rewrite IH. clear IH.
    set (k := (20 * (n + 1))%nat).
    replace (20 * (S n + 1))%nat with (k + 20)%nat by lia.
    unfold Panel.load_more. cbn [Panel.hasMore Panel.offset Panel.history].
    destruct (Z.ltb_spec (Z.of_nat k) (Z.of_nat (length L))) as [Hlt|Hge].
    + unfold Panel.fetchHistory.
      rewrite (HistoryList_GET_20 env session u w _ Hs Hno) by lia.
      fold L. rewrite Z.min_l by lia. rewrite Nat2Z.id.
      unfold Panel.received. simpl fst. cbv iota beta.
      cbn [Panel.hasMore Panel.offset Panel.history].
      replace (Z.of_nat k =? 0) with false by (symmetry; apply Z.eqb_neq; lia).
      rewrite take_take_drop, length_take, length_drop. f_equal.
      * destruct (Z.eqb_spec (Z.of_nat (20 `min` (length L - k))) 20),
          (Z.ltb_spec (Z.of_nat k + Z.of_nat (20 `min` (length L - k)))
             (Z.of_nat (length L))),
          (Z.ltb_spec (Z.of_nat (k + 20)) (Z.of_nat (length L)));
          simpl; try reflexivity; lia.
      * lia.
    + rewrite !take_ge by lia. f_equal.
      * symmetry. apply Z.ltb_ge. lia.
      * lia.
Qed.

Lemma panel_pages_through_the_whole_history_witness :
  Nat.iter 1 (Panel.load_more (HistoryList.mkEnv None None) (Some "alice") history_world)
    (Panel.first_load (HistoryList.mkEnv None None) (Some "alice") history_world)
  = Panel.mkState (take (20 * (1 + 1)) (history_of "alice" history_world))
      (Z.of_nat (20 * (1 + 1)) <? Z.of_nat (length (history_of "alice" history_world)))
      (Z.min (Z.of_nat (20 * (1 + 1)))
         (Z.of_nat (length (history_of "alice" history_world)))).
Proof.
  apply (panel_pages_through_the_whole_history (HistoryList.mkEnv None None)
           (Some "alice") "alice" history_world 1).
  - reflexivity.
  - split; reflexivity.
Defined.

(** * The download route and its earlier version *)

(** X20.  The fall-back of the download route changed nothing for tasks
    that are still in the ephemeral store.  Whenever the ephemeral store
    holds a task under the id, or its read rejects, or nobody is signed
    in, the download route answers exactly as its earlier version did and
    leaves the same world.  The two differ only when the ephemeral store
    holds nothing under the id: the earlier version then answers 404,
    the later one consults the batch_task table. *)
Theorem download_agrees_with_its_earlier_version env session id w :
  (kv w !! id <> None \/ Download.get_rejects env <> None \/ truthy session = None ->
   Download.GET env session id w
     = DownloadKV.GET (Download.get_rejects env) session id w) /\
  (forall u, truthy session = Some u ->
     kv w !! id = None -> Download.get_rejects env = None ->
     DownloadKV.GET (Download.get_rejects env) session id w
       = (ErrorJson 404 "任务不存在或已过期", w)).
Proof.
  split.
  - intros H. unfold Download.GET, DownloadKV.GET, run, Download.body, DownloadKV.body.
    destruct (truthy session) as [u|] eqn:Hs; [|reflexivity].
    munfold.
    destruct (Download.get_rejects env) as [e|] eqn:Hget; [reflexivity|].
    simpl. destruct (kv w !! id) as [t|] eqn:Hlook.
    2:{ exfalso. destruct H as [H|[H|H]]; congruence. }
    destruct (String.eqb (userId t) u); simpl; [|reflexivity].
    destruct (bool_decide (status t = completed)); simpl; [|reflexivity].
    destruct (length (default [] (emailList t)) =? 0)%nat; reflexivity.
  - intros u Hs Hlook Hget. unfold DownloadKV.GET, run, DownloadKV.body.
    rewrite Hs. unfold bind, SITE_CONFIG_get, await. rewrite Hget, Hlook. reflexivity.
Qed.

Lemma download_agrees_with_its_earlier_version_witness :
  Download.GET (Download.mkEnv None None None) (Some "alice") "D3" three_world
    = DownloadKV.GET (Download.get_rejects (Download.mkEnv None None None))
        (Some "alice") "D3" three_world.
Proof.
  apply (proj1 (download_agrees_with_its_earlier_version (Download.mkEnv None None None)
                  (Some "alice") "D3" three_world)).
  left. discriminate.
Defined.

(** * The configured domains *)

Lemma append_empty_r s : s +:+ EmptyString = s.
Proof.
  induction s as [|c s IH]; [reflexivity|].
  change (String c s +:+ EmptyString) with (String c (s +:+ EmptyString)).
  rewrite IH. reflexivity.
Qed.

Lemma append_assoc_string s1 s2 s3 : (s1 +:+ s2) +:+ s3 = s1 +:+ (s2 +:+ s3).
Proof.
  induction s1 as [|c s1 IH]; [reflexivity|].
  change ((String c s1 +:+ s2) +:+ s3) with (String c ((s1 +:+ s2) +:+ s3)).
  rewrite IH. reflexivity.
Qed.

Lemma split_comma_aux_free s : forall cur,
  comma_free s = true -> split_comma_aux cur s = [cur +:+ s].
Proof.
  induction s as [|c s IH]; intros cur H; simpl in *.
  - rewrite append_empty_r. reflexivity.
  - apply andb_true_iff in H as [Hc Hs]. apply negb_true_iff in Hc. rewrite Hc.
    rewrite (IH _ Hs). rewrite append_assoc_string. reflexivity.
Qed.

Lemma split_comma_aux_app s t : forall cur,
  comma_free s = true ->
  split_comma_aux cur (s +:+ "," +:+ t) = (cur +:+ s) :: split_comma_aux EmptyString t.
Proof.
  induction s as [|c s IH]; intros cur H; simpl in *.
  - rewrite append_empty_r. reflexivity.
  - apply andb_true_iff in H as [Hc Hs]. apply negb_true_iff in Hc. rewrite Hc.
    rewrite (IH _ Hs). rewrite append_assoc_string. reflexivity.
Qed.

Lemma split_comma_join l :
  l <> [] -> Forall (fun d => comma_free d = true) l ->
  split_comma (join_commas l) = l.
Proof.
  unfold split_comma, join_commas. intros Hne Hall.
  induction Hall as [|d l Hd Hl IH]; [contradiction|].
  destruct l as [|d' l].
  - simpl. apply split_comma_aux_free, Hd.
  - change (String.concat "," (d :: d' :: l))
      with (d +:+ "," +:+ String.concat "," (d' :: l)).
    rewrite (split_comma_aux_app _ _ _ Hd), IH by discriminate. reflexivity.
Qed.

(** X21.  The accepted domains are the configured ones.  When the
    EMAIL_DOMAINS entry is the comma-joined list of one or more domains
    (none containing a comma, the whole entry not empty), the create
    route and the synchronous route read back exactly that list, so a
    request's domain passes the check if and only if it is, character for
    character, one of the configured domains.  Without the entry, or with
    an empty one, the only accepted domain is moemail.app. *)
Theorem accepted_domains_are_the_configured_ones :
  (forall l d,
     Forall (fun d => comma_free d = true) l ->
     join_commas l <> EmptyString ->
     Create.domains_of (Some (join_commas l)) = l /\
     (existsb (String.eqb d) (Create.domains_of (Some (join_commas l))) = true
      <-> d ∈ l)) /\
  Create.domains_of None = ["moemail.app"] /\
  Create.domains_of (Some EmptyString) = ["moemail.app"].
Proof.
  split; [|split; reflexivity].
  intros l d Hall Hne.
  assert (Hl : Create.domains_of (Some (join_commas l)) = l).
  { unfold Create.domains_of. rewrite truthy_some by exact Hne.
    apply split_comma_join; [|exact Hall]. intros ->. apply Hne. reflexivity. }
  split; [exact Hl|]. rewrite Hl, existsb_exists. split.
  - intros (x & Hin & Heq). apply String.eqb_eq in Heq. subst x.
    apply list_elem_of_In, Hin.
  - intros Hin. exists d. split; [apply list_elem_of_In, Hin | apply String.eqb_refl].
Qed.

Lemma accepted_domains_are_the_configured_ones_witness :
  Create.domains_of (Some (join_commas ["moemail.app"; "example.org"]))
    = ["moemail.app"; "example.org"] /\
  (existsb (String.eqb "example.org")
     (Create.domains_of (Some (join_commas ["moemail.app"; "example.org"]))) = true
   <-> "example.org" ∈ ["moemail.app"; "example.org"]).
Proof.
  apply (proj1 accepted_domains_are_the_configured_ones
           ["moemail.app"; "example.org"] "example.org").
  - repeat constructor.
  - discriminate.
Defined.

(** X22.  The size bounds of the synchronous route.  For a caller within
    quota (the checks before the size test going through), the
    synchronous route refuses a request for its size, with 400 and the
    world unchanged, exactly when the batch count is below 1 or above 50.
    A missing batch member and a batch of 0 both count as 1. *)
Theorem sync_refuses_sizes_outside_1_to_50 env u role req w :
  sync_checks_run env ->
  sync_within_quota env u role req w = true ->
  (Create.batchCount_of (Sync.batch req) < 1 \/
   50 < Create.batchCount_of (Sync.batch req) ->
   Sync.POST env u role req w = (size_refusal, w)) /\
  (1 <= Create.batchCount_of (Sync.batch req) <= 50 ->
   fst (Sync.POST env u role req w) <> size_refusal) /\
  Create.batchCount_of None = 1 /\ Create.batchCount_of (Some 0) = 1.
Proof.
  intros Hrun Hq. split_and!; [| |reflexivity..].
  - intros Hout. unfold Sync.POST.
    rewrite (Sync_body_in_quota env u role req w Hrun Hq).
    replace (_ || _)%bool with true; [reflexivity|].
    symmetry. apply orb_true_iff. unfold Sync.MAX_BATCH_SIZE.
    destruct Hout; [left|right]; apply Z.ltb_lt; lia.
  - intros Hin. apply Sync_in_range_not_size_refusal; assumption.
Qed.

Lemma sync_refuses_sizes_outside_1_to_50_witness :
  (Create.batchCount_of (Sync.batch sync_request_60) < 1 \/
   50 < Create.batchCount_of (Sync.batch sync_request_60) ->
   Sync.POST sync_env "alice" Create.EMPEROR sync_request_60 empty_world
     = (size_refusal, empty_world)) /\
  (1 <= Create.batchCount_of (Sync.batch sync_request_60) <= 50 ->
   fst (Sync.POST sync_env "alice" Create.EMPEROR sync_request_60 empty_world)
     <> size_refusal) /\
  Create.batchCount_of None = 1 /\ Create.batchCount_of (Some 0) = 1.
Proof.
  apply (sync_refuses_sizes_outside_1_to_50 sync_env "alice" Create.EMPEROR
           sync_request_60 empty_world).
  - repeat split.
  - reflexivity.
Defined.

(** * Finished batches in the history *)

Lemma elem_of_history_of it u w :
  it ∈ history_of u w <->
  exists id row, batchTasks w !! id = Some row /\ History.userId row = u /\
                 it = HistoryList.to_item (id, row).
Proof.
  unfold history_of. rewrite list_elem_of_fmap. split.
  - intros ([id row] & -> & Hin). rewrite order_newest_first_perm in Hin.
    apply rows_of_spec in Hin as [Hl Hu]. exists id, row. auto.
  - intros (id & row & Hl & Hu & ->). exists (id, row). split; [reflexivity|].
    rewrite order_newest_first_perm. apply rows_of_spec. auto.
Qed.

Lemma after_chunk_owner env t l :
  userId (after_chunk env t l) = userId t /\
  domain (after_chunk env t l) = domain t /\
  totalCount (after_chunk env t l) = totalCount t /\
  createdAt (after_chunk env t l) = createdAt t.
Proof.
  unfold after_chunk. cbv zeta.
  destruct (0 <? _); simpl; destruct (totalCount t <? _); simpl;
    match goal with
    | |- context [?a <=? ?b] => destruct (a <=? b)
    end; simpl; auto.
Qed.

(** X23.  Finished batches show up in their owner's history.  A batch
    the synchronous route has answered is, right after the request, an
    entry of the caller's history: its id, the requested domain, total and
    created both equal to the reported count, status completed.  A task
    that a call of the process route has completed is, when the batch_task
    table held no row under its id and its read and write went through,
    an entry of the owner's history with the task's domain, total and
    creation time, the final created count, status completed and the
    completion time of the call. *)
Theorem finished_batches_show_up_in_the_history :
  (forall env u role req w n addrs id st w',
     Sync.POST env u role req w = (Sync.BatchCreated n addrs id st, w') ->
     HistoryList.mkItem id (Sync.domain req) n n completed None (Sync.now env)
       (Some (Sync.now_completed env)) ∈ history_of u w') /\
  (forall env id w t l attempts,
     id <> EmptyString ->
     kv w !! id = Some t ->
     workable t ->
     no_rejects env ->
     generation env (generation_task env t) (generation_world env id t w)
       = Ok (l, attempts) (generation_world env id t w) ->
     status (after_chunk env (generation_task env t) l) = completed ->
     Process.history_find_rejects env = None ->
     Process.history_write_rejects env = None ->
     batchTasks w !! id = None ->
     HistoryList.mkItem id (domain t) (totalCount t)
       (createdCount (after_chunk env (generation_task env t) l)) completed None
       (createdAt t) (Some (Process.now_completed env))
       ∈ history_of (userId t) (snd (Process.POST env (Some id) w))).
Proof.
  split.
  - intros env u role req w n addrs id st w' Hout.
    pose proof (Sync_POST_cases env u role req w) as (_ & _ & _ & Hc).
    rewrite Hout in Hc. simpl in Hc.
    destruct Hc as (_ & rows & -> & -> & -> & -> & _ & _ & _ & _ & _ & Hb).
    apply elem_of_history_of.
    exists (Sync.nanoid16 env), (sync_record env u req (Z.of_nat (length rows))).
    split_and!; [rewrite Hb; apply lookup_insert_eq | reflexivity | reflexivity].
  - intros env id w t l attempts Hid Hlook Hwork (Hget & Hpp & Hff & Hins & Hput)
      Hg Hdone Hf Hw Hnone.
    rewrite POST_unfold.
    rewrite (body_workable env id w t Hid Hlook Hwork Hget Hpp).
    destruct (process_chunk_completes env id _ _ l attempts Hg) as
      (w' & -> & _ & _ & Hb & _); auto.
    { split_and!; assumption. }
    { unfold generation_task. destruct (decide (status t = pending)); simpl;
        [discriminate|]. destruct Hwork as [Hs|[Hs _]]; congruence. }
    simpl. apply elem_of_history_of.
    destruct (after_chunk_owner env (generation_task env t) l) as (Hu & Hd & Ht & Hc).
    assert (Hgt : userId (generation_task env t) = userId t /\
                  domain (generation_task env t) = domain t /\
                  totalCount (generation_task env t) = totalCount t /\
                  createdAt (generation_task env t) = createdAt t)
      by (unfold generation_task; destruct (decide _); simpl; auto).
    destruct Hgt as (Hu' & Hd' & Ht' & Hc').
    exists id, (completed_record env (after_chunk env (generation_task env t) l) None).
    split_and!.
    + rewrite (Hb Hf Hw).
      replace (batchTasks (generation_world env id t w) !! id) with (@None History.row)
        by (unfold generation_world; destruct (decide _); simpl; congruence).
      apply lookup_insert_eq.
    + simpl. congruence.
    + unfold HistoryList.to_item. simpl. rewrite Hd, Ht, Hc, Hd', Ht', Hc'. reflexivity.
Qed.

Lemma finished_batches_show_up_in_the_history_witness :
  HistoryList.mkItem "B" (Sync.domain sync_request_3) 3 3 completed None
    (Sync.now sync_env) (Some (Sync.now_completed sync_env))
    ∈ history_of "alice"
        (snd (Sync.POST sync_env "alice" (Create.other_role "KNIGHT") sync_request_3
                stuck_world)).
Proof.
  apply (proj1 finished_batches_show_up_in_the_history sync_env "alice"
           (Create.other_role "KNIGHT") sync_request_3 stuck_world 3
           ["u0@moemail.app"; "u1@moemail.app"; "u2@moemail.app"] "B" completed).
  vm_compute. reflexivity.
Defined.

(** * A mailbox by its address *)

Lemma toLowerCase_empty s : toLowerCase s = EmptyString -> s = EmptyString.
Proof. destruct s; [reflexivity | discriminate]. Qed.

Lemma find_first_of_NoDup {A} (key : A -> string) (a : string) (l : list A) (r : A) :
  NoDup (map key l) -> r ∈ l -> key r = a ->
  List.find (fun x => String.eqb (key x) a) l = Some r.
Proof.
  induction l as [|x l IH]; simpl; intros Hnd Hin Hk.
  - apply elem_of_nil in Hin. contradiction.
  - apply NoDup_cons in Hnd as [Hx Hnd].
    apply elem_of_cons in Hin as [->|Hin].
    + rewrite Hk, String.eqb_refl. reflexivity.
    + destruct (String.eqb_spec (key x) a) as [E|E]; [|apply IH; assumption].
      exfalso. apply Hx. rewrite E, <- Hk. apply list_elem_of_fmap. exists r. auto.
Qed.

Lemma find_app_none {A} (f : A -> bool) (l1 l2 : list A) :
  List.find f l1 = None -> List.find f (l1 ++ l2) = List.find f l2.
Proof.
  induction l1 as [|x l1 IH]; simpl; [reflexivity|].
  destruct (f x); [discriminate | exact IH].
Qed.

Lemma ByAddress_GET_found env a w r :
  a <> EmptyString ->
  ByAddress.findFirst_rejects env = None ->
  List.find (fun x => String.eqb (toLowerCase (Email.address x)) (toLowerCase a))
    (emails w) = Some r ->
  fst (ByAddress.GET env (Some a) w)
    = (if Email.expiresAt r <? ByAddress.now env
       then ByAddress.Rejected 404 "Email not found or not accessible"
       else ByAddress.Found
              (ByAddress.mkShared (Email.address r) (Email.createdAt r)
                 (Email.expiresAt r))).
Proof.
  intros Ha Hf Hfind. unfold ByAddress.GET, ByAddress.getSharedEmailByAddress.
  rewrite (truthy_some a Ha). unfold try_catch, bind at 1, emails_findFirst, await.
  rewrite Hf, Hfind. destruct (_ <? _); reflexivity.
Qed.

(** X24.  Every address of a batch opens by its address until it
    expires.  After a call of the process route in which no store call
    rejects, each row the call accepted can be fetched through the
    by-address route under its address in any spelling of upper and lower
    case: the answer carries the address as stored with its creation and
    expiry times as long as the expiry time has not passed at the
    request's clock reading, and is 404 afterwards. *)
Theorem batch_addresses_open_by_address_until_they_expire
    env benv id w t l attempts r spelled :
  id <> EmptyString ->
  kv w !! id = Some t ->
  workable t ->
  no_rejects env ->
  generation env (generation_task env t) (generation_world env id t w)
    = Ok (l, attempts) (generation_world env id t w) ->
  r ∈ l ->
  toLowerCase spelled = lower_address r ->
  ByAddress.findFirst_rejects benv = None ->
  fst (ByAddress.GET benv (Some spelled) (snd (Process.POST env (Some id) w)))
    = (if Email.expiresAt r <? ByAddress.now benv
       then ByAddress.Rejected 404 "Email not found or not accessible"
       else ByAddress.Found
              (ByAddress.mkShared (Email.address r) (Email.createdAt r)
                 (Email.expiresAt r))).
Proof.
  intros Hid Hlook Hwork Hno Hg Hin Hsp Hf.
  pose proof (POST_runs env id w t Hid Hlook Hno Hwork) as (l' & a' & Hg' & _ & _ & _ & He & _).
  rewrite Hg in Hg'. injection Hg' as <- <-.
  rewrite generation_world_emails in He.
  apply generation_ok in Hg as ((Hnd & Hall) & _ & _).
  assert (Hne : spelled <> EmptyString).
  { intros ->. simpl in Hsp. symmetry in Hsp. apply toLowerCase_empty in Hsp.
    rewrite Forall_forall in Hall. destruct (Hall r Hin) as (_ & k & ->).
    unfold candidate in Hsp. simpl in Hsp.
    destruct (Process.nanoid env k); discriminate. }
  apply ByAddress_GET_found; [exact Hne | exact Hf|].
  rewrite He, Hsp, find_app_none.
  - apply (find_first_of_NoDup lower_address); auto.
  - rewrite Forall_forall in Hall. destruct (Hall r Hin) as (Habs & _).
    unfold absent_from_store in Habs. rewrite generation_world_emails in Habs.
    exact Habs.
Qed.

Lemma batch_addresses_open_by_address_until_they_expire_witness :
  fst (ByAddress.GET (ByAddress.mkEnv 999 None) (Some "U1@MoeMail.app")
         (snd (Process.POST (quiet_env 0) (Some "S") stuck_world)))
    = (if Email.expiresAt (candidate (quiet_env 0) stuck_task 1) <? ByAddress.now (ByAddress.mkEnv 999 None)
       then ByAddress.Rejected 404 "Email not found or not accessible"
       else ByAddress.Found
              (ByAddress.mkShared (Email.address (candidate (quiet_env 0) stuck_task 1))
                 (Email.createdAt (candidate (quiet_env 0) stuck_task 1))
                 (Email.expiresAt (candidate (quiet_env 0) stuck_task 1)))).
Proof.
  apply (batch_addresses_open_by_address_until_they_expire (quiet_env 0)
           (ByAddress.mkEnv 999 None) "S" stuck_world stuck_task
           (map (candidate (quiet_env 0) stuck_task) (seq 0 3)) 3).
  - discriminate.
  - reflexivity.
  - right. split; [reflexivity | simpl; lia].
  - repeat split.
  - vm_compute. reflexivity.
  - simpl. rewrite !elem_of_cons. right. left. reflexivity.
  - reflexivity.
  - reflexivity.
Defined.

(** X25.  The by-address route reads only, and never answers 500.  For
    a requested address made of ASCII characters (the route lower-cases
    it in JavaScript and the stored ones in SQLite, and the two agree on
    ASCII text only), it answers 400 without an address, a mailbox only
    for a row of the address table whose address equals the requested one
    in lower case and whose expiry time has not passed, and 404
    otherwise: also when the lookup rejects, which the library function
    logs and turns into "not found".  The ephemeral store, the address
    table and the batch_task table are never changed, and the owner of
    the row is not part of the answer. *)
Theorem by_address_route_only_reads_and_never_answers_500 env a w :
  (forall spelled, a = Some spelled -> is_ascii spelled = true) ->
  kv (snd (ByAddress.GET env a w)) = kv w /\
  emails (snd (ByAddress.GET env a w)) = emails w /\
  batchTasks (snd (ByAddress.GET env a w)) = batchTasks w /\
  match fst (ByAddress.GET env a w) with
  | ByAddress.Found email =>
      ByAddress.findFirst_rejects env = None /\
      exists spelled r,
        truthy a = Some spelled /\ r ∈ emails w /\
        toLowerCase (Email.address r) = toLowerCase spelled /\
        ByAddress.now env <= Email.expiresAt r /\
        email = ByAddress.mkShared (Email.address r) (Email.createdAt r)
                  (Email.expiresAt r)
  | ByAddress.Rejected http _ =>
      (http = 400 /\ truthy a = None) \/ (http = 404 /\ truthy a <> None)
  end.
Proof.
  intros _.
  unfold ByAddress.GET, ByAddress.getSharedEmailByAddress.
  destruct (truthy a) as [spelled|] eqn:Ha; [|simpl; auto 10].
  unfold emails_findFirst. munfold.
  destruct (ByAddress.findFirst_rejects env).
  { simpl. split_and!; auto; try (right; split; [reflexivity | discriminate]). }
  cbv beta.
  destruct (List.find _ (emails w)) as [r|] eqn:Hfind.
  2:{ simpl. split_and!; auto; try (right; split; [reflexivity | discriminate]). }
  destruct (Email.expiresAt r <? ByAddress.now env) eqn:Hexp.
  { simpl. split_and!; auto; try (right; split; [reflexivity | discriminate]). }
  simpl. split_and!; auto.
  apply find_some in Hfind as [Hin Heq]. apply String.eqb_eq in Heq.
  apply Z.ltb_ge in Hexp. exists spelled, r. split_and!; auto.
  apply list_elem_of_In, Hin.
Qed.

Lemma by_address_route_only_reads_and_never_answers_500_witness :
  kv (snd (ByAddress.GET (ByAddress.mkEnv 7 None) (Some "DUP@moemail.app")
             stuck_world)) = kv stuck_world /\
  emails (snd (ByAddress.GET (ByAddress.mkEnv 7 None) (Some "DUP@moemail.app")
                 stuck_world)) = emails stuck_world /\
  batchTasks (snd (ByAddress.GET (ByAddress.mkEnv 7 None) (Some "DUP@moemail.app")
                     stuck_world)) = batchTasks stuck_world /\
  match fst (ByAddress.GET (ByAddress.mkEnv 7 None) (Some "DUP@moemail.app")
               stuck_world) with
  | ByAddress.Found email =>
      ByAddress.findFirst_rejects (ByAddress.mkEnv 7 None) = None /\
      exists spelled r,
        truthy (Some "DUP@moemail.app") = Some spelled /\ r ∈ emails stuck_world /\
        toLowerCase (Email.address r) = toLowerCase spelled /\
        ByAddress.now (ByAddress.mkEnv 7 None) <= Email.expiresAt r /\
        email = ByAddress.mkShared (Email.address r) (Email.createdAt r)
                  (Email.expiresAt r)
  | ByAddress.Rejected http _ =>
      (http = 400 /\ truthy (Some "DUP@moemail.app") = None) \/
      (http = 404 /\ truthy (Some "DUP@moemail.app") <> None)
  end.
Proof.
  apply (by_address_route_only_reads_and_never_answers_500
           (ByAddress.mkEnv 7 None) (Some "DUP@moemail.app") stuck_world).
  intros spelled H. injection H as <-. reflexivity.
Defined.

(** * The process route and its earlier version *)

Lemma generate_world env task n now' expires budget :
  forall attempts l (set : gset string) w,
  match Process.generate env task n now' expires budget attempts l set w with
  | Ok _ w' => w' = w
  | Throw _ w' => w' = w
  end.
Proof.
  induction budget as [|b IH]; intros attempts l set w; simpl; [reflexivity|].
  destruct (Z.of_nat (length l) <? n); [|reflexivity].
  case_bool_decide; [apply IH|].
  unfold bind, emails_findFirst, await.
  destruct (Process.findFirst_rejects env attempts); [reflexivity|].
  destruct (List.find _ _); apply IH.
Qed.

Lemma same_progress_refl t : same_progress t t.
Proof. reflexivity. Qed.

Lemma same_progress_everywhere_refl m : same_progress_everywhere m m.
Proof.
  intros k. destruct (m !! k); constructor. reflexivity.
Qed.

Lemma same_progress_everywhere_insert m id a b :
  same_progress a b ->
  same_progress_everywhere (<[id := a]> m) (<[id := b]> m).
Proof.
  intros H k. destruct (decide (k = id)) as [->|Hne].
  - rewrite !lookup_insert_eq. constructor. exact H.
  - rewrite !lookup_insert_ne by auto. apply same_progress_everywhere_refl.
Qed.

Lemma address_lists_untouched_refl m : address_lists_untouched m m.
Proof. intros k t H. eauto. Qed.

Lemma address_lists_untouched_insert m0 m id t t0 :
  address_lists_untouched m0 m ->
  m !! id = Some t0 -> emailList t = emailList t0 ->
  address_lists_untouched m0 (<[id := t]> m).
Proof.
  intros Hm Hl He k t' Hk. destruct (decide (k = id)) as [->|Hne].
  - rewrite lookup_insert_eq in Hk. injection Hk as <-.
    destruct (Hm id t0 Hl) as (t1 & H1 & H2). exists t1. split; [exact H1|congruence].
  - rewrite lookup_insert_ne in Hk by auto. apply Hm, Hk.
Qed.

(** The two insertion loops in lockstep; the current version may have
    logged a line before. *)
Lemma KV_insert_batches_sim env fuel : forall k rest created addrs w c,
  match ProcessKV.insert_batches env fuel k rest created w,
        Process.insert_batches env fuel k rest created addrs (set_console w c) with
  | Ok n wo, Ok (n', _) wn =>
      n = n' /\ wn = set_console wo c /\
      kv wo = kv w /\ batchTasks wo = batchTasks w
  | Throw eo wo, Throw en wn =>
      eo = en /\ wn = set_console wo c /\
      kv wo = kv w /\ batchTasks wo = batchTasks w
  | _, _ => False
  end.
Proof.
  induction fuel as [|f IH]; intros k rest created addrs w c.
  - simpl. unfold ret. auto.
  - destruct rest as [|r rest]; [simpl; unfold ret; auto|].
    cbn [ProcessKV.insert_batches Process.insert_batches].
    unfold bind, emails_insert, await.
    destruct (Process.insert_rejects env k) as [e|]; [unfold throw; auto|].
    change (emails (set_console w c)) with (emails w).
    destruct (unique_ok _ _); [|auto].
    change (set_emails (set_console w c) ?l) with (set_console (set_emails w l) c).
    match goal with
    | |- context [Process.insert_batches _ _ _ ?rs ?cr ?ad (set_console ?w1 _)] =>
        specialize (IH (S k) rs cr ad w1 c)
    end.
    destruct (ProcessKV.insert_batches _ _ _ _ _ _) as [n wo|eo wo];
      destruct (Process.insert_batches _ _ _ _ _ _ _) as [[n' a'] wn|en wn];
      auto.
Qed.

Lemma set_console_same w : set_console w (console w) = w.
Proof. destruct w; reflexivity. Qed.

Lemma process_chunk_steps env id task :
  Process.process_chunk env id task
  = (let* (l, attempts) := generation env task in
     let* _ := warning task l attempts in
     let* (created, addrs) := insertion env l in
     chunk_end env id task l created addrs).
Proof. reflexivity. Qed.

Lemma KV_process_chunk_steps env id task :
  ProcessKV.process_chunk env id task
  = (let* (l, attempts) := generation env task in
     let* created := ProcessKV.insert_batches env (length l) 0 l 0 in
     earlier_chunk_end env id task l created).
Proof. reflexivity. Qed.

Lemma insertion_sim env l w c :
  match ProcessKV.insert_batches env (length l) 0 l 0 w,
        insertion env l (set_console w c) with
  | Ok n wo, Ok (n', _) wn =>
      n = n' /\ emails wo = emails wn /\ kv wn = kv w /\
      kv wo = kv w /\ batchTasks wo = batchTasks w
  | Throw _ wo, Throw _ wn =>
      emails wo = emails wn /\ kv wn = kv w /\
      kv wo = kv w /\ batchTasks wo = batchTasks w
  | _, _ => False
  end.
Proof.
  unfold insertion. destruct (0 <? Z.of_nat (length l)) eqn:Hpos.
  - pose proof (KV_insert_batches_sim env (length l) 0 l 0 [] w c) as H.
    unfold try_catch.
    destruct (ProcessKV.insert_batches _ _ _ _ _ _) as [n wo|eo wo];
      destruct (Process.insert_batches _ _ _ _ _ _ _) as [[n' a'] wn|en wn];
      try contradiction.
    + destruct H as (-> & -> & Hk & Hb). simpl. auto.
    + destruct H as (-> & -> & Hk & Hb). simpl. auto.
  - destruct l; [|apply Z.ltb_ge in Hpos; simpl in Hpos; lia].
    simpl. unfold ret. auto.
Qed.

Lemma listed_as_set a t : exists x, listed a t = set_emailList x t.
Proof.
  unfold listed. destruct (0 <? _); [eauto|].
  exists (emailList t). destruct t; reflexivity.
Qed.

Lemma clamped_set_emailList x t :
  clamped (set_emailList x t) = set_emailList x (clamped t).
Proof.
  unfold clamped. change (totalCount (set_emailList x t)) with (totalCount t).
  change (processedCount (set_emailList x t)) with (processedCount t).
  destruct (_ <? _); reflexivity.
Qed.

Lemma emailList_clamped_counted env task n c :
  emailList (clamped (counted env task n c)) = emailList task.
Proof. unfold clamped. destruct (_ <? _); reflexivity. Qed.

Lemma chunk_end_sim env id task l c a wo wn :
  emails wo = emails wn ->
  chunk_agrees id task wo wn
    (earlier_chunk_end env id task l c wo) (chunk_end env id task l c a wn).
Proof.
  intros He. unfold earlier_chunk_end, chunk_end. cbv zeta.
  pose proof (emailList_clamped_counted env task (Z.of_nat (length l)) c) as Hel.
  destruct (listed_as_set a (counted env task (Z.of_nat (length l)) c)) as (x & ->).
  rewrite clamped_set_emailList.
  set (t := clamped _) in *. clearbody t.
  change (totalCount (set_emailList x t)) with (totalCount t).
  change (processedCount (set_emailList x t)) with (processedCount t).
  destruct (totalCount t <=? processedCount t).
  - unfold bind at 2. unfold bind at 2.
    destruct (save_completed_frame env id (completed_task (set_emailList x t)) wn)
      as (w3 & -> & Hk3 & _ & He3).
    munfold. destruct (Process.size_over_20MB env), (Process.put_rejects env);
      unfold chunk_agrees; simpl; rewrite ?He3, ?Hk3; split_and!; auto.
    all: eexists _, _; split_and!; [| |reflexivity|reflexivity]; [reflexivity|exact Hel].
  - munfold. destruct (Process.size_over_20MB env), (Process.put_rejects env);
      unfold chunk_agrees; simpl; split_and!; auto.
    all: eexists _, _; split_and!; [| |reflexivity|reflexivity]; [reflexivity|exact Hel].
Qed.

Lemma chunk_agrees_rebase id task wo wn w o n :
  kv wo = kv w -> kv wn = kv w -> batchTasks wo = batchTasks w ->
  chunk_agrees id task wo wn o n -> chunk_agrees id task w w o n.
Proof.
  unfold chunk_agrees. intros -> -> ->. auto.
Qed.

Lemma warning_as_console task l a w :
  exists c, warning task l a w = Ok tt (set_console w c).
Proof.
  unfold warning. destruct (_ && _)%bool.
  - eexists. reflexivity.
  - exists (console w). rewrite set_console_same. reflexivity.
Qed.

Lemma bind_run {A B} (c : M A) (k : A -> M B) w :
  bind c k w = match c w with Ok a w' => k a w' | Throw e w' => Throw e w' end.
Proof. reflexivity. Qed.

Lemma KV_chunk_sim env id task w :
  chunk_agrees id task w w
    (ProcessKV.process_chunk env id task w) (Process.process_chunk env id task w).
Proof.
  rewrite process_chunk_steps, KV_process_chunk_steps.
  rewrite !bind_run.
  pose proof (generate_world env task (chunk_size task) (Process.now_generate env)
                (if expiryTime task =? 0 then Process.never_expires
                 else Process.now_generate env + expiryTime task)
                (Z.to_nat (chunk_size task * 5)) 0 [] ∅ w) as Hg.
  fold (generation env task) in Hg.
  destruct (generation env task w) as [[l a] w1|e w1]; subst w1;
    [|unfold chunk_agrees; auto].
  rewrite !bind_run.
  destruct (warning_as_console task l a w) as (c & ->).
  rewrite !bind_run.
  pose proof (insertion_sim env l w c) as Hi.
  destruct (ProcessKV.insert_batches _ _ _ _ _ _) as [n wo|eo wo];
    destruct (insertion env l _) as [[n' a'] wn|en wn]; try contradiction.
  - destruct Hi as (<- & He & Hkn & Hko & Hb).
    apply (chunk_agrees_rebase id task wo wn); auto.
    apply chunk_end_sim, He.
  - unfold chunk_agrees. tauto.
Qed.

Lemma chunk_agrees_body id task w0 w o n :
  batchTasks w = batchTasks w0 ->
  address_lists_untouched (kv w0) (kv w) ->
  (exists t0, kv w !! id = Some t0 /\ emailList task = emailList t0) ->
  chunk_agrees id task w w o n -> body_agrees w0 o n.
Proof.
  intros Hb Hu (t0 & Ht0 & Hel). unfold chunk_agrees, body_agrees.
  destruct o as [ro wo|eo wo], n as [rn wn|en wn]; auto.
  - intros (-> & He & Hbo & to & tn & Hsp & Hto & Hko & Hkn).
    rewrite Hko, Hkn. split_and!; auto; try congruence.
    + apply same_progress_everywhere_insert, Hsp.
    + apply (address_lists_untouched_insert _ _ _ _ t0); auto. congruence.
  - intros (He & Hbo & Hko & Hkn). rewrite Hko. split_and!; auto; congruence.
Qed.

Lemma KV_body_sim env taskId w :
  body_agrees w (ProcessKV.body env taskId w) (Process.body env taskId w).
Proof.
  unfold ProcessKV.body, Process.body.
  destruct (truthy taskId) as [id|];
    [|unfold body_agrees, ret; split_and!; auto using same_progress_everywhere_refl,
        address_lists_untouched_refl].
  rewrite !bind_run. unfold SITE_CONFIG_get, await.
  destruct (Process.get_rejects env);
    [unfold body_agrees, throw; split_and!; auto using address_lists_untouched_refl|].
  destruct (kv w !! id) as [task|] eqn:Hlook;
    [|unfold body_agrees, ret; split_and!; auto using same_progress_everywhere_refl,
        address_lists_untouched_refl].
  destruct (decide (status task = completed));
    [unfold body_agrees, ret; split_and!; auto using same_progress_everywhere_refl,
        address_lists_untouched_refl|].
  destruct (decide (status task = failed));
    [unfold body_agrees, ret; split_and!; auto using same_progress_everywhere_refl,
        address_lists_untouched_refl|].
  destruct (_ && _)%bool.
  { apply (chunk_agrees_body id task w w); auto using address_lists_untouched_refl.
    - eauto.
    - apply KV_chunk_sim. }
  destruct (decide (status task = pending));
    [|unfold body_agrees, ret; split_and!; auto using same_progress_everywhere_refl,
        address_lists_untouched_refl].
  cbv zeta. rewrite !bind_run. unfold SITE_CONFIG_put, await.
  destruct (Process.put_processing_rejects env);
    [unfold body_agrees, throw; split_and!; auto using address_lists_untouched_refl|].
  match goal with
  | |- body_agrees _ (ProcessKV.process_chunk _ _ ?t ?w1) _ =>
      apply (chunk_agrees_body id t w w1); [reflexivity| | |apply KV_chunk_sim]
  end.
  - simpl. apply (address_lists_untouched_insert _ _ _ _ task);
      auto using address_lists_untouched_refl.
  - simpl. rewrite lookup_insert_eq. eauto.
Qed.

Lemma KV_on_error_sim env taskId eo en wo wn :
  kv wo = kv wn -> emails wo = emails wn ->
  exists wo' wn',
    ProcessKV.on_error env taskId eo wo = Ok (ErrorJson 500 "处理批量任务失败") wo' /\
    Process.on_error env taskId en wn = Ok (ErrorJson 500 "处理批量任务失败") wn' /\
    emails wo' = emails wn' /\ batchTasks wo' = batchTasks wo /\
    same_progress_everywhere (kv wo') (kv wn') /\
    address_lists_untouched (kv wo) (kv wo').
Proof.
  intros Hk He. unfold ProcessKV.on_error, Process.on_error.
  rewrite ?bind_run. unfold console_log at 1 3. unfold try_catch.
  destruct (truthy taskId) as [id|].
  2:{ unfold ret. rewrite ?bind_run. eexists _, _.
      split_and!; try reflexivity; simpl; auto.
      - rewrite Hk. apply same_progress_everywhere_refl.
      - apply address_lists_untouched_refl. }
  rewrite ?bind_run. unfold SITE_CONFIG_get, await.
  destruct (Process.handler_get_rejects env).
  { unfold throw, console_log. rewrite ?bind_run. eexists _, _.
    split_and!; try reflexivity; simpl; auto.
    - rewrite Hk. apply same_progress_everywhere_refl.
    - apply address_lists_untouched_refl. }
  change (kv (set_console wo ?c)) with (kv wo).
  change (kv (set_console wn ?c)) with (kv wn).
  rewrite <- Hk.
  destruct (kv wo !! id) as [task|] eqn:Hlook.
  2:{ unfold ret. rewrite ?bind_run. eexists _, _.
      split_and!; try reflexivity; simpl; auto.
      - rewrite Hk. apply same_progress_everywhere_refl.
      - apply address_lists_untouched_refl. }
  cbv zeta. rewrite ?bind_run. unfold SITE_CONFIG_put, await.
  destruct (Process.handler_put_rejects env).
  { unfold throw, console_log. rewrite ?bind_run. eexists _, _.
    split_and!; try reflexivity; simpl; auto.
    - rewrite Hk. apply same_progress_everywhere_refl.
    - apply address_lists_untouched_refl. }
  match goal with
  | |- context [Process.save_failed ?e ?i ?t ?w0] =>
      destruct (save_failed_spec e i t w0) as (w3 & -> & Hk3 & _ & He3 & _)
  end.
  simpl in Hk3, He3.
  unfold ret. rewrite ?bind_run. eexists _, _.
  split_and!; try reflexivity; simpl; auto.
  - congruence.
  - rewrite Hk3, <- Hk.
    apply same_progress_everywhere_insert. reflexivity.
  - apply (address_lists_untouched_insert _ _ _ _ task);
      auto using address_lists_untouched_refl.
Qed.

Lemma address_lists_untouched_trans m0 m1 m2 :
  address_lists_untouched m0 m1 -> address_lists_untouched m1 m2 ->
  address_lists_untouched m0 m2.
Proof.
  intros H1 H2 k t Hk. destruct (H2 k t Hk) as (t1 & Ht1 & E1).
  destruct (H1 k t1 Ht1) as (t0 & Ht0 & E0). exists t0. split; [auto|congruence].
Qed.

(** X26.  The process route and its earlier version differ in the
    bookkeeping only.  From the same world and under the same
    surroundings, whatever store call rejects, the two versions give the
    same answer and leave the same address table, and the ephemeral tasks
    they leave agree key by key in everything but the address list and
    the error text.  The earlier version never changes the address list
    of a task and never writes the batch_task table. *)
Theorem earlier_process_route_differs_only_in_bookkeeping env taskId w :
  fst (ProcessKV.POST env taskId w) = fst (Process.POST env taskId w) /\
  emails (snd (ProcessKV.POST env taskId w))
    = emails (snd (Process.POST env taskId w)) /\
  same_progress_everywhere (kv (snd (ProcessKV.POST env taskId w)))
    (kv (snd (Process.POST env taskId w))) /\
  address_lists_untouched (kv w) (kv (snd (ProcessKV.POST env taskId w))) /\
  batchTasks (snd (ProcessKV.POST env taskId w)) = batchTasks w.
Proof.
  unfold ProcessKV.POST, Process.POST, run.
  pose proof (KV_body_sim env taskId w) as Hb. unfold body_agrees in Hb.
  destruct (ProcessKV.body env taskId w) as [ro wo|eo wo];
    destruct (Process.body env taskId w) as [rn wn|en wn]; try contradiction.
  - destruct Hb as (-> & He & Hbt & Hsp & Hu). simpl. auto.
  - destruct Hb as (He & Hbt & Hk & Hu).
    destruct (KV_on_error_sim env taskId eo en wo wn Hk He)
      as (wo' & wn' & -> & -> & He' & Hbt' & Hsp' & Hu').
    simpl. split_and!; auto; try congruence.
    apply (address_lists_untouched_trans _ (kv wo)); auto.
Qed.

Lemma KV_POST_untouched env taskId w :
  address_lists_untouched (kv w) (kv (snd (ProcessKV.POST env taskId w))).
Proof.
  unfold ProcessKV.POST, run.
  pose proof (KV_body_sim env taskId w) as Hb. unfold body_agrees in Hb.
  destruct (ProcessKV.body env taskId w) as [ro wo|eo wo];
    destruct (Process.body env taskId w) as [rn wn|en wn]; try contradiction.
  - destruct Hb as (_ & _ & _ & _ & Hu). exact Hu.
  - destruct Hb as (He & _ & Hk & Hu).
    destruct (KV_on_error_sim env taskId eo eo wo wn Hk He)
      as (wo' & wn' & -> & _ & _ & _ & _ & Hu').
    apply (address_lists_untouched_trans _ (kv wo)); auto.
Qed.

Lemma earlier_calls_untouched calls : forall w,
  address_lists_untouched (kv w) (kv (earlier_calls calls w)).
Proof.
  induction calls as [|c calls IH]; intros w; simpl.
  - apply address_lists_untouched_refl.
  - eapply address_lists_untouched_trans; [apply (KV_POST_untouched c.1 c.2 w)|].
    apply IH.
Qed.

(** X27.  The earlier versions never serve a file.  Take a task whose
    address list is missing or empty, as the create route stores it.
    After any series of calls of the earlier version of the process
    route, whatever their task ids and whichever of their store calls
    reject, the earlier version of the download route answers the
    download of the task with an error; when the task is completed and
    its owner asks and the read goes through, the error is 400 "no
    addresses to download". *)
Theorem earlier_versions_never_serve_a_file calls get_rejects session id w :
  (forall t0, kv w !! id = Some t0 -> default [] (emailList t0) = []) ->
  exists http error,
    fst (DownloadKV.GET get_rejects session id (earlier_calls calls w))
      = ErrorJson http error /\
    (get_rejects = None ->
     forall t, kv (earlier_calls calls w) !! id = Some t ->
       status t = completed -> truthy session = Some (userId t) ->
       http = 400 /\ error = "没有可下载的邮箱地址").
Proof.
  intros Hempty.
  pose proof (earlier_calls_untouched calls w) as Hu.
  set (w' := earlier_calls calls w) in *. clearbody w'.
  unfold DownloadKV.GET, run, DownloadKV.body, DownloadKV.on_error.
  destruct (truthy session) as [u|] eqn:Hs.
  2:{ eexists _, _. split; [reflexivity|]. intros _ t _ _ H. discriminate. }
  rewrite bind_run. unfold SITE_CONFIG_get, await.
  destruct get_rejects as [e|].
  { eexists _, _. split; [reflexivity|]. intros H. discriminate. }
  destruct (kv w' !! id) as [t|] eqn:Hlook.
  2:{ eexists _, _. split; [reflexivity|]. intros _ t H. discriminate. }
  destruct (Hu id t Hlook) as (t0 & Ht0 & Hel).
  assert (Hnil : default [] (emailList t) = []) by (rewrite Hel; auto).
  destruct (negb (String.eqb (userId t) u)) eqn:Hown.
  { eexists _, _. split; [reflexivity|]. intros _ t' H _ Hu'.
    injection H as <-. injection Hu' as ->.
    rewrite String.eqb_refl in Hown. discriminate. }
  destruct (negb (bool_decide (status t = completed))) eqn:Hst.
  { eexists _, _. split; [reflexivity|]. intros _ t' H Hc _.
    injection H as <-. rewrite bool_decide_eq_true_2 in Hst by exact Hc.
    discriminate. }
  rewrite Hnil. simpl. eexists _, _. split; [reflexivity|]. auto.
Qed.

Lemma earlier_versions_never_serve_a_file_witness :
  exists http error,
    fst (DownloadKV.GET None (Some "alice") "S"
           (earlier_calls [(quiet_env 0, Some "S")] stuck_world))
      = ErrorJson http error /\
    (@None Thrown = None ->
     forall t, kv (earlier_calls [(quiet_env 0, Some "S")] stuck_world) !! "S" = Some t ->
       status t = completed -> truthy (Some "alice") = Some (userId t) ->
       http = 400 /\ error = "没有可下载的邮箱地址").
Proof.
  apply (earlier_versions_never_serve_a_file [(quiet_env 0, Some "S")] None
           (Some "alice") "S" stuck_world).
  intros t0 H. vm_compute in H. injection H as <-. reflexivity.
Defined.

(** * What is thrown, and what is captured *)











(** The same call read off the stores: a rejected insert with message
    "D1_ERROR" leaves the task failed with the prefixed message in both
    stores. *)
Example rejected_insert_is_recorded_with_its_message :
  fst (Process.POST insert_failing_env (Some "T") sample_world)
    = ErrorJson 500 "处理批量任务失败" /\
  status <$> kv (snd (Process.POST insert_failing_env (Some "T") sample_world)) !! "T"
    = Some failed /\
  error <$> kv (snd (Process.POST insert_failing_env (Some "T") sample_world)) !! "T"
    = Some (Some "邮箱插入失败: D1_ERROR") /\
  History.status
    <$> batchTasks (snd (Process.POST insert_failing_env (Some "T") sample_world)) !! "T"
    = Some failed /\
  History.error
    <$> batchTasks (snd (Process.POST insert_failing_env (Some "T") sample_world)) !! "T"
    = Some (Some "邮箱插入失败: D1_ERROR").
Proof. vm_compute. repeat split. Qed.

(** * The content of a download *)

Lemma join_lines_joined l : newline_joined l (join_lines l).
Proof.
  unfold join_lines. induction l as [|a l IH]; [constructor|].
  destruct l as [|b l]; [constructor|].
  change (String.concat newline (a :: b :: l))
    with (a +:+ newline +:+ String.concat newline (b :: l)).
  constructor. exact IH.
Qed.

Lemma insert_by_createdAt_perm r l : Download.insert_by_createdAt r l ≡ₚ r :: l.
Proof.
  induction l as [|y l IH]; simpl; [reflexivity|].
  destruct (_ <=? _); [reflexivity|]. rewrite IH. apply Permutation_swap.
Qed.

Lemma order_by_createdAt_perm l : Download.order_by_createdAt l ≡ₚ l.
Proof.
  unfold Download.order_by_createdAt. induction l as [|x l IH]; simpl; [reflexivity|].
  rewrite insert_by_createdAt_perm, IH. reflexivity.
Qed.

Lemma insert_by_createdAt_sorted r l :
  oldest_first (map Email.createdAt l) ->
  oldest_first (map Email.createdAt (Download.insert_by_createdAt r l)).
Proof.
  induction l as [|x l IH]; simpl; [auto|].
  intros [Hx Hl]. destruct (_ <=? _) eqn:E.
  - apply Z.leb_le in E. simpl. split_and!; auto.
    constructor; [exact E|]. eapply Forall_impl; [exact Hx|]. simpl. intros y Hy. lia.
  - apply Z.leb_gt in E. simpl. split; [|apply IH, Hl].
    apply Forall_forall. intros y Hy.
    apply list_elem_of_fmap in Hy as (p & -> & Hp).
    apply elem_of_insert_by_createdAt in Hp as [->|Hp]; [lia|].
    rewrite Forall_forall in Hx. apply Hx. apply list_elem_of_fmap. exists p. auto.
Qed.

Lemma order_by_createdAt_sorted l :
  oldest_first (map Email.createdAt (Download.order_by_createdAt l)).
Proof.
  unfold Download.order_by_createdAt. induction l as [|x l IH]; simpl; [exact I|].
  apply insert_by_createdAt_sorted, IH.
Qed.

Lemma filter_map_address (P : string -> bool) (l : list Email.row) :
  map Email.address (List.filter (fun r => P (Email.address r)) l)
  = List.filter P (map Email.address l).
Proof.
  induction l as [|r l IH]; simpl; [reflexivity|].
  destruct (P (Email.address r)); simpl; rewrite IH; reflexivity.
Qed.

Lemma matchingEmails_fallback w u record :
  0 <= History.totalCount record -> 0 <= History.createdCount record ->
  Download.matchingEmails (fallback_rows w u record) (History.domain record)
    (History.createdCount record)
  = take (Z.to_nat (History.createdCount record))
      (List.filter (fun a => endsWith a ("@" +:+ History.domain record))
         (map Email.address
            (take (Z.to_nat (History.totalCount record * 2))
               (Download.order_by_createdAt
                  (List.filter
                     (fun r => (String.eqb (Email.userId r) u
                                && (History.createdAt record <=? Email.createdAt r))%bool)
                     (emails w)))))).
Proof.
  intros Ht Hc.
  unfold Download.matchingEmails, fallback_rows, Download.slice0, Download.sql_limit.
  replace (History.createdCount record <? 0) with false
    by (symmetry; apply Z.ltb_ge; lia).
  replace (History.totalCount record * 2 <? 0) with false
    by (symmetry; apply Z.ltb_ge; lia).
  change (map Email.address ?l) with (Email.address <$> l).
  rewrite fmap_take.
  change (Email.address <$> ?l) with (map Email.address l).
  rewrite (filter_map_address (fun a => endsWith a ("@" +:+ History.domain record))).
  reflexivity.
Qed.

(** C8.  (1) A download by the owner of a completed task that is still in
    the ephemeral store, whose address list agrees with its createdCount
    > 0, answers a text file whose content is the stored list joined by
    newlines: exactly createdCount entries, each ending in "@" and the
    task's domain; the world is left as it was.  (2) That agreement holds
    of the task the create route stores and is kept by every call of the
    process route.  (3) When the ephemeral record is gone and the
    permanent record is completed and the requester's (its counts not
    negative), the answer is rebuilt from the address table: take the
    rows of the requester created at or after the record's createdAt,
    oldest first, cut to 2 x totalCount; keep the addresses that end in
    "@" and the domain; cut to createdCount.  The answer is a text file
    with these addresses joined by newlines, and 400 when there is none.
    (4) On both paths a requester who is not the owner is answered 403
    and a task that is not completed 400. *)
Theorem download_returns_created_addresses :
  (forall env u id w t,
     u <> EmptyString -> kv w !! id = Some t -> userId t = u ->
     status t = completed -> list_ok t -> 0 < createdCount t ->
     Download.get_rejects env = None ->
     exists l content,
       emailList t = Some l /\
       Download.GET env (Some u) id w
         = (TextFile content ("emails-" +:+ id +:+ ".txt"), w) /\
       newline_joined l content /\
       Z.of_nat (length l) = createdCount t /\
       Forall (fun a => endsWith a ("@" +:+ domain t) = true) l) /\
  (forall env session role req w id st msg w',
     Create.POST env session role req w = (CreatedJson id st msg, w') ->
     exists t, kv w' !! id = Some t /\ list_ok t) /\
  (forall env id w t,
     id <> EmptyString -> kv w !! id = Some t -> list_ok t ->
     exists t', kv (snd (Process.POST env (Some id) w)) !! id = Some t' /\ list_ok t') /\
  (forall env u id w record,
     u <> EmptyString -> kv w !! id = None -> batchTasks w !! id = Some record ->
     History.userId record = u -> History.status record = completed ->
     download_no_rejects env ->
     0 <= History.totalCount record -> 0 <= History.createdCount record ->
     exists sorted found,
       sorted ≡ₚ List.filter
                   (fun r => (String.eqb (Email.userId r) u
                              && (History.createdAt record <=? Email.createdAt r))%bool)
                   (emails w) /\
       oldest_first (map Email.createdAt sorted) /\
       found = take (Z.to_nat (History.createdCount record))
                 (List.filter (fun a => endsWith a ("@" +:+ History.domain record))
                    (map Email.address
                       (take (Z.to_nat (History.totalCount record * 2)) sorted))) /\
       (found = [] ->
        fst (Download.GET env (Some u) id w) = ErrorJson 400 "没有可下载的邮箱地址") /\
       (found <> [] ->
        exists content,
          fst (Download.GET env (Some u) id w)
            = TextFile content ("emails-" +:+ id +:+ ".txt") /\
          newline_joined found content)) /\
  (forall env u id w t,
     u <> EmptyString -> kv w !! id = Some t -> Download.get_rejects env = None ->
     (userId t <> u ->
      Download.GET env (Some u) id w = (ErrorJson 403 "无权访问此任务", w)) /\
     (userId t = u -> status t <> completed ->
      Download.GET env (Some u) id w = (ErrorJson 400 "任务尚未完成", w))) /\
  (forall env u id w record,
     u <> EmptyString -> kv w !! id = None -> batchTasks w !! id = Some record ->
     Download.get_rejects env = None -> Download.history_find_rejects env = None ->
     (History.userId record <> u ->
      fst (Download.GET env (Some u) id w) = ErrorJson 403 "无权访问此任务") /\
     (History.userId record = u -> History.status record <> completed ->
      fst (Download.GET env (Some u) id w) = ErrorJson 400 "任务尚未完成")).
Proof.
  split_and!.
  - intros env u id w t Hu Hlook Hown Hs [Hlen Hall] Hpos Hget.
    rewrite (Download_ephemeral env u id w t Hu Hlook Hget).
    rewrite Hown, String.eqb_refl, Hs. simpl.
    destruct (emailList t) as [l|]; simpl in *; [|lia].
    exists l, (join_lines l). split; [reflexivity|].
    destruct l; [simpl in Hlen; lia|]. simpl.
    split_and!; auto. apply join_lines_joined.
  - intros env session role req w id st msg w' H.
    apply Create_created in H as (u & _ & _ & _ & _ & Hk).
    eexists. split; [rewrite Hk; apply lookup_insert_eq|].
    split; simpl; [reflexivity | constructor].
  - intros env id w t Hid Hlook Ht.
    apply (POST_preserves list_ok env id w t Hid Hlook Ht).
    intros puts Hc. apply (call_puts_list_ok env w t); assumption.
  - intros env u id w record Hu Hlook Hrec Hown Hs (Hget & Hfind & Hmany) Ht Hc.
    rewrite (Download_fallback env u id w record Hu Hlook Hrec Hget Hfind).
    rewrite Hown, String.eqb_refl, Hs, Hmany. simpl.
    rewrite (matchingEmails_fallback w u record Ht Hc).
    eexists _, _. split; [apply order_by_createdAt_perm|].
    split; [apply order_by_createdAt_sorted|].
    split; [reflexivity|].
    destruct (take _ _) as [|a found]; simpl.
    + split; [reflexivity | congruence].
    + split; [discriminate|]. intros _. eexists. split; [reflexivity|].
      apply join_lines_joined.
  - intros env u id w t Hu Hlook Hget.
    rewrite (Download_ephemeral env u id w t Hu Hlook Hget). split.
    + intros Hne. apply String.eqb_neq in Hne. rewrite Hne. reflexivity.
    + intros -> Hs. rewrite String.eqb_refl. simpl.
      rewrite bool_decide_eq_false_2 by exact Hs. reflexivity.
  - intros env u id w record Hu Hlook Hrec Hget Hfind.
    rewrite (Download_fallback env u id w record Hu Hlook Hrec Hget Hfind). split.
    + intros Hne. apply String.eqb_neq in Hne. rewrite Hne. reflexivity.
    + intros -> Hs. rewrite String.eqb_refl. simpl.
      rewrite bool_decide_eq_false_2 by exact Hs. reflexivity.
Qed.

Lemma download_returns_created_addresses_witness :
  (exists l content,
     emailList three_task = Some l /\
     Download.GET (Download.mkEnv None None None) (Some "alice") "D3" three_world
       = (TextFile content ("emails-" +:+ "D3" +:+ ".txt"), three_world) /\
     newline_joined l content /\
     Z.of_nat (length l) = createdCount three_task /\
     Forall (fun a => endsWith a ("@" +:+ domain three_task) = true) l) /\
  (exists sorted found,
     sorted ≡ₚ List.filter
                 (fun r => (String.eqb (Email.userId r) "alice"
                            && (1 <=? Email.createdAt r))%bool)
                 (emails expired_world) /\
     oldest_first (map Email.createdAt sorted) /\
     found = take (Z.to_nat 3)
               (List.filter (fun a => endsWith a ("@" +:+ "moemail.app"))
                  (map Email.address (take (Z.to_nat (3 * 2)) sorted))) /\
     (found = [] ->
      fst (Download.GET (Download.mkEnv None None None) (Some "alice") "D3"
             expired_world) = ErrorJson 400 "没有可下载的邮箱地址") /\
     (found <> [] ->
      exists content,
        fst (Download.GET (Download.mkEnv None None None) (Some "alice") "D3"
               expired_world)
          = TextFile content ("emails-" +:+ "D3" +:+ ".txt") /\
        newline_joined found content)) /\
  Download.GET (Download.mkEnv None None None) (Some "alice") "D3" three_world
    = (TextFile
         ("u0@moemail.app" +:+ newline +:+ "u1@moemail.app" +:+ newline
          +:+ "u2@moemail.app")
         "emails-D3.txt", three_world) /\
  fst (Download.GET (Download.mkEnv None None None) (Some "alice") "D3" expired_world)
    = TextFile
        ("u0@moemail.app" +:+ newline +:+ "u1@moemail.app" +:+ newline
         +:+ "u2@moemail.app")
        "emails-D3.txt".
Proof.
  split_and!.
  - apply (proj1 download_returns_created_addresses (Download.mkEnv None None None)
             "alice" "D3" three_world three_task).
    + discriminate.
    + reflexivity.
    + reflexivity.
    + reflexivity.
    + split; [reflexivity|]. repeat constructor.
    + simpl. lia.
    + reflexivity.
  - apply (proj1 (proj2 (proj2 (proj2 download_returns_created_addresses)))
             (Download.mkEnv None None None) "alice" "D3" expired_world
             (History.mk "alice" "moemail.app" 3 3 completed None 1 (Some 13))).
    + discriminate.
    + reflexivity.
    + reflexivity.
    + reflexivity.
    + reflexivity.
    + repeat split.
    + simpl. lia.
    + simpl. lia.
  - vm_compute. reflexivity.
  - vm_compute. reflexivity.
Defined.
